(** * AI caption creator: the browser client and its request/response contract

    The development follows [src/frontend/app.js].  JavaScript strings are
    sequences of UTF-16 code units; the page state (the [selectedImage]
    variable, element properties, timers, pending file reads) is threaded
    explicitly through a small state-and-exception monad; what the page does
    to the outside (requests, toasts, clipboard writes) is recorded in a
    trace; the server the page talks to is an arbitrary function from
    requests to outcomes.  An [async] function is followed from its call to
    its completion against the server's answer.

    The platform functions the script calls are embedded as far as the
    script uses them: [trim], [startsWith], [JSON.stringify], [JSON.parse],
    the serialisation of a text node and the parsing of [textarea] markup.

    The backend is not among the sources; its contract (module [Backend])
    is written from the specification.

    Definitions come first, properties after them. *)

From Stdlib Require Import List NArith ZArith Bool String Ascii Lia.
From Stdlib Require DecimalString.
Import ListNotations.

Set Implicit Arguments.
Set Warnings "-register-all,-abstract-large-number".


Local Open Scope N_scope.

(** ** JavaScript strings *)

(** A code unit is a number below 65536; nothing below depends on the
    bound. *)
Definition code_unit := N.
Definition jsstring := list code_unit.

(** An ASCII literal of the source, one code unit per character. *)
Definition lit (s : string) : jsstring :=
  List.map N_of_ascii (list_ascii_of_string s).

(** [s.length] *)
Definition strlen (s : jsstring) : nat := List.length s.

(** [a === b] on strings *)
Fixpoint jsstring_eqb (a b : jsstring) : bool :=
  match a, b with
  | [], [] => true
  | c :: a', d :: b' => (c =? d) && jsstring_eqb a' b'
  | _, _ => false
  end.

(** [s.startsWith(p)] *)
Fixpoint startsWith (p s : jsstring) : bool :=
  match p with
  | [] => true
  | c :: p' =>
    match s with
    | [] => false
    | d :: s' => (c =? d) && startsWith p' s'
    end
  end.

(** WhiteSpace and LineTerminator code units, the ones [trim] strips. *)
Definition is_white_space (c : code_unit) : bool :=
  ((9 <=? c) && (c <=? 13)) || (c =? 32) || (c =? 160) || (c =? 5760)
  || ((8192 <=? c) && (c <=? 8202)) || (c =? 8232) || (c =? 8233)
  || (c =? 8239) || (c =? 8287) || (c =? 12288) || (c =? 65279).

Fixpoint trimStart (s : jsstring) : jsstring :=
  match s with
  | [] => []
  | c :: s' => if is_white_space c then trimStart s' else s
  end.

Definition trimEnd (s : jsstring) : jsstring := rev (trimStart (rev s)).

(** [s.trim()] *)
Definition trim (s : jsstring) : jsstring := trimEnd (trimStart s).

(** ** The pieces of the HTML standard the script runs through

    [escapeHtml] writes its argument into a [div] as text and reads the
    markup back: the [innerHTML] getter runs the fragment serialisation
    algorithm on a text node ("Serialising HTML fragments", escaping a
    string outside attribute mode).

    [copyToClipboard] writes markup into a [textarea] and reads its value
    back.  The [innerHTML] setter runs the fragment parsing algorithm with
    a [textarea] as context: the input stream is preprocessed by
    normalising newlines, the tokenizer starts in its RCDATA state, and no
    end tag is appropriate, so only character references and U+0000 are
    treated specially.  The [value] getter returns the API value: the text
    content with newlines normalised. *)

Module Html.

Definition NUL : code_unit := 0.
Definition LF : code_unit := 10.
Definition CR : code_unit := 13.
Definition AMP : code_unit := 38.
Definition APOS : code_unit := 39.
Definition LT : code_unit := 60.
Definition GT : code_unit := 62.
Definition NBSP : code_unit := 160.
Definition REPLACEMENT : code_unit := 65533.

(** Serialising a text node: "escaping a string" outside attribute mode. *)
Definition escape_unit (c : code_unit) : jsstring :=
  if c =? AMP then lit "&amp;"
  else if c =? NBSP then lit "&nbsp;"
  else if c =? LT then lit "&lt;"
  else if c =? GT then lit "&gt;"
  else [c].

Definition serialize_text (data : jsstring) : jsstring :=
  flat_map escape_unit data.

(** Input-stream preprocessing and the [textarea] API value: every CR LF
    pair and every remaining CR becomes one LF. *)
Fixpoint normalize_newlines (s : jsstring) : jsstring :=
  match s with
  | [] => []
  | c :: rest =>
    if c =? CR then
      LF :: match rest with
            | [] => []
            | d :: rest' =>
              if d =? LF then normalize_newlines rest'
              else normalize_newlines rest
            end
    else c :: normalize_newlines rest
  end.

(** Named character references: names, with their semicolon where they
    have one, and replacements.  The standard's table has 2231 rows and is
    a parameter of what follows; [named_character_references] is an excerpt
    of it, used in the examples. *)
Definition reference_table : Type := list (jsstring * jsstring).

Definition named_character_references : reference_table :=
  [ (lit "amp;", [38]);   (lit "amp", [38]);
    (lit "lt;", [60]);    (lit "lt", [60]);
    (lit "gt;", [62]);    (lit "gt", [62]);
    (lit "nbsp;", [160]); (lit "nbsp", [160]);
    (lit "quot;", [34]);  (lit "quot", [34]);
    (lit "apos;", [39]);
    (lit "ltimes;", [8905]); (lit "ltdot;", [8918]);
    (lit "gtdot;", [8919]);  (lit "nbump;", [8782; 824]);
    (lit "copy;", [169]);    (lit "copy", [169]) ].

(** What is used of the standard's table: a semicolon ends the name it
    occurs in, and the four references the serialiser writes stand for the
    code units it wrote them for. *)
Definition semicolon_ends_name (name : jsstring) : bool :=
  negb (existsb (N.eqb 59) (removelast name)).

Definition stands_for (table : reference_table) (name repl : jsstring)
  : bool :=
  existsb (fun e => jsstring_eqb (fst e) name) table
  && forallb (fun e => if jsstring_eqb (fst e) name
                       then jsstring_eqb (snd e) repl else true) table.

Definition standard_references (table : reference_table) : bool :=
  forallb (fun e => semicolon_ends_name (fst e)) table
  && stands_for table (lit "amp;") [AMP]
  && stands_for table (lit "nbsp;") [NBSP]
  && stands_for table (lit "lt;") [LT]
  && stands_for table (lit "gt;") [GT].

(** The longest name of the table that the input starts with. *)
Fixpoint longest_match (table : reference_table) (s : jsstring)
  : option (jsstring * jsstring) :=
  match table with
  | [] => None
  | (name, repl) :: table' =>
    let best := longest_match table' s in
    if startsWith name s then
      match best with
      | Some (name', repl') =>
        if (List.length name <? List.length name')%nat
        then best else Some (name, repl)
      | None => Some (name, repl)
      end
    else best
  end.

Definition is_digit (c : code_unit) : bool := (48 <=? c) && (c <=? 57).

Definition hex_value (c : code_unit) : option N :=
  if (48 <=? c) && (c <=? 57) then Some (c - 48)
  else if (65 <=? c) && (c <=? 70) then Some (c - 55)
  else if (97 <=? c) && (c <=? 102) then Some (c - 87)
  else None.

(** Reads digits of the given base; yields the number read, how many code
    units were read, and what follows them. *)
Fixpoint read_digits (base : N) (acc : N) (n : nat) (s : jsstring)
  : N * nat * jsstring :=
  match s with
  | [] => (acc, n, [])
  | c :: s' =>
    match hex_value c with
    | Some v =>
      if v <? base then read_digits base (acc * base + v) (S n) s'
      else (acc, n, s)
    | None => (acc, n, s)
    end
  end.

(** The replacements of the numeric character reference end state for the
    C1 control range. *)
Definition c1_replacement (code : N) : option N :=
  match code with
  | 128 => Some 8364 | 130 => Some 8218 | 131 => Some 402
  | 132 => Some 8222 | 133 => Some 8230 | 134 => Some 8224
  | 135 => Some 8225 | 136 => Some 710  | 137 => Some 8240
  | 138 => Some 352  | 139 => Some 8249 | 140 => Some 338
  | 142 => Some 381  | 145 => Some 8216 | 146 => Some 8217
  | 147 => Some 8220 | 148 => Some 8221 | 149 => Some 8226
  | 150 => Some 8211 | 151 => Some 8212 | 152 => Some 732
  | 153 => Some 8482 | 154 => Some 353  | 155 => Some 8250
  | 156 => Some 339  | 158 => Some 382  | 159 => Some 376
  | _ => None
  end.

Definition numeric_code_point (code : N) : N :=
  if code =? 0 then REPLACEMENT
  else if 1114111 <? code then REPLACEMENT
  else if (55296 <=? code) && (code <=? 57343) then REPLACEMENT
  else match c1_replacement code with
       | Some r => r
       | None => code
       end.

(** A code point as UTF-16 code units. *)
Definition utf16 (cp : N) : jsstring :=
  if cp <? 65536 then [cp]
  else [55296 + (cp - 65536) / 1024; 56320 + (cp - 65536) mod 1024].

Definition SEMICOLON : code_unit := 59.
Definition HASH : code_unit := 35.

Definition skip_semicolon (n : nat) (s : jsstring) : nat :=
  match s with
  | c :: _ => if c =? SEMICOLON then S n else n
  | [] => n
  end.

(** The character reference states, entered after an ampersand: what is
    emitted in place of the reference and how many code units after the
    ampersand it takes up, or [None] when the ampersand stands for itself
    (no name of the table matches, or no digit follows the number sign). *)
Definition consume_character_reference (table : reference_table)
  (s : jsstring) : option (jsstring * nat) :=
  match s with
  | c :: s1 =>
    if c =? HASH then
      match s1 with
      | x :: s2 =>
        if (x =? 120) || (x =? 88) then
          match read_digits 16 0 0 s2 with
          | (_, O, _) => None
          | (code, n, rest) =>
            Some (utf16 (numeric_code_point code),
                  skip_semicolon (2 + n) rest)
          end
        else
          match read_digits 10 0 0 s1 with
          | (_, O, _) => None
          | (code, n, rest) =>
            Some (utf16 (numeric_code_point code),
                  skip_semicolon (1 + n) rest)
          end
      | [] => None
      end
    else
      match longest_match table s with
      | Some (name, repl) => Some (repl, List.length name)
      | None => None
      end
  | [] => None
  end.

(** The tokenizer in its RCDATA state, with no start tag emitted before (the
    fragment case: no end tag is appropriate, so a less-than sign is text).
    [skip] counts the code units still taken up by the reference being
    consumed. *)
Fixpoint rcdata (table : reference_table) (skip : nat) (s : jsstring)
  : jsstring :=
  match s with
  | [] => []
  | c :: rest =>
    match skip with
    | S k => rcdata table k rest
    | O =>
      if c =? AMP then
        match consume_character_reference table rest with
        | Some (out, n) => out ++ rcdata table n rest
        | None => c :: rcdata table O rest
        end
      else if c =? NUL then REPLACEMENT :: rcdata table O rest
      else c :: rcdata table O rest
    end
  end.

(** [div.textContent = text; div.innerHTML] *)
Definition div_markup_of_text (text : jsstring) : jsstring :=
  serialize_text text.

(** [textarea.innerHTML = markup; textarea.value] *)
Definition textarea_value_of_markup (table : reference_table)
  (markup : jsstring) : jsstring :=
  normalize_newlines (rcdata table O (normalize_newlines markup)).

End Html.

(** ** Escaping and unescaping in the page *)

(** [text.replace(/'/g, '&#39;')] *)
Definition replace_apostrophes (text : jsstring) : jsstring :=
  flat_map (fun c => if c =? Html.APOS then lit "&#39;" else [c]) text.

(** [escapeHtml], app.js lines 319-323. *)
Definition escapeHtml (text : jsstring) : jsstring :=
  replace_apostrophes (Html.div_markup_of_text text).

(** The first three lines of [copyToClipboard], app.js lines 307-309: the
    text that is handed to the clipboard. *)
Definition unescapedText (table : Html.reference_table) (text : jsstring)
  : jsstring :=
  Html.textarea_value_of_markup table text.


(** ** JavaScript values, as far as JSON produces them *)

(** Numbers are kept as integers: the page only counts characters, and no
    number of a response is inspected beyond being zero or not. *)
Inductive value : Type :=
| VUndefined
| VNull
| VBool (b : bool)
| VNumber (z : Z)
| VString (s : jsstring)
| VArray (items : list value)
| VObject (members : list (jsstring * value)).

Definition is_nullish (v : value) : bool :=
  match v with
  | VUndefined | VNull => true
  | _ => false
  end.

(** ToBoolean. *)
Definition truthy (v : value) : bool :=
  match v with
  | VUndefined | VNull => false
  | VBool b => b
  | VNumber z => negb (Z.eqb z 0)
  | VString s => match s with [] => false | _ => true end
  | VArray _ | VObject _ => true
  end.

(** [a || b] *)
Definition js_or (a b : value) : value := if truthy a then a else b.

Fixpoint lookup (name : jsstring) (members : list (jsstring * value))
  : option value :=
  match members with
  | [] => None
  | (k, v) :: rest => if jsstring_eqb k name then Some v else lookup name rest
  end.

(** [Array.prototype.join] on strings already converted. *)
Fixpoint join (sep : jsstring) (parts : list jsstring) : jsstring :=
  match parts with
  | [] => []
  | [p] => p
  | p :: rest => p ++ sep ++ join sep rest
  end.

Definition decimal (z : Z) : jsstring :=
  lit (DecimalString.NilZero.string_of_int (Z.to_int z)).

(** ToString. *)
Fixpoint ToString (v : value) : jsstring :=
  match v with
  | VUndefined => lit "undefined"
  | VNull => lit "null"
  | VBool true => lit "true"
  | VBool false => lit "false"
  | VNumber z => decimal z
  | VString s => s
  | VArray items =>
    join (lit ",")
         (List.map (fun x => if is_nullish x then [] else ToString x) items)
  | VObject _ => lit "[object Object]"
  end.

(** [JSON.stringify]: QuoteJSONString, then the structure. *)
Definition hex_digit (n : N) : code_unit :=
  if n <? 10 then 48 + n else 87 + n.

Definition unicode_escape (c : code_unit) : jsstring :=
  lit "\u" ++ [hex_digit (c / 4096); hex_digit ((c / 256) mod 16);
               hex_digit ((c / 16) mod 16); hex_digit (c mod 16)].

Definition is_high_surrogate (c : code_unit) : bool :=
  (55296 <=? c) && (c <=? 56319).
Definition is_low_surrogate (c : code_unit) : bool :=
  (56320 <=? c) && (c <=? 57343).

Definition quote_unit (c : code_unit) : jsstring :=
  if c =? 8 then lit "\b"
  else if c =? 9 then lit "\t"
  else if c =? 10 then lit "\n"
  else if c =? 12 then lit "\f"
  else if c =? 13 then lit "\r"
  else if c =? 34 then [92; 34]
  else if c =? 92 then [92; 92]
  else if c <? 32 then unicode_escape c
  else [c].

Fixpoint quote_units (s : jsstring) : jsstring :=
  match s with
  | [] => []
  | c :: rest =>
    if is_high_surrogate c then
      match rest with
      | d :: rest' =>
        if is_low_surrogate d then c :: d :: quote_units rest'
        else unicode_escape c ++ quote_units rest
      | [] => unicode_escape c
      end
    else if is_low_surrogate c then unicode_escape c ++ quote_units rest
    else quote_unit c ++ quote_units rest
  end.

Definition QuoteJSONString (s : jsstring) : jsstring :=
  [34] ++ quote_units s ++ [34].

(** SerializeJSONProperty; [None] is the [undefined] result. *)
Fixpoint SerializeJSONProperty (v : value) : option jsstring :=
  match v with
  | VUndefined => None
  | VNull => Some (lit "null")
  | VBool true => Some (lit "true")
  | VBool false => Some (lit "false")
  | VNumber z => Some (decimal z)
  | VString s => Some (QuoteJSONString s)
  | VArray items =>
    Some (lit "[" ++
          join (lit ",")
               (List.map (fun x => match SerializeJSONProperty x with
                                   | Some t => t
                                   | None => lit "null"
                                   end) items) ++
          lit "]")
  | VObject members =>
    Some (lit "{" ++
          join (lit ",")
               (flat_map (fun kv => match SerializeJSONProperty (snd kv) with
                                    | Some t =>
                                      [QuoteJSONString (fst kv) ++ lit ":" ++ t]
                                    | None => []
                                    end) members) ++
          lit "}")
  end.

Definition JSON_stringify (v : value) : option jsstring :=
  SerializeJSONProperty v.


(** [JSON.parse], without a reviver.  Numbers are read in the integer model
    of [value]: a number written with a fraction or an exponent is not
    decoded. *)
Definition is_json_whitespace (c : code_unit) : bool :=
  (c =? 32) || (c =? 9) || (c =? 10) || (c =? 13).

Fixpoint skip_whitespace (s : jsstring) : jsstring :=
  match s with
  | [] => []
  | c :: rest => if is_json_whitespace c then skip_whitespace rest else s
  end.

(** The code unit a single-character escape stands for. *)
Definition simple_escape (c : code_unit) : option code_unit :=
  if c =? 34 then Some 34
  else if c =? 92 then Some 92
  else if c =? 47 then Some 47
  else if c =? 98 then Some 8
  else if c =? 102 then Some 12
  else if c =? 110 then Some 10
  else if c =? 114 then Some 13
  else if c =? 116 then Some 9
  else None.

Definition hex4 (a b c d : code_unit) : option code_unit :=
  match Html.hex_value a, Html.hex_value b,
        Html.hex_value c, Html.hex_value d with
  | Some x, Some y, Some z, Some t => Some (((x * 16 + y) * 16 + z) * 16 + t)
  | _, _, _, _ => None
  end.

Definition prepend (c : code_unit) (r : option (jsstring * jsstring))
  : option (jsstring * jsstring) :=
  match r with
  | Some (s, rest) => Some (c :: s, rest)
  | None => None
  end.

(** A string, read from behind its opening quote: its value and what
    follows its closing quote. *)
Fixpoint parse_string (s : jsstring) : option (jsstring * jsstring) :=
  match s with
  | [] => None
  | c :: rest =>
    if c =? 34 then Some ([], rest)
    else if c =? 92 then
      match rest with
      | [] => None
      | e :: rest1 =>
        if e =? 117 then
          match rest1 with
          | a :: b :: c' :: d :: rest2 =>
            match hex4 a b c' d with
            | Some u => prepend u (parse_string rest2)
            | None => None
            end
          | _ => None
          end
        else
          match simple_escape e with
          | Some u => prepend u (parse_string rest1)
          | None => None
          end
      end
    else if c <? 32 then None
    else prepend c (parse_string rest)
  end.

(** Decimal digits, read greedily. *)
Fixpoint parse_digits (acc : N) (s : jsstring) : N * jsstring :=
  match s with
  | [] => (acc, [])
  | c :: rest =>
    if Html.is_digit c then parse_digits (acc * 10 + (c - 48)) rest
    else (acc, s)
  end.

Definition starts_fraction_or_exponent (s : jsstring) : bool :=
  match s with
  | c :: _ => (c =? 46) || (c =? 101) || (c =? 69)
  | [] => false
  end.

(** An unsigned integer literal: a single 0, or digits without leading 0. *)
Definition parse_natural (s : jsstring) : option (N * jsstring) :=
  match s with
  | [] => None
  | c :: rest =>
    if c =? 48 then
      if starts_fraction_or_exponent rest then None else Some (0, rest)
    else if Html.is_digit c then
      let (n, rest') := parse_digits 0 s in
      if starts_fraction_or_exponent rest' then None else Some (n, rest')
    else None
  end.

Definition parse_number (s : jsstring) : option (value * jsstring) :=
  match s with
  | [] => None
  | c :: rest =>
    if c =? 45 then
      match parse_natural rest with
      | Some (n, rest') => Some (VNumber (- Z.of_N n), rest')
      | None => None
      end
    else
      match parse_natural s with
      | Some (n, rest') => Some (VNumber (Z.of_N n), rest')
      | None => None
      end
  end.

(** An array index: the canonical decimal form of an integer below
    2^32 - 1.  Such keys are enumerated first, in numeric order. *)
Definition array_index (key : jsstring) : option N :=
  match key with
  | [] => None
  | c :: rest =>
    if Html.is_digit c then
      match parse_digits 0 key with
      | (n, []) =>
        if ((c =? 48) && negb (strlen key =? 1)%nat) || (4294967295 <=? n)
        then None else Some n
      | _ => None
      end
    else None
  end.

(** CreateDataProperty on the ordered members of an object: an existing key
    keeps its place and takes the new value; a new array index goes among
    the indices, in order; any other new key goes last. *)
Fixpoint replace_member (key : jsstring) (v : value)
  (members : list (jsstring * value)) : list (jsstring * value) :=
  match members with
  | [] => []
  | (k, x) :: rest =>
    if jsstring_eqb k key then (k, v) :: rest
    else (k, x) :: replace_member key v rest
  end.

Fixpoint insert_index (n : N) (key : jsstring) (v : value)
  (members : list (jsstring * value)) : list (jsstring * value) :=
  match members with
  | [] => [(key, v)]
  | (k, x) :: rest =>
    match array_index k with
    | Some m =>
      if m <? n then (k, x) :: insert_index n key v rest
      else (key, v) :: members
    | None => (key, v) :: members
    end
  end.

Definition define_member (key : jsstring) (v : value)
  (members : list (jsstring * value)) : list (jsstring * value) :=
  match lookup key members with
  | Some _ => replace_member key v members
  | None =>
    match array_index key with
    | Some n => insert_index n key v members
    | None => members ++ [(key, v)]
    end
  end.

(** A literal name at the head of the input. *)
Fixpoint expect (name s : jsstring) : option jsstring :=
  match name with
  | [] => Some s
  | c :: name' =>
    match s with
    | d :: s' => if c =? d then expect name' s' else None
    | [] => None
    end
  end.

(** The value grammar.  [fuel] bounds the nesting and the number of
    elements; [JSON_parse] gives more than any text can use. *)
Fixpoint parse_value (fuel : nat) (s : jsstring) {struct fuel}
  : option (value * jsstring) :=
  match fuel with
  | O => None
  | S fuel' =>
    match skip_whitespace s with
    | [] => None
    | c :: rest =>
      if c =? 34 then
        match parse_string rest with
        | Some (str, rest') => Some (VString str, rest')
        | None => None
        end
      else if c =? 91 then
        match skip_whitespace rest with
        | d :: rest' =>
          if d =? 93 then Some (VArray [], rest')
          else parse_elements fuel' [] rest
        | [] => None
        end
      else if c =? 123 then
        match skip_whitespace rest with
        | d :: rest' =>
          if d =? 125 then Some (VObject [], rest')
          else parse_members fuel' [] rest
        | [] => None
        end
      else if c =? 110 then
        match expect (lit "ull") rest with
        | Some rest' => Some (VNull, rest')
        | None => None
        end
      else if c =? 116 then
        match expect (lit "rue") rest with
        | Some rest' => Some (VBool true, rest')
        | None => None
        end
      else if c =? 102 then
        match expect (lit "alse") rest with
        | Some rest' => Some (VBool false, rest')
        | None => None
        end
      else parse_number (c :: rest)
    end
  end

with parse_elements (fuel : nat) (before : list value) (s : jsstring)
  {struct fuel} : option (value * jsstring) :=
  match fuel with
  | O => None
  | S fuel' =>
    match parse_value fuel' s with
    | Some (v, rest) =>
      match skip_whitespace rest with
      | c :: rest' =>
        if c =? 44 then parse_elements fuel' (before ++ [v]) rest'
        else if c =? 93 then Some (VArray (before ++ [v]), rest')
        else None
      | [] => None
      end
    | None => None
    end
  end

with parse_members (fuel : nat) (before : list (jsstring * value))
  (s : jsstring) {struct fuel} : option (value * jsstring) :=
  match fuel with
  | O => None
  | S fuel' =>
    match skip_whitespace s with
    | q :: s1 =>
      if q =? 34 then
        match parse_string s1 with
        | Some (key, s2) =>
          match skip_whitespace s2 with
          | colon :: s3 =>
            if colon =? 58 then
              match parse_value fuel' s3 with
              | Some (v, rest) =>
                match skip_whitespace rest with
                | c :: rest' =>
                  if c =? 44 then
                    parse_members fuel' (define_member key v before) rest'
                  else if c =? 125 then
                    Some (VObject (define_member key v before), rest')
                  else None
                | [] => None
                end
              | None => None
              end
            else None
          | [] => None
          end
        | None => None
        end
      else None
    | [] => None
    end
  end.

Definition JSON_parse (text : jsstring) : option value :=
  match parse_value (S (List.length text)) text with
  | Some (v, rest) =>
    match skip_whitespace rest with
    | [] => Some v
    | _ :: _ => None
    end
  | None => None
  end.

(** A JSON text of the examples, written with apostrophes where the text
    has quotation marks. *)
Definition json_lit (s : string) : jsstring :=
  List.map (fun c => if c =? 39 then 34 else c) (lit s).

(** The text of a value inside an array: what SerializeJSONProperty writes,
    and [null] for a value it does not write. *)
Definition text_of (v : value) : jsstring :=
  match SerializeJSONProperty v with
  | Some t => t
  | None => lit "null"
  end.

Definition member_text (kv : jsstring * value) : jsstring :=
  QuoteJSONString (fst kv) ++ lit ":" ++ text_of (snd kv).

(** The values that are written and read back as they are: strings,
    booleans and [null], arrays of such values, and objects of such values
    whose keys are distinct and are no array indices. *)
Inductive plain : value -> Prop :=
| plain_null : plain VNull
| plain_bool b : plain (VBool b)
| plain_string s : plain (VString s)
| plain_array items : Forall plain items -> plain (VArray items)
| plain_object members :
    Forall (fun kv => plain (snd kv)) members ->
    NoDup (List.map fst members) ->
    Forall (fun kv => array_index (fst kv) = None) members ->
    plain (VObject members).

(** The fuel that reading a value back takes. *)
Fixpoint weight (v : value) : nat :=
  match v with
  | VArray items => S (list_sum (List.map (fun x => S (weight x)) items))
  | VObject members =>
    S (list_sum (List.map (fun kv => S (weight (snd kv))) members))
  | _ => 1
  end.


(** ** The page: its state, its environment, its effects *)

Module Client.

(** [const API_BASE_URL], app.js line 2. *)
Definition API_BASE_URL : jsstring := lit "http://localhost:5000".

(** A [File] picked or dropped by the user. *)
Record File : Type := {
  file_name : jsstring;
  file_type : jsstring;
  file_bytes : list N
}.

(** What [fetch] is given and what it answers. *)
Inductive Body : Type :=
| NoBody
| StringBody (text : jsstring)
| FormDataBody (entries : list (jsstring * File)).

Record Request : Type := {
  req_url : jsstring;
  req_method : jsstring;
  req_headers : list (jsstring * jsstring);
  req_body : Body
}.

(** [resp_json] is what [response.json()] settles to: the decoded body, or
    the message of the SyntaxError it rejects with. *)
Record Response : Type := {
  resp_status : N;
  resp_json : value + jsstring
}.

(** [response.ok]: the status is in the range 200-299. *)
Definition resp_ok (r : Response) : bool :=
  (200 <=? resp_status r) && (resp_status r <=? 299).

Inductive FetchOutcome : Type :=
| NetworkFailure (message : jsstring)
| Responded (r : Response).

(** Exceptions raised by the engine itself; the wording of their messages
    is the engine's. *)
Inductive EngineError : Type :=
| CannotReadProperty (object : value) (name : jsstring)
| NotAFunction (name : jsstring).

Record Exn : Type := {
  exn_name : jsstring;
  exn_message : jsstring
}.

(** What surrounds the script: the server behind [API_BASE_URL] (it sees the
    requests made so far and the current one), the engine's error messages,
    the browser's table of named character references, the clipboard's
    permission, and the tab markup of the document ([dataset.tab] of every
    [.tab-btn], [id] of every [.tab-content]). *)
Record Env : Type := {
  server : list Request -> Request -> FetchOutcome;
  engine_message : EngineError -> jsstring;
  named_references : Html.reference_table;
  clipboard_accepts : jsstring -> bool;
  tabBtns : list jsstring;
  tabContents : list jsstring
}.

(** The elements the script holds on to, app.js lines 5-31. *)
Inductive Element : Type :=
| document
| tabBtn (index : nat)
| tabContent (index : nat)
| imageInput
| imageUploadBtn
| uploadArea
| imagePreview
| previewImg
| removeImageBtn
| generateFromImage
| generateImageText
| imageSpinner
| textBrief
| charCount
| generateFromText
| generateTextText
| textSpinner
| resultsSection
| newGenerationBtn
| contentTypeBadge
| contentTypeText
| captionsGrid
| hashtagsGrid
| postingTimeCard
| toast
| toastMessage.

(** The element properties the script writes. *)
Inductive Attr : Type :=
| style_display
| style_color
| style_background
| src
| disabled
| textContent
| input_value
| class_active
| class_show
| class_drag_over.

Scheme Equality for Element.
Scheme Equality for Attr.

(** The markup of a card, kept as the strings interpolated into its
    template, in the order of the template. *)
Record CaptionCard : Type := {
  caption_tone : jsstring;
  caption_text : jsstring;
  caption_copy_argument : jsstring
}.

Record HashtagCard : Type := {
  hashtag_category : jsstring;
  hashtag_tags : list jsstring;
  hashtag_copy_argument : jsstring
}.

Record PostingTimeContent : Type := {
  posting_time : jsstring;
  posting_day : jsstring;
  posting_reason : jsstring
}.

(** The functions registered as listeners. *)
Inductive Handler : Type :=
| on_DOMContentLoaded
| on_tab_click (tab : jsstring)
| on_imageUploadBtn_click
| on_handleImageSelect
| on_removeImage
| on_handleDragOver
| on_handleDragLeave
| on_handleDrop
| on_generateCaptionsFromImage
| on_generateCaptionsFromText
| on_updateCharCount
| on_resetForm.

Definition Listener : Type := (Element * jsstring * Handler)%type.

Inductive TimerCallback : Type :=
| hide_toast.

Definition Timer : Type := (TimerCallback * N)%type.

(** The event object, as far as the handlers read it: [e.target.files] of a
    change event, [e.dataTransfer.files] of a drop. *)
Record EventObject : Type := {
  ev_files : list File
}.

(** What the page does to the outside, in the order it does it. *)
Inductive Effect : Type :=
| Fetch (r : Request)
| Toast (message : value) (type : jsstring)
| Display (data : value)
| ClipboardWrite (text : jsstring)
| FileDialog
| ScrollIntoView (target : Element)
| ScrollToTop.

Record World : Type := {
  selectedImage : option File;
  textBrief_value : jsstring;
  imageInput_files : list File;
  attrs : Element -> Attr -> value;
  captionsGrid_children : list CaptionCard;
  hashtagsGrid_children : list HashtagCard;
  postingTimeCard_innerHTML : option PostingTimeContent;
  listeners : list Listener;
  timers : list Timer;
  readers : list File;
  defaultPrevented : bool;
  trace : list Effect
}.

Definition set_selectedImage (x : option File) (w : World) : World :=
  {| selectedImage := x;
     textBrief_value := textBrief_value w;
     imageInput_files := imageInput_files w;
     attrs := attrs w;
     captionsGrid_children := captionsGrid_children w;
     hashtagsGrid_children := hashtagsGrid_children w;
     postingTimeCard_innerHTML := postingTimeCard_innerHTML w;
     listeners := listeners w;
     timers := timers w;
     readers := readers w;
     defaultPrevented := defaultPrevented w;
     trace := trace w |}.

Definition set_textBrief_value (x : jsstring) (w : World) : World :=
  {| selectedImage := selectedImage w;
     textBrief_value := x;
     imageInput_files := imageInput_files w;
     attrs := attrs w;
     captionsGrid_children := captionsGrid_children w;
     hashtagsGrid_children := hashtagsGrid_children w;
     postingTimeCard_innerHTML := postingTimeCard_innerHTML w;
     listeners := listeners w;
     timers := timers w;
     readers := readers w;
     defaultPrevented := defaultPrevented w;
     trace := trace w |}.

Definition set_imageInput_files (x : list File) (w : World) : World :=
  {| selectedImage := selectedImage w;
     textBrief_value := textBrief_value w;
     imageInput_files := x;
     attrs := attrs w;
     captionsGrid_children := captionsGrid_children w;
     hashtagsGrid_children := hashtagsGrid_children w;
     postingTimeCard_innerHTML := postingTimeCard_innerHTML w;
     listeners := listeners w;
     timers := timers w;
     readers := readers w;
     defaultPrevented := defaultPrevented w;
     trace := trace w |}.

Definition set_attrs (x : Element -> Attr -> value) (w : World) : World :=
  {| selectedImage := selectedImage w;
     textBrief_value := textBrief_value w;
     imageInput_files := imageInput_files w;
     attrs := x;
     captionsGrid_children := captionsGrid_children w;
     hashtagsGrid_children := hashtagsGrid_children w;
     postingTimeCard_innerHTML := postingTimeCard_innerHTML w;
     listeners := listeners w;
     timers := timers w;
     readers := readers w;
     defaultPrevented := defaultPrevented w;
     trace := trace w |}.

Definition set_captionsGrid_children (x : list CaptionCard) (w : World) : World :=
  {| selectedImage := selectedImage w;
     textBrief_value := textBrief_value w;
     imageInput_files := imageInput_files w;
     attrs := attrs w;
     captionsGrid_children := x;
     hashtagsGrid_children := hashtagsGrid_children w;
     postingTimeCard_innerHTML := postingTimeCard_innerHTML w;
     listeners := listeners w;
     timers := timers w;
     readers := readers w;
     defaultPrevented := defaultPrevented w;
     trace := trace w |}.

Definition set_hashtagsGrid_children (x : list HashtagCard) (w : World) : World :=
  {| selectedImage := selectedImage w;
     textBrief_value := textBrief_value w;
     imageInput_files := imageInput_files w;
     attrs := attrs w;
     captionsGrid_children := captionsGrid_children w;
     hashtagsGrid_children := x;
     postingTimeCard_innerHTML := postingTimeCard_innerHTML w;
     listeners := listeners w;
     timers := timers w;
     readers := readers w;
     defaultPrevented := defaultPrevented w;
     trace := trace w |}.

Definition set_postingTimeCard_innerHTML (x : option PostingTimeContent) (w : World) : World :=
  {| selectedImage := selectedImage w;
     textBrief_value := textBrief_value w;
     imageInput_files := imageInput_files w;
     attrs := attrs w;
     captionsGrid_children := captionsGrid_children w;
     hashtagsGrid_children := hashtagsGrid_children w;
     postingTimeCard_innerHTML := x;
     listeners := listeners w;
     timers := timers w;
     readers := readers w;
     defaultPrevented := defaultPrevented w;
     trace := trace w |}.

Definition set_listeners (x : list Listener) (w : World) : World :=
  {| selectedImage := selectedImage w;
     textBrief_value := textBrief_value w;
     imageInput_files := imageInput_files w;
     attrs := attrs w;
     captionsGrid_children := captionsGrid_children w;
     hashtagsGrid_children := hashtagsGrid_children w;
     postingTimeCard_innerHTML := postingTimeCard_innerHTML w;
     listeners := x;
     timers := timers w;
     readers := readers w;
     defaultPrevented := defaultPrevented w;
     trace := trace w |}.

Definition set_timers (x : list Timer) (w : World) : World :=
  {| selectedImage := selectedImage w;
     textBrief_value := textBrief_value w;
     imageInput_files := imageInput_files w;
     attrs := attrs w;
     captionsGrid_children := captionsGrid_children w;
     hashtagsGrid_children := hashtagsGrid_children w;
     postingTimeCard_innerHTML := postingTimeCard_innerHTML w;
     listeners := listeners w;
     timers := x;
     readers := readers w;
     defaultPrevented := defaultPrevented w;
     trace := trace w |}.

Definition set_readers (x : list File) (w : World) : World :=
  {| selectedImage := selectedImage w;
     textBrief_value := textBrief_value w;
     imageInput_files := imageInput_files w;
     attrs := attrs w;
     captionsGrid_children := captionsGrid_children w;
     hashtagsGrid_children := hashtagsGrid_children w;
     postingTimeCard_innerHTML := postingTimeCard_innerHTML w;
     listeners := listeners w;
     timers := timers w;
     readers := x;
     defaultPrevented := defaultPrevented w;
     trace := trace w |}.

Definition set_defaultPrevented (x : bool) (w : World) : World :=
  {| selectedImage := selectedImage w;
     textBrief_value := textBrief_value w;
     imageInput_files := imageInput_files w;
     attrs := attrs w;
     captionsGrid_children := captionsGrid_children w;
     hashtagsGrid_children := hashtagsGrid_children w;
     postingTimeCard_innerHTML := postingTimeCard_innerHTML w;
     listeners := listeners w;
     timers := timers w;
     readers := readers w;
     defaultPrevented := x;
     trace := trace w |}.

Definition set_trace (x : list Effect) (w : World) : World :=
  {| selectedImage := selectedImage w;
     textBrief_value := textBrief_value w;
     imageInput_files := imageInput_files w;
     attrs := attrs w;
     captionsGrid_children := captionsGrid_children w;
     hashtagsGrid_children := hashtagsGrid_children w;
     postingTimeCard_innerHTML := postingTimeCard_innerHTML w;
     listeners := listeners w;
     timers := timers w;
     readers := readers w;
     defaultPrevented := defaultPrevented w;
     trace := x |}.

(** The state right after the script has been evaluated: line 34 sets
    [selectedImage] to [null]; nothing has been registered or sent. *)
Definition initial : World :=
  {| selectedImage := None;
     textBrief_value := [];
     imageInput_files := [];
     attrs := fun _ _ => VUndefined;
     captionsGrid_children := [];
     hashtagsGrid_children := [];
     postingTimeCard_innerHTML := None;
     listeners := [(document, lit "DOMContentLoaded", on_DOMContentLoaded)];
     timers := [];
     readers := [];
     defaultPrevented := false;
     trace := [] |}.

(** *** State and exceptions *)

Inductive Outcome (A : Type) : Type :=
| Normal (a : A)
| Thrown (e : Exn).

Arguments Normal {A} a.
Arguments Thrown {A} e.

Definition M (A : Type) : Type := World -> Outcome A * World.

Definition ret {A : Type} (a : A) : M A := fun w => (Normal a, w).

Definition bind {A B : Type} (c : M A) (k : A -> M B) : M B :=
  fun w =>
    match c w with
    | (Normal a, w') => k a w'
    | (Thrown e, w') => (Thrown e, w')
    end.

Definition throw {A : Type} (e : Exn) : M A := fun w => (Thrown e, w).

(** [try { body } catch (error) { handler }] *)
Definition try_catch {A : Type} (body : M A) (handler : Exn -> M A) : M A :=
  fun w =>
    match body w with
    | (Normal a, w') => (Normal a, w')
    | (Thrown e, w') => handler e w'
    end.

(** [try { body } finally { cleanup }] *)
Definition try_finally {A : Type} (body : M A) (cleanup : M unit) : M A :=
  fun w =>
    match body w with
    | (r, w') =>
      match cleanup w' with
      | (Normal _, w'') => (r, w'')
      | (Thrown e, w'') => (Thrown e, w'')
      end
    end.

Definition modify (f : World -> World) : M unit := fun w => (Normal tt, f w).

Definition read {A : Type} (f : World -> A) : M A := fun w => (Normal (f w), w).

Declare Scope js_scope.
Delimit Scope js_scope with js.

Notation "x <- c ;; k" := (bind c (fun x => k))
  (at level 61, c at next level, right associativity) : js_scope.
Notation "c ;; k" := (bind c (fun _ => k))
  (at level 61, right associativity) : js_scope.

Local Open Scope js_scope.

Definition emit (e : Effect) : M unit :=
  modify (fun w => set_trace (trace w ++ [e]) w).

Definition set_attr (el : Element) (a : Attr) (v : value) : M unit :=
  modify (fun w =>
    set_attrs (fun el' a' =>
                 if Element_beq el el' && Attr_beq a a' then v
                 else attrs w el' a') w).

Fixpoint forEach {A : Type} (f : A -> nat -> M unit) (index : nat)
  (items : list A) : M unit :=
  match items with
  | [] => ret tt
  | x :: rest => f x index ;; forEach f (S index) rest
  end.

Definition TypeError (message : jsstring) : Exn :=
  {| exn_name := lit "TypeError"; exn_message := message |}.

Definition SyntaxError (message : jsstring) : Exn :=
  {| exn_name := lit "SyntaxError"; exn_message := message |}.

Definition fetches (t : list Effect) : list Request :=
  flat_map (fun e => match e with Fetch r => [r] | _ => [] end) t.

Definition toasts (t : list Effect) : list (value * jsstring) :=
  flat_map (fun e => match e with Toast m ty => [(m, ty)] | _ => [] end) t.

Definition displays (t : list Effect) : list value :=
  flat_map (fun e => match e with Display d => [d] | _ => [] end) t.

Definition clipboard_writes (t : list Effect) : list jsstring :=
  flat_map (fun e => match e with ClipboardWrite s => [s] | _ => [] end) t.


(** *** The script, function by function *)

Section Script.

Variable env : Env.

(** [fetch(url, init)]: the request goes out, the server's answer comes
    back; a network failure rejects with a TypeError. *)
Definition fetch (r : Request) : M Response :=
  earlier <- read (fun w => fetches (trace w)) ;;
  emit (Fetch r) ;;
  match server env earlier r with
  | NetworkFailure message => throw (TypeError message)
  | Responded response => ret response
  end.

(** [response.json()] *)
Definition json (response : Response) : M value :=
  match resp_json response with
  | inl data => ret data
  | inr message => throw (SyntaxError message)
  end.

(** [object.name], for the member names the script reads (none of them is
    a built-in member of a string, a number, a boolean or an array). *)
Definition member (object : value) (name : jsstring) : M value :=
  match object with
  | VUndefined | VNull =>
    throw (TypeError (engine_message env (CannotReadProperty object name)))
  | VObject members =>
    ret (match lookup name members with
         | Some v => v
         | None => VUndefined
         end)
  | _ => ret VUndefined
  end.

(** The receiver of [object.method(...)] for an Array method. *)
Definition array_receiver (object : value) (method : jsstring)
  : M (list value) :=
  match object with
  | VArray items => ret items
  | VUndefined | VNull =>
    throw (TypeError (engine_message env (CannotReadProperty object method)))
  | _ => throw (TypeError (engine_message env (NotAFunction method)))
  end.

(** Assigning to [textContent], a nullable DOMString. *)
Definition DOMString_of (v : value) : jsstring :=
  if is_nullish v then [] else ToString v.

(** [showToast], lines 339-347. *)
Definition showToast (message : value) (type : jsstring) : M unit :=
  emit (Toast message type) ;;
  set_attr toastMessage textContent message ;;
  set_attr toast style_background
    (VString (if jsstring_eqb type (lit "error")
              then lit "var(--error-color)"
              else lit "var(--success-color)")) ;;
  set_attr toast class_show (VBool true) ;;
  modify (fun w => set_timers (timers w ++ [(hide_toast, 3000)]) w).

(** The callback given to [setTimeout] in [showToast]. *)
Definition run_timer (t : TimerCallback) : M unit :=
  match t with
  | hide_toast => set_attr toast class_show (VBool false)
  end.

(** [switchTab], lines 71-79. *)
Definition switchTab (tabName : jsstring) : M unit :=
  forEach (fun tab i =>
             set_attr (tabBtn i) class_active
                      (VBool (jsstring_eqb tab tabName)))
          O (tabBtns env) ;;
  forEach (fun id i =>
             set_attr (tabContent i) class_active
                      (VBool (jsstring_eqb id (tabName ++ lit "-tab"))))
          O (tabContents env).

Definition addEventListener (target : Element) (type : jsstring)
  (h : Handler) : M unit :=
  modify (fun w => set_listeners (listeners w ++ [(target, type, h)]) w).

(** [setupEventListeners], lines 43-68. *)
Definition setupEventListeners : M unit :=
  forEach (fun tab i =>
             addEventListener (tabBtn i) (lit "click") (on_tab_click tab))
          O (tabBtns env) ;;
  addEventListener imageUploadBtn (lit "click") on_imageUploadBtn_click ;;
  addEventListener imageInput (lit "change") on_handleImageSelect ;;
  addEventListener removeImageBtn (lit "click") on_removeImage ;;
  addEventListener uploadArea (lit "dragover") on_handleDragOver ;;
  addEventListener uploadArea (lit "dragleave") on_handleDragLeave ;;
  addEventListener uploadArea (lit "drop") on_handleDrop ;;
  addEventListener generateFromImage (lit "click")
                   on_generateCaptionsFromImage ;;
  addEventListener generateFromText (lit "click")
                   on_generateCaptionsFromText ;;
  addEventListener textBrief (lit "input") on_updateCharCount ;;
  addEventListener newGenerationBtn (lit "click") on_resetForm.

(** [checkServerHealth], lines 82-91. *)
Definition checkServerHealth : M unit :=
  try_catch
    (response <- fetch {| req_url := API_BASE_URL ++ lit "/health";
                          req_method := lit "GET";
                          req_headers := [];
                          req_body := NoBody |} ;;
     if negb (resp_ok response) then
       showToast
         (VString (lit "Cannot connect to server. Please ensure the backend is running."))
         (lit "error")
     else ret tt)
    (fun error =>
       showToast
         (VString (lit "Cannot connect to server. Please start the backend on port 5000."))
         (lit "error")).

(** The listener of lines 37-40. *)
Definition DOMContentLoaded : M unit :=
  setupEventListeners ;;
  checkServerHealth.

(** [file.type.startsWith('image/')] *)
Definition is_image (file : File) : bool :=
  startsWith (lit "image/") (file_type file).

(** [displayImagePreview], lines 128-137: the read is started; its [onload]
    runs later. *)
Definition displayImagePreview (file : File) : M unit :=
  modify (fun w => set_readers (readers w ++ [file]) w).

(** [reader.onload], lines 130-135; [result] is [e.target.result]. *)
Definition reader_onload (result : jsstring) : M unit :=
  set_attr previewImg src (VString result) ;;
  set_attr uploadArea style_display (VString (lit "none")) ;;
  set_attr imagePreview style_display (VString (lit "block")) ;;
  set_attr generateFromImage style_display (VString (lit "block")).

(** [handleImageSelect], lines 94-102. *)
Definition handleImageSelect (e : EventObject) : M unit :=
  match hd_error (ev_files e) with
  | Some file =>
    if is_image file then
      modify (set_selectedImage (Some file)) ;;
      displayImagePreview file
    else showToast (VString (lit "Please select a valid image file."))
                   (lit "error")
  | None => showToast (VString (lit "Please select a valid image file."))
                      (lit "error")
  end.

Definition preventDefault : M unit := modify (set_defaultPrevented true).

(** [handleDragOver], lines 104-107. *)
Definition handleDragOver (e : EventObject) : M unit :=
  preventDefault ;;
  set_attr uploadArea class_drag_over (VBool true).

(** [handleDragLeave], lines 109-112. *)
Definition handleDragLeave (e : EventObject) : M unit :=
  preventDefault ;;
  set_attr uploadArea class_drag_over (VBool false).

(** [handleDrop], lines 114-126. *)
Definition handleDrop (e : EventObject) : M unit :=
  preventDefault ;;
  set_attr uploadArea class_drag_over (VBool false) ;;
  match hd_error (ev_files e) with
  | Some file =>
    if is_image file then
      modify (set_selectedImage (Some file)) ;;
      modify (set_imageInput_files (ev_files e)) ;;
      displayImagePreview file
    else showToast (VString (lit "Please select a valid image file."))
                   (lit "error")
  | None => showToast (VString (lit "Please select a valid image file."))
                      (lit "error")
  end.

(** [removeImage], lines 139-146. *)
Definition removeImage : M unit :=
  modify (set_selectedImage None) ;;
  set_attr imageInput input_value (VString []) ;;
  modify (set_imageInput_files []) ;;
  set_attr previewImg src (VString []) ;;
  set_attr uploadArea style_display (VString (lit "block")) ;;
  set_attr imagePreview style_display (VString (lit "none")) ;;
  set_attr generateFromImage style_display (VString (lit "none")).

(** [updateCharCount], lines 149-153. *)
Definition updateCharCount : M unit :=
  count <- read (fun w => strlen (textBrief_value w)) ;;
  set_attr charCount textContent (VNumber (Z.of_nat count)) ;;
  set_attr charCount style_color
    (VString (if (950 <? count)%nat then lit "var(--error-color)"
              else lit "var(--text-secondary)")).

(** [setLoadingState], lines 326-336. *)
Definition setLoadingState (loading : bool) (type : jsstring) : M unit :=
  if jsstring_eqb type (lit "image") then
    set_attr generateFromImage disabled (VBool loading) ;;
    set_attr generateImageText style_display
      (VString (if loading then lit "none" else lit "inline")) ;;
    set_attr imageSpinner style_display
      (VString (if loading then lit "block" else lit "none"))
  else if jsstring_eqb type (lit "text") then
    set_attr generateFromText disabled (VBool loading) ;;
    set_attr generateTextText style_display
      (VString (if loading then lit "none" else lit "inline")) ;;
    set_attr textSpinner style_display
      (VString (if loading then lit "block" else lit "none"))
  else ret tt.

(** [escapeHtml] on a value of a response: the assignment to [textContent]
    converts it first. *)
Definition escapeHtml_of (v : value) : jsstring := escapeHtml (DOMString_of v).

(** [createCaptionCard], lines 249-260. *)
Definition createCaptionCard (caption : value) (index : nat)
  : M CaptionCard :=
  tone <- member caption (lit "tone") ;;
  text <- member caption (lit "caption") ;;
  text' <- member caption (lit "caption") ;;
  ret {| caption_tone := ToString tone;
         caption_text := ToString text;
         caption_copy_argument := escapeHtml_of text' |}.

(** [array.join(separator)] *)
Definition array_join (separator : jsstring) (items : list value)
  : jsstring :=
  join separator
       (List.map (fun x => if is_nullish x then [] else ToString x) items).

(** [createHashtagCard], lines 263-279. *)
Definition createHashtagCard (set : value) (index : nat) : M HashtagCard :=
  hashtags <- member set (lit "hashtags") ;;
  items <- array_receiver hashtags (lit "join") ;;
  let hashtagsText := array_join (lit " ") items in
  category <- member set (lit "category") ;;
  hashtags' <- member set (lit "hashtags") ;;
  tags <- array_receiver hashtags' (lit "map") ;;
  ret {| hashtag_category := ToString category;
         hashtag_tags := List.map ToString tags;
         hashtag_copy_argument := escapeHtml hashtagsText |}.

(** [createPostingTimeContent], lines 282-302. *)
Definition createPostingTimeContent (postingTime : value)
  : M PostingTimeContent :=
  time <- member postingTime (lit "time") ;;
  day <- member postingTime (lit "day") ;;
  reason <- member postingTime (lit "reason") ;;
  ret {| posting_time := ToString time;
         posting_day := ToString day;
         posting_reason := ToString reason |}.

(** [displayResults], lines 222-246. *)
Definition displayResults (data : value) : M unit :=
  emit (Display data) ;;
  content_type <- member data (lit "content_type") ;;
  set_attr contentTypeText textContent content_type ;;
  modify (set_captionsGrid_children []) ;;
  captions <- member data (lit "captions") ;;
  items <- array_receiver captions (lit "forEach") ;;
  forEach (fun caption index =>
             captionCard <- createCaptionCard caption index ;;
             modify (fun w =>
               set_captionsGrid_children
                 (captionsGrid_children w ++ [captionCard]) w))
          O items ;;
  modify (set_hashtagsGrid_children []) ;;
  hashtag_sets <- member data (lit "hashtag_sets") ;;
  sets <- array_receiver hashtag_sets (lit "forEach") ;;
  forEach (fun set index =>
             hashtagCard <- createHashtagCard set index ;;
             modify (fun w =>
               set_hashtagsGrid_children
                 (hashtagsGrid_children w ++ [hashtagCard]) w))
          O sets ;;
  postingTime <- member data (lit "posting_time") ;;
  content <- createPostingTimeContent postingTime ;;
  modify (set_postingTimeCard_innerHTML (Some content)) ;;
  set_attr resultsSection style_display (VString (lit "block")) ;;
  emit (ScrollIntoView resultsSection).

(** [copyToClipboard], lines 305-316.  The check mark of the first message
    is U+2713. *)
Definition copyToClipboard (text : jsstring) (type : jsstring) : M unit :=
  let unescaped := unescapedText (named_references env) text in
  if clipboard_accepts env unescaped then
    emit (ClipboardWrite unescaped) ;;
    showToast (VString (type ++ lit " copied to clipboard! " ++ [10003]))
              (lit "success")
  else
    showToast (VString (lit "Failed to copy. Please try again."))
              (lit "error").

(** The body of the two [try] blocks, lines 173-179 and 207-213. *)
Definition show_response (response : Response) : M unit :=
  data <- json response ;;
  if resp_ok response then displayResults data
  else
    message <- member data (lit "error") ;;
    showToast (js_or message (VString (lit "Failed to generate captions.")))
              (lit "error").

(** The two [catch] blocks, lines 180-181 and 214-215. *)
Definition show_exception (error : Exn) : M unit :=
  showToast (VString (lit "Error: " ++ exn_message error)) (lit "error").

(** [generateCaptionsFromImage], lines 156-185. *)
Definition generateCaptionsFromImage : M unit :=
  selected <- read selectedImage ;;
  match selected with
  | None =>
    showToast (VString (lit "Please select an image first.")) (lit "error")
  | Some image =>
    setLoadingState true (lit "image") ;;
    let formData := [(lit "file", image)] in
    try_finally
      (try_catch
         (response <- fetch {| req_url := API_BASE_URL ++ lit "/generate/image";
                               req_method := lit "POST";
                               req_headers := [];
                               req_body := FormDataBody formData |} ;;
          show_response response)
         show_exception)
      (setLoadingState false (lit "image"))
  end.

(** The [body] member of a [fetch] initialiser: [undefined] is no body. *)
Definition body_of (text : option jsstring) : Body :=
  match text with
  | Some t => StringBody t
  | None => NoBody
  end.

(** [!text || text.length < 10] *)
Definition too_short (text : jsstring) : bool :=
  negb (truthy (VString text)) || (strlen text <? 10)%nat.

(** [generateCaptionsFromText], lines 188-219. *)
Definition generateCaptionsFromText : M unit :=
  text <- read (fun w => trim (textBrief_value w)) ;;
  if too_short text then
    showToast (VString (lit "Please enter at least 10 characters."))
              (lit "error")
  else
    setLoadingState true (lit "text") ;;
    try_finally
      (try_catch
         (response <-
            fetch {| req_url := API_BASE_URL ++ lit "/generate/text";
                     req_method := lit "POST";
                     req_headers :=
                       [(lit "Content-Type", lit "application/json")];
                     req_body :=
                       body_of (JSON_stringify
                                  (VObject [(lit "text_brief", VString text)]))
                  |} ;;
          show_response response)
         show_exception)
      (setLoadingState false (lit "text")).

(** [resetForm], lines 350-356. *)
Definition resetForm : M unit :=
  removeImage ;;
  modify (set_textBrief_value []) ;;
  updateCharCount ;;
  set_attr resultsSection style_display (VString (lit "none")) ;;
  emit ScrollToTop.

(** Running a registered listener. *)
Definition handle (h : Handler) (e : EventObject) : M unit :=
  match h with
  | on_DOMContentLoaded => DOMContentLoaded
  | on_tab_click tab => switchTab tab
  | on_imageUploadBtn_click => emit FileDialog
  | on_handleImageSelect => handleImageSelect e
  | on_removeImage => removeImage
  | on_handleDragOver => handleDragOver e
  | on_handleDragLeave => handleDragLeave e
  | on_handleDrop => handleDrop e
  | on_generateCaptionsFromImage => generateCaptionsFromImage
  | on_generateCaptionsFromText => generateCaptionsFromText
  | on_updateCharCount => updateCharCount
  | on_resetForm => resetForm
  end.

(** What can happen to the page: an event reaches a registered listener,
    the user edits the brief, a file read completes, a timer fires, a copy
    button runs its inline handler. *)
Inductive step : World -> World -> Prop :=
| step_event target type h e w :
    In (target, type, h) (listeners w) ->
    step w (snd (handle h e (set_defaultPrevented false w)))
| step_edit text w :
    step w (set_textBrief_value text w)
| step_read_done before file after result w :
    readers w = before ++ file :: after ->
    step w (snd (reader_onload result (set_readers (before ++ after) w)))
| step_timer before t delay after w :
    timers w = before ++ (t, delay) :: after ->
    step w (snd (run_timer t (set_timers (before ++ after) w)))
| step_copy text type w :
    step w (snd (copyToClipboard text type w)).

Inductive reachable : World -> Prop :=
| reachable_initial : reachable initial
| reachable_step w w' : reachable w -> step w w' -> reachable w'.

(** The property the guards of [handleImageSelect] and [handleDrop] keep. *)
Definition selectedImage_ok (w : World) : Prop :=
  match selectedImage w with
  | None => True
  | Some file => is_image file = true
  end.

End Script.

End Client.


(** ** The backend contract

    The backend (adapter, parser, request handlers) is not among the
    sources of this repository; only its client is.  The definitions of
    this module are written from the specification.  Strings are counted in
    code units, as in the client. *)

Module Backend.

(** Modelled from the spec: a caption of section 3 (declaration
    missing). *)
Record Caption : Type := {
  tone : jsstring;
  caption : jsstring
}.

(** Modelled from the spec: a hashtag set of section 3 (declaration
    missing). *)
Record HashtagSet : Type := {
  category : jsstring;
  hashtags : list jsstring
}.

(** Modelled from the spec: a posting time of section 3 (declaration
    missing). *)
Record PostingTime : Type := {
  time : jsstring;
  day : jsstring;
  reason : jsstring
}.

(** Modelled from the spec: the result of section 3 (declaration
    missing). *)
Record GenerationResult : Type := {
  contentType : jsstring;
  captions : list Caption;
  hashtagSets : list HashtagSet;
  postingTime : PostingTime
}.

(** Modelled from the spec: the two request variants of section 3
    (declaration missing). *)
Inductive GenerationRequest : Type :=
| ImageRequest (image : list N) (mimeType : jsstring)
| TextRequest (textBrief : jsstring).

(** Modelled from the spec: the error taxonomy of section 7 (declaration
    missing). *)
Inductive Error : Type :=
| ValidationError
| UpstreamError
| MalformedResponseError.

(** Modelled from the spec: the status each kind of error is answered
    with (section 7; the handlers' mapping is missing). *)
Definition status_of (e : Error) : N :=
  match e with
  | ValidationError => 400
  | UpstreamError => 502
  | MalformedResponseError => 500
  end.

(** Modelled from the spec: what a decoding attempt recovers from the raw
    text before validation; any caption, hashtag set or posting-time field
    may be missing. *)
Record Decoded : Type := {
  decoded_contentType : jsstring;
  decoded_captions : list Caption;
  decoded_hashtagSets : list HashtagSet;
  decoded_time : option jsstring;
  decoded_day : option jsstring;
  decoded_reason : option jsstring
}.

(** Modelled from the spec: the warning-level diagnostics the parser
    surfaces when it recovers. *)
Inductive Warning : Type :=
| CaptionsPadded (missing : nat)
| HashtagSetsPadded (missing : nat)
| PostingTimeDefaulted.

(** Modelled from the spec: what [parse] yields (section 4.2; the parser
    is missing). *)
Inductive ParseOutcome : Type :=
| Parsed (result : GenerationResult) (warnings : list Warning)
| Malformed.

(** Modelled from the spec: the invariant of section 3 on a result. *)
Definition well_formed (r : GenerationResult) : Prop :=
  List.length (captions r) = 3%nat /\
  List.length (hashtagSets r) = 3%nat /\
  Forall (fun s => hashtags s <> []) (hashtagSets r).

(** Modelled from the spec: a hashtag set is non-empty (section 3). *)
Definition has_hashtags (s : HashtagSet) : bool :=
  match hashtags s with
  | [] => false
  | _ :: _ => true
  end.

(** Modelled from the spec: padding of section 4.2, to exactly three
    entries: the first three, then placeholders. *)
Definition pad3 {A : Type} (placeholder : A) (entries : list A) : list A :=
  firstn 3 (entries ++ repeat placeholder 3).

(** Modelled from the spec: substitution of a default for an absent
    posting-time field (section 4.2). *)
Definition or_default (field : option jsstring) (default : jsstring)
  : jsstring :=
  match field with
  | Some s => s
  | None => default
  end.

Section Contract.

(** What the specification leaves open: the external service behind the
    adapter ([inr] is an upstream failure), the prompt template, the two
    decoding attempts of the parser, the wording of the placeholders and of
    the default reason, and the size ceiling of an upload. *)
Variable generate : GenerationRequest -> jsstring -> jsstring + jsstring.
Variable prompt_for : GenerationRequest -> jsstring.
Variable structured_decode : jsstring -> option Decoded.
Variable delimiter_split : jsstring -> option Decoded.
Variable placeholder_caption : Caption.
Variable placeholder_hashtag_set : HashtagSet.
Variable default_reason : jsstring.
Variable size_ceiling : nat.

(** Modelled from the spec: the validation and defaulting step of the
    parser (section 4.2).  Hashtag sets without a hashtag are not kept. *)
Definition fill (d : Decoded) : GenerationResult * list Warning :=
  let sets := filter has_hashtags (decoded_hashtagSets d) in
  ({| contentType := decoded_contentType d;
      captions := pad3 placeholder_caption (decoded_captions d);
      hashtagSets := pad3 placeholder_hashtag_set sets;
      postingTime :=
        {| time := or_default (decoded_time d) (lit "Anytime");
           day := or_default (decoded_day d) (lit "Any day");
           reason := or_default (decoded_reason d) default_reason |} |},
   (if (List.length (decoded_captions d) <? 3)%nat
    then [CaptionsPadded (3 - List.length (decoded_captions d))] else []) ++
   (if (List.length sets <? 3)%nat
    then [HashtagSetsPadded (3 - List.length sets)] else []) ++
   (match decoded_time d, decoded_day d, decoded_reason d with
    | Some _, Some _, Some _ => []
    | _, _, _ => [PostingTimeDefaulted]
    end)).

(** Modelled from the spec: the best-effort recovery of section 4.2,
    structured decoding first, delimiter-based splitting as the fallback. *)
Definition recover (rawText : jsstring) : option Decoded :=
  match structured_decode rawText with
  | Some d => Some d
  | None => delimiter_split rawText
  end.

(** Modelled from the spec: [parse] of section 4.2. *)
Definition parse (rawText : jsstring) : ParseOutcome :=
  match recover rawText with
  | Some d => let (r, ws) := fill d in Parsed r ws
  | None => Malformed
  end.

(** Modelled from the spec: a call of the adapter (section 4.1), the
    request and the prompt it was given. *)
Definition Call : Type := (GenerationRequest * jsstring)%type.

(** Modelled from the spec: the flow shared by both handlers (section 4.3),
    one call of the adapter, then the parser. *)
Definition respond (request : GenerationRequest)
  : (GenerationResult + Error) * list Call :=
  let prompt := prompt_for request in
  match generate request prompt with
  | inr _ => (inr UpstreamError, [(request, prompt)])
  | inl rawText =>
    match parse rawText with
    | Parsed r _ => (inl r, [(request, prompt)])
    | Malformed => (inr MalformedResponseError, [(request, prompt)])
    end
  end.

(** Modelled from the spec: [handleTextRequest] of section 4.3. *)
Definition handleTextRequest (textBrief : jsstring)
  : (GenerationResult + Error) * list Call :=
  if (10 <=? strlen textBrief)%nat then respond (TextRequest textBrief)
  else (inr ValidationError, []).

(** Modelled from the spec: [handleImageRequest] of section 4.3. *)
Definition handleImageRequest (fileBytes : list N) (mimeType : jsstring)
  : (GenerationResult + Error) * list Call :=
  if negb (List.length fileBytes =? 0)%nat
     && (List.length fileBytes <=? size_ceiling)%nat
     && startsWith (lit "image/") mimeType
  then respond (ImageRequest fileBytes mimeType)
  else (inr ValidationError, []).

End Contract.

(** Modelled from the spec: the JSON form of a caption.  The member names
    of this and the following forms are the ones the client reads
    ([displayResults] and the card builders of app.js). *)
Definition encode_Caption (c : Caption) : value :=
  VObject [(lit "tone", VString (tone c));
           (lit "caption", VString (caption c))].

(** Modelled from the spec: the JSON form of a hashtag set. *)
Definition encode_HashtagSet (s : HashtagSet) : value :=
  VObject [(lit "category", VString (category s));
           (lit "hashtags", VArray (List.map VString (hashtags s)))].

(** Modelled from the spec: the JSON form of a posting time. *)
Definition encode_PostingTime (p : PostingTime) : value :=
  VObject [(lit "time", VString (time p));
           (lit "day", VString (day p));
           (lit "reason", VString (reason p))].

(** Modelled from the spec: the JSON form of a result (section 6). *)
Definition encode (r : GenerationResult) : value :=
  VObject [(lit "content_type", VString (contentType r));
           (lit "captions", VArray (List.map encode_Caption (captions r)));
           (lit "hashtag_sets",
            VArray (List.map encode_HashtagSet (hashtagSets r)));
           (lit "posting_time", encode_PostingTime (postingTime r))].

(** Modelled from the spec: decoding of a string member. *)
Definition decode_string (v : option value) : option jsstring :=
  match v with
  | Some (VString s) => Some s
  | _ => None
  end.

(** Modelled from the spec: decoding of a sequence; every element must
    decode. *)
Fixpoint decode_all {A B : Type} (f : A -> option B) (l : list A)
  : option (list B) :=
  match l with
  | [] => Some []
  | x :: rest =>
    match f x, decode_all f rest with
    | Some y, Some ys => Some (y :: ys)
    | _, _ => None
    end
  end.

(** Modelled from the spec: decoding of an array member. *)
Definition decode_array {B : Type} (f : value -> option B)
  (v : option value) : option (list B) :=
  match v with
  | Some (VArray items) => decode_all f items
  | _ => None
  end.

(** Modelled from the spec: decoding of a caption. *)
Definition decode_Caption (v : value) : option Caption :=
  match v with
  | VObject ms =>
    match decode_string (lookup (lit "tone") ms),
          decode_string (lookup (lit "caption") ms) with
    | Some t, Some c => Some {| tone := t; caption := c |}
    | _, _ => None
    end
  | _ => None
  end.

(** Modelled from the spec: decoding of a hashtag set. *)
Definition decode_HashtagSet (v : value) : option HashtagSet :=
  match v with
  | VObject ms =>
    match decode_string (lookup (lit "category") ms),
          decode_array (fun x => decode_string (Some x))
                       (lookup (lit "hashtags") ms) with
    | Some c, Some hs => Some {| category := c; hashtags := hs |}
    | _, _ => None
    end
  | _ => None
  end.

(** Modelled from the spec: decoding of a posting time. *)
Definition decode_PostingTime (v : option value) : option PostingTime :=
  match v with
  | Some (VObject ms) =>
    match decode_string (lookup (lit "time") ms),
          decode_string (lookup (lit "day") ms),
          decode_string (lookup (lit "reason") ms) with
    | Some t, Some d, Some r => Some {| time := t; day := d; reason := r |}
    | _, _, _ => None
    end
  | _ => None
  end.

(** Modelled from the spec: decoding of a result (the round trip of
    section 8). *)
Definition decode (v : value) : option GenerationResult :=
  match v with
  | VObject ms =>
    match decode_string (lookup (lit "content_type") ms),
          decode_array decode_Caption (lookup (lit "captions") ms),
          decode_array decode_HashtagSet (lookup (lit "hashtag_sets") ms),
          decode_PostingTime (lookup (lit "posting_time") ms) with
    | Some ct, Some cs, Some hs, Some pt =>
      Some {| contentType := ct; captions := cs; hashtagSets := hs;
              postingTime := pt |}
    | _, _, _, _ => None
    end
  | _ => None
  end.

(** Modelled from the spec: a result on the wire, as JSON text (section 6
    and the round trip of section 8). *)
Definition encode_text (r : GenerationResult) : option jsstring :=
  JSON_stringify (encode r).

(** Modelled from the spec: reading a result from its JSON text. *)
Definition decode_text (text : jsstring) : option GenerationResult :=
  match JSON_parse text with
  | Some v => decode v
  | None => None
  end.

(** Modelled from the spec: the body of an error response (section 6). *)
Definition encode_error (message : jsstring) : value :=
  VObject [(lit "error", VString message)].

End Backend.


(** ** Vocabulary of the statements *)

Import Client.
Local Open Scope js_scope.

(** [keeps R c]: running [c] relates the state before to the state after. *)
Definition keeps {A : Type} (R : World -> World -> Prop) (c : M A) : Prop :=
  forall w, R w (snd (c w)).

(** A relation that survives everything but the listed effects and the
    assignments to [selectedImage] and to the two inputs. *)
Class Frame (R : World -> World -> Prop) (allowed : Effect -> Prop) : Prop := {
  frame_refl : forall w, R w w;
  frame_trans : forall a b c, R a b -> R b c -> R a c;
  frame_attrs : forall f w, R w (set_attrs f w);
  frame_captions : forall l w, R w (set_captionsGrid_children l w);
  frame_hashtags : forall l w, R w (set_hashtagsGrid_children l w);
  frame_posting : forall c w, R w (set_postingTimeCard_innerHTML c w);
  frame_listeners : forall l w, R w (set_listeners l w);
  frame_timers : forall l w, R w (set_timers l w);
  frame_readers : forall l w, R w (set_readers l w);
  frame_prevented : forall b w, R w (set_defaultPrevented b w);
  frame_emit : forall e w, allowed e -> R w (set_trace (trace w ++ [e]) w)
}.

(** The requests sent so far stay what they are. *)
Definition same_fetches (a b : World) : Prop :=
  fetches (trace b) = fetches (trace a).

Definition not_a_fetch (e : Effect) : Prop :=
  match e with
  | Fetch _ => False
  | _ => True
  end.

(** Nothing is done to the outside. *)
Definition same_trace (a b : World) : Prop := trace b = trace a.

(** [selectedImage] is not assigned. *)
Definition same_selectedImage (a b : World) : Prop :=
  selectedImage b = selectedImage a.

(** The three requests of the script. *)
Definition health_request : Request :=
  {| req_url := API_BASE_URL ++ lit "/health";
     req_method := lit "GET";
     req_headers := [];
     req_body := NoBody |}.

Definition image_request (image : File) : Request :=
  {| req_url := API_BASE_URL ++ lit "/generate/image";
     req_method := lit "POST";
     req_headers := [];
     req_body := FormDataBody [(lit "file", image)] |}.

Definition text_request (text : jsstring) : Request :=
  {| req_url := API_BASE_URL ++ lit "/generate/text";
     req_method := lit "POST";
     req_headers := [(lit "Content-Type", lit "application/json")];
     req_body :=
       StringBody (lit "{" ++ QuoteJSONString (lit "text_brief") ++ lit ":"
                   ++ QuoteJSONString text ++ lit "}") |}.

(** A server that is never reached, and one that answers every request with
    the given response. *)
Definition unreachable_env : Env :=
  {| server := fun _ _ => NetworkFailure (lit "Failed to fetch");
     engine_message := fun _ => lit "Cannot read properties";
     named_references := Html.named_character_references;
     clipboard_accepts := fun _ => true;
     tabBtns := [lit "image"; lit "text"];
     tabContents := [lit "image-tab"; lit "text-tab"] |}.

Definition answering_env (response : Response) : Env :=
  {| server := fun _ _ => Responded response;
     engine_message := fun _ => lit "Cannot read properties";
     named_references := Html.named_character_references;
     clipboard_accepts := fun _ => true;
     tabBtns := [lit "image"; lit "text"];
     tabContents := [lit "image-tab"; lit "text-tab"] |}.

Definition sample_brief : jsstring := lit "  New eco bottle!  ".

Definition sample_image : File :=
  {| file_name := lit "bottle.png";
     file_type := lit "image/png";
     file_bytes := [137; 80; 78; 71] |}.

Definition sample_document : File :=
  {| file_name := lit "notes.pdf";
     file_type := lit "application/pdf";
     file_bytes := [37; 80; 68; 70] |}.

(** The message C6 names for a response that is not ok: its [error] string,
    or the fixed fallback when there is none. *)
Definition claimed_message (r : Response) : value :=
  match resp_json r with
  | inl (VObject members) =>
    match lookup (lit "error") members with
    | Some (VString e) => VString e
    | _ => VString (lit "Failed to generate captions.")
    end
  | _ => VString (lit "Failed to generate captions.")
  end.

(** A gateway's answer whose body is an HTML page, not JSON. *)
Definition bad_gateway : Response :=
  {| resp_status := 502;
     resp_json := inr (lit "Unexpected token '<'") |}.

(** A backend's answer in the shape of the contract. *)
Definition upstream_failed : Response :=
  {| resp_status := 502;
     resp_json :=
       inl (VObject [(lit "error", VString (lit "AI service unavailable"))])
  |}.

(** What a generate function has done, from [w] to [w'], when the answer
    [r] to its request was not ok: the request and one error toast, to be
    hidden after 3000 ms, and no call of [displayResults].  The message of
    the toast is the [error] member when the body decodes to an object with
    a non-empty one, the fallback when the object has none, and the
    exception's message behind "Error: " when the body does not decode. *)
Definition shows_only_an_error (w w' : World) (request : Request)
  (r : Response) (message : value) : Prop :=
  trace w' = trace w ++ [Fetch request; Toast message (lit "error")] /\
  timers w' = timers w ++ [(hide_toast, 3000)] /\
  displays (trace w') = displays (trace w) /\
  (forall members e,
      resp_json r = inl (VObject members) ->
      lookup (lit "error") members = Some (VString e) -> e <> [] ->
      message = VString e) /\
  (forall members,
      resp_json r = inl (VObject members) ->
      lookup (lit "error") members = None ->
      message = VString (lit "Failed to generate captions.")) /\
  (forall m, resp_json r = inr m -> message = VString (lit "Error: " ++ m)).

(** The health check of the page load did not get an ok answer. *)
Definition health_check_failed (env : Env) (w : World) : bool :=
  match server env (fetches (trace w)) health_request with
  | NetworkFailure _ => true
  | Responded r => negb (resp_ok r)
  end.

(** The two messages of [checkServerHealth]. *)
Definition cannot_connect (message : value) : bool :=
  match message with
  | VString s => startsWith (lit "Cannot connect to server.") s
  | _ => false
  end.

(** The first file of a change or drop event is missing or is no image. *)
Definition no_image (e : EventObject) : Prop :=
  match hd_error (ev_files e) with
  | Some file => is_image file = false
  | None => True
  end.

Definition invalid_image_toast : value * jsstring :=
  (VString (lit "Please select a valid image file."), lit "error").

(** The page after its load, and after an image has then been picked. *)
Definition loaded_page (env : Env) : World :=
  snd (handle env on_DOMContentLoaded {| ev_files := [] |}
              (set_defaultPrevented false initial)).

Definition page_with_image (env : Env) : World :=
  snd (handle env on_handleImageSelect {| ev_files := [sample_image] |}
              (set_defaultPrevented false (loaded_page env))).

(** Sample collaborators of the backend: an adapter that answers every
    request with the same text, a decoder that recovers one caption and one
    hashtag set from it, and placeholders. *)
Definition sample_generate (request : Backend.GenerationRequest)
  (prompt : jsstring) : jsstring + jsstring :=
  inl (lit "caption: Sip green.").

Definition sample_prompt_for (request : Backend.GenerationRequest)
  : jsstring :=
  lit "Write three captions, three hashtag sets and a posting time.".

Definition sample_decoded : Backend.Decoded :=
  {| Backend.decoded_contentType := lit "product";
     Backend.decoded_captions :=
       [{| Backend.tone := lit "playful";
           Backend.caption := lit "Sip green." |}];
     Backend.decoded_hashtagSets :=
       [{| Backend.category := lit "eco";
           Backend.hashtags := [lit "#eco"; lit "#bottle"] |};
        {| Backend.category := lit "empty"; Backend.hashtags := [] |}];
     Backend.decoded_time := None;
     Backend.decoded_day := Some (lit "Saturday");
     Backend.decoded_reason := None |}.

Definition sample_structured_decode (rawText : jsstring)
  : option Backend.Decoded := None.

Definition sample_delimiter_split (rawText : jsstring)
  : option Backend.Decoded := Some sample_decoded.

Definition sample_placeholder_caption : Backend.Caption :=
  {| Backend.tone := lit "placeholder";
     Backend.caption := lit "[caption unavailable]" |}.

Definition sample_placeholder_hashtag_set : Backend.HashtagSet :=
  {| Backend.category := lit "placeholder";
     Backend.hashtags := [lit "#placeholder"] |}.

Definition sample_default_reason : jsstring :=
  lit "No posting time was suggested.".

Definition sample_handleTextRequest (textBrief : jsstring) :=
  Backend.handleTextRequest sample_generate sample_prompt_for
    sample_structured_decode sample_delimiter_split
    sample_placeholder_caption sample_placeholder_hashtag_set
    sample_default_reason textBrief.

Definition sample_parse (rawText : jsstring) : Backend.ParseOutcome :=
  Backend.parse sample_structured_decode sample_delimiter_split
    sample_placeholder_caption sample_placeholder_hashtag_set
    sample_default_reason rawText.

(** A result in the shape of the contract, and the answer that carries
    it. *)
Definition sample_result : Backend.GenerationResult :=
  {| Backend.contentType := lit "product";
     Backend.captions :=
       [{| Backend.tone := lit "playful";
           Backend.caption := lit "Sip green & stay cool" |};
        {| Backend.tone := lit "bold";
           Backend.caption := lit "It's <your> bottle" |};
        {| Backend.tone := lit "calm";
           Backend.caption := lit "Refill. Reuse." |}];
     Backend.hashtagSets :=
       [{| Backend.category := lit "eco";
           Backend.hashtags := [lit "#eco"; lit "#green"] |};
        {| Backend.category := lit "product";
           Backend.hashtags := [lit "#bottle"] |};
        {| Backend.category := lit "summer";
           Backend.hashtags := [lit "#summer"; lit "#sun"] |}];
     Backend.postingTime :=
       {| Backend.time := lit "6 PM";
          Backend.day := lit "Saturday";
          Backend.reason := lit "Weekend evenings" |} |}.

Definition sample_success : Response :=
  {| resp_status := 200;
     resp_json := inl (Backend.encode sample_result) |}.


(** ** Vocabulary of the further properties *)

(** [object.name] on an object that is neither [null] nor [undefined]. *)
Definition property (object : value) (name : jsstring) : value :=
  match object with
  | VObject members =>
    match lookup name members with
    | Some v => v
    | None => VUndefined
    end
  | _ => VUndefined
  end.

Definition array_items (v : value) : list value :=
  match v with
  | VArray items => items
  | _ => []
  end.

(** The card [createCaptionCard] builds for a caption. *)
Definition caption_card_of (caption : value) : CaptionCard :=
  {| caption_tone := ToString (property caption (lit "tone"));
     caption_text := ToString (property caption (lit "caption"));
     caption_copy_argument :=
       escapeHtml (DOMString_of (property caption (lit "caption"))) |}.

(** The card [createHashtagCard] builds for a set whose [hashtags] is an
    array. *)
Definition hashtag_card_of (set : value) : HashtagCard :=
  {| hashtag_category := ToString (property set (lit "category"));
     hashtag_tags :=
       List.map ToString (array_items (property set (lit "hashtags")));
     hashtag_copy_argument :=
       escapeHtml (array_join (lit " ")
                              (array_items (property set (lit "hashtags")))) |}.

Definition posting_time_content_of (postingTime : value)
  : PostingTimeContent :=
  {| posting_time := ToString (property postingTime (lit "time"));
     posting_day := ToString (property postingTime (lit "day"));
     posting_reason := ToString (property postingTime (lit "reason")) |}.

(** A caption [createCaptionCard] can read, a hashtag set
    [createHashtagCard] can read: the set is an object (or any value but
    [null] and [undefined]) whose [hashtags] is an array. *)
Definition readable_caption (caption : value) : bool :=
  negb (is_nullish caption).

Definition readable_set (set : value) : bool :=
  negb (is_nullish set) &&
  match property set (lit "hashtags") with
  | VArray _ => true
  | _ => false
  end.

(** The data [displayResults] can display to the end. *)
Definition displayable (data : value) : bool :=
  negb (is_nullish data) &&
  match property data (lit "captions") with
  | VArray captions => forallb readable_caption captions
  | _ => false
  end &&
  match property data (lit "hashtag_sets") with
  | VArray sets => forallb readable_set sets
  | _ => false
  end &&
  negb (is_nullish (property data (lit "posting_time"))).

(** The items before the first one that fails [p]. *)
Fixpoint take_while {A : Type} (p : A -> bool) (items : list A) : list A :=
  match items with
  | [] => []
  | x :: rest => if p x then x :: take_while p rest else []
  end.

(** The state [displayResults] leaves when it has displayed [data] to the
    end. *)
Definition shows_result (w w' : World) (data : value) : Prop :=
  attrs w' contentTypeText textContent = property data (lit "content_type") /\
  captionsGrid_children w' =
    List.map caption_card_of (array_items (property data (lit "captions"))) /\
  hashtagsGrid_children w' =
    List.map hashtag_card_of
             (array_items (property data (lit "hashtag_sets"))) /\
  postingTimeCard_innerHTML w' =
    Some (posting_time_content_of (property data (lit "posting_time"))) /\
  attrs w' resultsSection style_display = VString (lit "block") /\
  trace w' = trace w ++ [Display data; ScrollIntoView resultsSection].

(** What [displayResults] has done when it stops at an exception: the call
    is on record, the posting-time card and the visibility of the results
    section are as before. *)
Definition stopped (w w' : World) (data : value) : Prop :=
  trace w' = trace w ++ [Display data] /\
  postingTimeCard_innerHTML w' = postingTimeCard_innerHTML w /\
  attrs w' resultsSection style_display =
    attrs w resultsSection style_display.

(** What a generate function has done, from [w] to [w'], when the answer
    to its request was displayed: the request, one call of
    [displayResults], the scroll to the results and no toast; the grids hold
    the cards of the answer and the posting-time card its [posting_time]. *)
Definition displayed (w w' : World) (request : Request) (data : value)
  : Prop :=
  trace w' = trace w ++ [Fetch request; Display data;
                         ScrollIntoView resultsSection] /\
  captionsGrid_children w' =
    List.map caption_card_of (array_items (property data (lit "captions"))) /\
  hashtagsGrid_children w' =
    List.map hashtag_card_of
             (array_items (property data (lit "hashtag_sets"))) /\
  postingTimeCard_innerHTML w' =
    Some (posting_time_content_of (property data (lit "posting_time"))).

(** What a generate function has done when [displayResults] threw on the
    answer: the request, the call, and one error toast with the message of
    the exception behind "Error: ". *)
Definition display_failed (w w' : World) (request : Request) (data : value)
  : Prop :=
  exists message,
    trace w' = trace w ++ [Fetch request; Display data;
                           Toast (VString (lit "Error: " ++ message))
                                 (lit "error")].

Definition ok_response (data : value) : Response :=
  {| resp_status := 200; resp_json := inl data |}.

(** A response body in the shape the page displays, and one whose second
    caption is [null]. *)
Definition sample_data : value :=
  VObject
    [(lit "content_type", VString (lit "product"));
     (lit "captions",
      VArray [VObject [(lit "tone", VString (lit "playful"));
                       (lit "caption", VString (lit "It's <cool>"))];
              VObject [(lit "tone", VString (lit "calm"));
                       (lit "caption", VString (lit "Refill. Reuse."))]]);
     (lit "hashtag_sets",
      VArray [VObject [(lit "category", VString (lit "eco"));
                       (lit "hashtags",
                        VArray [VString (lit "#eco");
                                VString (lit "#green")])]]);
     (lit "posting_time",
      VObject [(lit "time", VString (lit "6 PM"));
               (lit "day", VString (lit "Saturday"));
               (lit "reason", VString (lit "Weekend evenings"))])].

Definition sample_half_data : value :=
  VObject
    [(lit "content_type", VString (lit "product"));
     (lit "captions",
      VArray [VObject [(lit "tone", VString (lit "playful"));
                       (lit "caption", VString (lit "Sip green."))];
              VNull;
              VObject [(lit "tone", VString (lit "calm"));
                       (lit "caption", VString (lit "Refill. Reuse."))]])].

(** The click listeners of the tab buttons, from index [i] on. *)
Fixpoint tab_listeners (i : nat) (tabs : list jsstring) : list Listener :=
  match tabs with
  | [] => []
  | tab :: rest =>
    (tabBtn i, lit "click", on_tab_click tab) :: tab_listeners (S i) rest
  end.

(** The listeners [setupEventListeners] registers after those of the tab
    buttons, in the order of lines 50-67. *)
Definition fixed_listeners : list Listener :=
  [ (imageUploadBtn, lit "click", on_imageUploadBtn_click);
    (imageInput, lit "change", on_handleImageSelect);
    (removeImageBtn, lit "click", on_removeImage);
    (uploadArea, lit "dragover", on_handleDragOver);
    (uploadArea, lit "dragleave", on_handleDragLeave);
    (uploadArea, lit "drop", on_handleDrop);
    (generateFromImage, lit "click", on_generateCaptionsFromImage);
    (generateFromText, lit "click", on_generateCaptionsFromText);
    (textBrief, lit "input", on_updateCharCount);
    (newGenerationBtn, lit "click", on_resetForm) ].

(** The requests the script is written to send: the health check, an
    upload of an image file, a brief of at least 10 code units. *)
Definition expected_request (r : Request) : Prop :=
  r = health_request \/
  (exists image, is_image image = true /\ r = image_request image) \/
  (exists text, (10 <= strlen text)%nat /\ r = text_request text).

(** The code units [escapeHtml] rewrites. *)
Definition escaped_unit (c : code_unit) : bool :=
  (c =? Html.AMP) || (c =? Html.NBSP) || (c =? Html.LT) || (c =? Html.GT)
  || (c =? Html.APOS).

(** The loading state of a generate button is off: the button is enabled,
    its label shown, its spinner hidden. *)
Definition not_loading (w : World) (button label spinner : Element) : Prop :=
  attrs w button disabled = VBool false /\
  attrs w label style_display = VString (lit "inline") /\
  attrs w spinner style_display = VString (lit "none").

(** The page after the selected image has been sent. *)
Definition page_after_upload (env : Env) : World :=
  snd (handle env on_generateCaptionsFromImage {| ev_files := [] |}
              (set_defaultPrevented false (page_with_image env))).

(** The two messages of the generate functions' guards. *)
Definition select_an_image_first : Effect :=
  Toast (VString (lit "Please select an image first.")) (lit "error").

Definition enter_ten_characters : Effect :=
  Toast (VString (lit "Please enter at least 10 characters.")) (lit "error").

(** * Properties *)

(** ** Escaping and unescaping *)

Example escapeHtml_sample :
  escapeHtml (lit "R&D <it's>") = lit "R&amp;D &lt;it&#39;s&gt;".
Proof. reflexivity. Qed.

Example unescapedText_sample :
  unescapedText Html.named_character_references
    (lit "R&amp;D &lt;it&#39;s&gt; &#x41;&copy &ltimes; &x") =
  lit "R&D <it's> A" ++ [169; 32; 8905; 32] ++ lit "&x".
Proof. reflexivity. Qed.

Lemma replace_apostrophes_app (a b : jsstring) :
  replace_apostrophes (a ++ b) = replace_apostrophes a ++ replace_apostrophes b.
Proof. unfold replace_apostrophes. apply flat_map_app. Qed.

Lemma escapeHtml_cons (c : code_unit) (s : jsstring) :
  escapeHtml (c :: s) =
  replace_apostrophes (Html.escape_unit c) ++ escapeHtml s.
Proof.
  unfold escapeHtml, Html.div_markup_of_text, Html.serialize_text.
  simpl flat_map at 2. apply replace_apostrophes_app.
Qed.

(** What [escapeHtml] writes for one code unit. *)
Lemma escape_unit_cases (c : code_unit) :
  (c = Html.AMP /\ replace_apostrophes (Html.escape_unit c) = lit "&amp;") \/
  (c = Html.NBSP /\ replace_apostrophes (Html.escape_unit c) = lit "&nbsp;") \/
  (c = Html.LT /\ replace_apostrophes (Html.escape_unit c) = lit "&lt;") \/
  (c = Html.GT /\ replace_apostrophes (Html.escape_unit c) = lit "&gt;") \/
  (c = Html.APOS /\ replace_apostrophes (Html.escape_unit c) = lit "&#39;") \/
  (c <> Html.AMP /\ replace_apostrophes (Html.escape_unit c) = [c]).
Proof.
  unfold Html.escape_unit.
  destruct (N.eqb_spec c Html.AMP) as [->|Hamp]; [left; split; reflexivity|].
  destruct (N.eqb_spec c Html.NBSP) as [->|Hnb];
    [right; left; split; reflexivity|].
  destruct (N.eqb_spec c Html.LT) as [->|Hlt];
    [right; right; left; split; reflexivity|].
  destruct (N.eqb_spec c Html.GT) as [->|Hgt];
    [right; right; right; left; split; reflexivity|].
  destruct (N.eqb_spec c Html.APOS) as [->|Hap];
    [right; right; right; right; left; split; reflexivity|].
  right; right; right; right; right. split; [assumption|].
  simpl. destruct (N.eqb_spec c Html.APOS); [contradiction|reflexivity].
Qed.

Lemma jsstring_eqb_eq (a b : jsstring) : jsstring_eqb a b = true <-> a = b.
Proof.
  revert b. induction a as [|c a IH]; intros [|d b]; simpl;
    try (split; [discriminate|discriminate]); [tauto|].
  rewrite andb_true_iff, N.eqb_eq, IH. split.
  - intros [-> ->]. reflexivity.
  - intros E. injection E as -> ->. split; reflexivity.
Qed.

Lemma startsWith_app (a t : jsstring) : startsWith a (a ++ t) = true.
Proof.
  induction a as [|c a IH]; [reflexivity|].
  simpl. rewrite N.eqb_refl. exact IH.
Qed.

Lemma startsWith_app_inv (a n t : jsstring) :
  startsWith n (a ++ t) = true -> (List.length a <= List.length n)%nat ->
  exists n', n = a ++ n'.
Proof.
  revert n. induction a as [|c a IH]; intros n Hs Hlen.
  - exists n. reflexivity.
  - destruct n as [|d n]; [simpl in Hlen; lia|].
    simpl in Hs. apply andb_true_iff in Hs. destruct Hs as [Hd Hs].
    apply N.eqb_eq in Hd. subst d.
    destruct (IH n Hs) as [n' ->]; [simpl in Hlen; lia|].
    exists n'. reflexivity.
Qed.

(** What [longest_match] returns: an entry that matches, as long as any
    entry that matches. *)
Lemma longest_match_spec (table : Html.reference_table) (s : jsstring) :
  match Html.longest_match table s with
  | Some (n, r) =>
    In (n, r) table /\ startsWith n s = true /\
    forall n' r', In (n', r') table -> startsWith n' s = true ->
                  (List.length n' <= List.length n)%nat
  | None => forall n' r', In (n', r') table -> startsWith n' s = false
  end.
Proof.
  induction table as [|[name repl] table IH]; simpl.
  - intros n' r' [].
  - destruct (Html.longest_match table s) as [[n r]|].
    + destruct IH as (Hin & Hs & Hmax).
      destruct (startsWith name s) eqn:E.
      * destruct (Nat.ltb_spec (List.length name) (List.length n)).
        -- split; [right; exact Hin|]. split; [exact Hs|].
           intros n' r' [H'|H'] Hs'.
           ++ injection H' as <- <-. lia.
           ++ eapply Hmax; eassumption.
        -- split; [left; reflexivity|]. split; [exact E|].
           intros n' r' [H'|H'] Hs'.
           ++ injection H' as <- <-. lia.
           ++ specialize (Hmax n' r' H' Hs'). lia.
      * split; [right; exact Hin|]. split; [exact Hs|].
        intros n' r' [H'|H'] Hs'.
        -- injection H' as <- <-. congruence.
        -- eapply Hmax; eassumption.
    + destruct (startsWith name s) eqn:E.
      * split; [left; reflexivity|]. split; [exact E|].
        intros n' r' [H'|H'] Hs'.
        -- injection H' as <- <-. lia.
        -- rewrite (IH n' r' H') in Hs'. discriminate Hs'.
      * intros n' r' [H'|H'].
        -- injection H' as <- <-. exact E.
        -- eapply IH; eassumption.
Qed.

Lemma semicolon_ends_name_app (a n' : jsstring) :
  Html.semicolon_ends_name (a ++ n') = true -> In 59 a -> n' = [].
Proof.
  intros H Hin. destruct n' as [|x n']; [reflexivity|].
  unfold Html.semicolon_ends_name in H.
  rewrite removelast_app in H by discriminate.
  rewrite existsb_app in H.
  apply negb_true_iff, orb_false_iff in H. destruct H as [H _].
  apply not_true_iff_false in H. exfalso. apply H.
  apply existsb_exists. exists 59. split; [exact Hin|apply N.eqb_refl].
Qed.

(** A reference written with its semicolon is matched as it was written,
    whatever follows it. *)
Lemma longest_match_written (table : Html.reference_table)
  (name repl tail : jsstring) :
  forallb (fun e => Html.semicolon_ends_name (fst e)) table = true ->
  Html.stands_for table name repl = true ->
  In 59 name ->
  Html.longest_match table (name ++ tail) = Some (name, repl).
Proof.
  intros Hsemi Hstands Hin.
  unfold Html.stands_for in Hstands.
  apply andb_true_iff in Hstands. destruct Hstands as [Hex Hall].
  apply existsb_exists in Hex. destruct Hex as ([n0 r0] & Hin0 & E0).
  simpl in E0. apply jsstring_eqb_eq in E0. subst n0.
  pose proof (longest_match_spec table (name ++ tail)) as Hspec.
  destruct (Html.longest_match table (name ++ tail)) as [[n r]|].
  - destruct Hspec as (Hnr & Hs & Hmax).
    specialize (Hmax name r0 Hin0 (startsWith_app name tail)).
    destruct (startsWith_app_inv _ _ _ Hs Hmax) as [n' ->].
    rewrite forallb_forall in Hsemi. specialize (Hsemi _ Hnr). simpl in Hsemi.
    rewrite (semicolon_ends_name_app _ _ Hsemi Hin) in *.
    rewrite app_nil_r in *.
    rewrite forallb_forall in Hall. specialize (Hall _ Hnr). simpl in Hall.
    rewrite (proj2 (jsstring_eqb_eq name name) eq_refl) in Hall.
    apply jsstring_eqb_eq in Hall. subst r. reflexivity.
  - pose proof (Hspec name r0 Hin0) as H1.
    pose proof (startsWith_app name tail) as H2. congruence.
Qed.

Lemma rcdata_skip (table : Html.reference_table) (a t : jsstring) :
  Html.rcdata table (List.length a) (a ++ t) = Html.rcdata table O t.
Proof.
  induction a as [|c a IH]; simpl.
  - destruct t; reflexivity.
  - exact IH.
Qed.

(** The tokenizer on a named reference written with its semicolon. *)
Lemma rcdata_named (table : Html.reference_table) (c : code_unit)
  (name repl tail : jsstring) :
  forallb (fun e => Html.semicolon_ends_name (fst e)) table = true ->
  Html.stands_for table (c :: name) repl = true ->
  In 59 (c :: name) -> c <> Html.HASH ->
  Html.rcdata table O (Html.AMP :: (c :: name) ++ tail) =
  repl ++ Html.rcdata table O tail.
Proof.
  intros Hsemi Hstands Hin Hc.
  pose proof (longest_match_written table (c :: name) repl tail
                Hsemi Hstands Hin) as E.
  pose proof (rcdata_skip table (c :: name) tail) as Hskip.
  cbn [Html.rcdata]. rewrite N.eqb_refl.
  unfold Html.consume_character_reference. cbn [app] in *.
  destruct (N.eqb_spec c Html.HASH); [contradiction|].
  rewrite E, Hskip. reflexivity.
Qed.

(** The RCDATA tokenizer reads back what [escapeHtml] wrote, code unit by
    code unit, as long as the text holds no U+0000. *)
Lemma rcdata_escapeHtml (table : Html.reference_table) (s : jsstring) :
  Html.standard_references table = true ->
  ~ In Html.NUL s -> Html.rcdata table O (escapeHtml s) = s.
Proof.
  intros Htable. unfold Html.standard_references in Htable.
  repeat (apply andb_true_iff in Htable;
          let H := fresh "Hstands" in destruct Htable as [Htable H]).
  induction s as [|c s IH]; intros Hnul; [reflexivity|].
  assert (Hc : c <> Html.NUL) by (intros ->; apply Hnul; left; reflexivity).
  assert (Hs : ~ In Html.NUL s) by (intros H; apply Hnul; right; exact H).
  specialize (IH Hs). rewrite escapeHtml_cons.
  destruct (escape_unit_cases c)
    as [[-> E]|[[-> E]|[[-> E]|[[-> E]|[[-> E]|[Hamp E]]]]]];
    rewrite E.
  - transitivity ([Html.AMP] ++ Html.rcdata table O (escapeHtml s));
      [|rewrite IH; reflexivity].
    apply (@rcdata_named table 97 (lit "mp;") [Html.AMP] (escapeHtml s)
             Htable Hstands2); [vm_compute; tauto|discriminate].
  - transitivity ([Html.NBSP] ++ Html.rcdata table O (escapeHtml s));
      [|rewrite IH; reflexivity].
    apply (@rcdata_named table 110 (lit "bsp;") [Html.NBSP] (escapeHtml s)
             Htable Hstands1); [vm_compute; tauto|discriminate].
  - transitivity ([Html.LT] ++ Html.rcdata table O (escapeHtml s));
      [|rewrite IH; reflexivity].
    apply (@rcdata_named table 108 (lit "t;") [Html.LT] (escapeHtml s)
             Htable Hstands0); [vm_compute; tauto|discriminate].
  - transitivity ([Html.GT] ++ Html.rcdata table O (escapeHtml s));
      [|rewrite IH; reflexivity].
    apply (@rcdata_named table 103 (lit "t;") [Html.GT] (escapeHtml s)
             Htable Hstands); [vm_compute; tauto|discriminate].
  - cbn. rewrite IH. reflexivity.
  - simpl.
    destruct (N.eqb_spec c Html.AMP); [contradiction|].
    destruct (N.eqb_spec c Html.NUL); [contradiction|].
    rewrite IH. reflexivity.
Qed.

Lemma normalize_newlines_no_CR (s : jsstring) :
  ~ In Html.CR s -> Html.normalize_newlines s = s.
Proof.
  induction s as [|c s IH]; intros H; [reflexivity|].
  simpl. destruct (N.eqb_spec c Html.CR) as [->|_].
  - exfalso. apply H. left. reflexivity.
  - rewrite IH; [reflexivity|]. intros Hin. apply H. right. exact Hin.
Qed.

Lemma escapeHtml_no_CR (s : jsstring) :
  ~ In Html.CR s -> ~ In Html.CR (escapeHtml s).
Proof.
  induction s as [|c s IH]; intros H; [simpl; tauto|].
  rewrite escapeHtml_cons. intros Hin. apply in_app_or in Hin.
  destruct Hin as [Hin|Hin].
  - destruct (escape_unit_cases c)
      as [[-> E]|[[-> E]|[[-> E]|[[-> E]|[[-> E]|[_ E]]]]]];
      rewrite E in Hin.
    1-5: cbn in Hin; unfold Html.CR in Hin;
         repeat (destruct Hin as [Hin|Hin]; [discriminate Hin|]); exact Hin.
    destruct Hin as [->|[]]. apply H. left. reflexivity.
  - apply IH; [|exact Hin]. intros Hs. apply H. right. exact Hs.
Qed.


(** ** Reading back what [JSON.stringify] wrote *)

Example JSON_parse_sample :
  JSON_parse
    (json_lit "{ 'b': [1, -20, true, null], '1': 'x\nAA\/', 'b': {} } ")
  = Some (VObject [(lit "1", VString (lit "x" ++ [10] ++ lit "AA/"));
                   (lit "b", VObject [])]).
Proof. vm_compute. reflexivity. Qed.

Example JSON_parse_rejects :
  JSON_parse (json_lit "{ 'a': 1, }") = None /\
  JSON_parse (json_lit "[1 2]") = None /\
  JSON_parse (json_lit "'a' 'b'") = None /\
  JSON_parse (json_lit "01") = None /\
  JSON_parse (lit "<html>") = None.
Proof. vm_compute. repeat split. Qed.

Example JSON_stringify_sample :
  JSON_stringify
    (VObject [(lit "a", VArray [VString (lit "x" ++ [10; 34; 55357]);
                                VUndefined; VNumber (-20)]);
              (lit "u", VUndefined);
              (lit "b", VBool true)])
  = Some (json_lit "{'a':['x\n\" ++ [34] ++ lit "\ud83d" ++ json_lit "',null,-20],'b':true}").
Proof. vm_compute. reflexivity. Qed.

Lemma hex_value_hex_digit (n : N) :
  n < 16 -> Html.hex_value (hex_digit n) = Some n.
Proof.
  intros H. destruct n as [|p]; [reflexivity|].
  do 4 (try (destruct p as [p|p|]; try reflexivity)); lia.
Qed.

Lemma hex4_unicode_escape (c : code_unit) :
  c < 65536 ->
  hex4 (hex_digit (c / 4096)) (hex_digit ((c / 256) mod 16))
       (hex_digit ((c / 16) mod 16)) (hex_digit (c mod 16)) = Some c.
Proof.
  intros H. unfold hex4.
  rewrite !hex_value_hex_digit;
    try (apply N.mod_lt; discriminate);
    try (apply N.Div0.div_lt_upper_bound; exact H).
  f_equal.
  pose proof (N.div_mod c 16 ltac:(discriminate)) as E0.
  pose proof (N.div_mod (c / 16) 16 ltac:(discriminate)) as E1.
  pose proof (N.div_mod (c / 16 / 16) 16 ltac:(discriminate)) as E2.
  rewrite !N.Div0.div_div in E1, E2.
  change (16 * 16) with 256 in *.
  rewrite N.Div0.div_div in E2. change (256 * 16) with 4096 in E2.
  lia.
Qed.

(** Boolean comparisons of the hypotheses, as propositions. *)
Ltac N_bool :=
  repeat match goal with
         | H : (_ && _) = true |- _ => apply andb_true_iff in H; destruct H
         | H : (_ && _) = false |- _ => apply andb_false_iff in H; destruct H
         | H : (_ <=? _) = true |- _ => apply N.leb_le in H
         | H : (_ <=? _) = false |- _ => apply N.leb_gt in H
         | H : (_ <? _) = true |- _ => apply N.ltb_lt in H
         | H : (_ <? _) = false |- _ => apply N.ltb_ge in H
         | H : (_ =? _) = true |- _ => apply N.eqb_eq in H
         | H : (_ =? _) = false |- _ => apply N.eqb_neq in H
         end.

Lemma parse_string_literal (c : code_unit) (t : jsstring) :
  32 <= c -> c <> 34 -> c <> 92 ->
  parse_string (c :: t) = prepend c (parse_string t).
Proof.
  intros H32 H34 H92. simpl.
  destruct (N.eqb_spec c 34); [contradiction|].
  destruct (N.eqb_spec c 92); [contradiction|].
  destruct (N.ltb_spec c 32); [lia|reflexivity].
Qed.

Lemma parse_string_unicode_escape (c : code_unit) (t : jsstring) :
  c < 65536 ->
  parse_string (unicode_escape c ++ t) = prepend c (parse_string t).
Proof.
  intros H. unfold unicode_escape. simpl.
  rewrite (hex4_unicode_escape H). reflexivity.
Qed.

Lemma parse_string_quote_unit (c : code_unit) (t : jsstring) :
  is_high_surrogate c = false -> is_low_surrogate c = false ->
  parse_string (quote_unit c ++ t) = prepend c (parse_string t).
Proof.
  intros Hh Hl. unfold quote_unit.
  destruct (N.eqb_spec c 8) as [->|]; [reflexivity|].
  destruct (N.eqb_spec c 9) as [->|]; [reflexivity|].
  destruct (N.eqb_spec c 10) as [->|]; [reflexivity|].
  destruct (N.eqb_spec c 12) as [->|]; [reflexivity|].
  destruct (N.eqb_spec c 13) as [->|]; [reflexivity|].
  destruct (N.eqb_spec c 34) as [->|]; [reflexivity|].
  destruct (N.eqb_spec c 92) as [->|]; [reflexivity|].
  destruct (N.ltb_spec c 32).
  - apply parse_string_unicode_escape. lia.
  - apply parse_string_literal; assumption.
Qed.

Lemma quote_units_cons (c : code_unit) (rest : jsstring) :
  quote_units (c :: rest) =
  if is_high_surrogate c then
    match rest with
    | d :: rest' =>
      if is_low_surrogate d then c :: d :: quote_units rest'
      else unicode_escape c ++ quote_units rest
    | [] => unicode_escape c
    end
  else if is_low_surrogate c then unicode_escape c ++ quote_units rest
  else quote_unit c ++ quote_units rest.
Proof. reflexivity. Qed.

Lemma parse_string_quote_units_bounded (n : nat) :
  forall s rest,
    (List.length s <= n)%nat ->
    parse_string (quote_units s ++ 34 :: rest) = Some (s, rest).
Proof.
  induction n as [|n IH]; intros s rest Hlen.
  - destruct s; [reflexivity|simpl in Hlen; lia].
  - destruct s as [|c s]; [reflexivity|]. simpl in Hlen.
    rewrite quote_units_cons.
    destruct (is_high_surrogate c) eqn:Hh.
    + unfold is_high_surrogate in Hh. N_bool.
      destruct s as [|d s'].
      * rewrite parse_string_unicode_escape by lia. reflexivity.
      * destruct (is_low_surrogate d) eqn:Hl.
        -- unfold is_low_surrogate in Hl. N_bool. simpl in Hlen.
           change ((c :: d :: quote_units s') ++ 34 :: rest)
             with (c :: d :: (quote_units s' ++ 34 :: rest)).
           rewrite parse_string_literal by lia.
           rewrite parse_string_literal by lia.
           rewrite IH by lia. reflexivity.
        -- rewrite <- app_assoc.
           rewrite parse_string_unicode_escape by lia.
           rewrite IH by lia. reflexivity.
    + destruct (is_low_surrogate c) eqn:Hl.
      * rewrite <- app_assoc.
        unfold is_low_surrogate in Hl. N_bool.
        rewrite parse_string_unicode_escape by lia.
        rewrite IH by lia. reflexivity.
      * rewrite <- app_assoc.
        rewrite parse_string_quote_unit by assumption.
        rewrite IH by lia. reflexivity.
Qed.

(** A quoted string reads back as the string. *)
Lemma parse_string_QuoteJSONString (s rest : jsstring) :
  parse_string (quote_units s ++ 34 :: rest) = Some (s, rest).
Proof. apply (parse_string_quote_units_bounded (n:=List.length s)). lia. Qed.

(** Induction on a value, with the property at hand for every item of an
    array and every member of an object. *)
Lemma value_induction (P : value -> Prop) :
  P VUndefined -> P VNull -> (forall b, P (VBool b)) ->
  (forall z, P (VNumber z)) -> (forall s, P (VString s)) ->
  (forall items, Forall P items -> P (VArray items)) ->
  (forall members, Forall (fun kv => P (snd kv)) members ->
                   P (VObject members)) ->
  forall v, P v.
Proof.
  intros Hu Hn Hb Hz Hs Ha Ho. fix IH 1. intros [| |b|z|s|items|members].
  - exact Hu.
  - exact Hn.
  - apply Hb.
  - apply Hz.
  - apply Hs.
  - apply Ha. induction items as [|x items IHitems]; constructor.
    + apply IH.
    + exact IHitems.
  - apply Ho. induction members as [|[k x] members IHmembers]; constructor.
    + apply IH.
    + exact IHmembers.
Qed.

Lemma join_cons2 (sep x y : jsstring) (l : list jsstring) :
  join sep (x :: y :: l) = x ++ sep ++ join sep (y :: l).
Proof. reflexivity. Qed.

Lemma text_of_array (items : list value) :
  text_of (VArray items) =
  91 :: join (lit ",") (List.map text_of items) ++ [93].
Proof. reflexivity. Qed.

Lemma plain_serialized (v : value) :
  plain v -> SerializeJSONProperty v = Some (text_of v).
Proof.
  intros H. unfold text_of. destruct H; try reflexivity.
  destruct b; reflexivity.
Qed.

Lemma members_text (members : list (jsstring * value)) :
  Forall (fun kv => plain (snd kv)) members ->
  flat_map (fun kv => match SerializeJSONProperty (snd kv) with
                      | Some t => [QuoteJSONString (fst kv) ++ lit ":" ++ t]
                      | None => []
                      end) members =
  List.map member_text members.
Proof.
  induction 1 as [|kv members Hkv _ IH]; [reflexivity|].
  cbn [flat_map List.map]. rewrite (plain_serialized Hkv), IH.
  reflexivity.
Qed.

Lemma SerializeJSONProperty_object (members : list (jsstring * value)) :
  SerializeJSONProperty (VObject members) =
  Some (lit "{" ++
        join (lit ",")
             (flat_map (fun kv => match SerializeJSONProperty (snd kv) with
                                  | Some t =>
                                    [QuoteJSONString (fst kv) ++ lit ":" ++ t]
                                  | None => []
                                  end) members) ++
        lit "}").
Proof. reflexivity. Qed.

Lemma text_of_object (members : list (jsstring * value)) :
  Forall (fun kv => plain (snd kv)) members ->
  text_of (VObject members) =
  123 :: join (lit ",") (List.map member_text members) ++ [125].
Proof.
  intros H. unfold text_of. rewrite SerializeJSONProperty_object.
  rewrite (members_text H). reflexivity.
Qed.

(** A written value starts with a code unit that is no whitespace and
    closes nothing. *)
Lemma text_of_head (v : value) :
  plain v ->
  exists c t, text_of v = c :: t /\ is_json_whitespace c = false /\
              c <> 93 /\ c <> 125.
Proof.
  intros H. destruct H.
  - exists 110, (lit "ull"). repeat split; discriminate.
  - destruct b; [exists 116, (lit "rue")|exists 102, (lit "alse")];
      repeat split; discriminate.
  - exists 34, (quote_units s ++ [34]). repeat split; discriminate.
  - rewrite text_of_array. eexists. eexists. split; [reflexivity|].
    repeat split; discriminate.
  - rewrite text_of_object by assumption. eexists. eexists.
    split; [reflexivity|]. repeat split; discriminate.
Qed.

Lemma skip_whitespace_head (c : code_unit) (t : jsstring) :
  is_json_whitespace c = false -> skip_whitespace (c :: t) = c :: t.
Proof. intros H. simpl. rewrite H. reflexivity. Qed.

Lemma parse_elements_succ (fuel : nat) (before : list value) (s : jsstring) :
  parse_elements (S fuel) before s =
  match parse_value fuel s with
  | Some (v, rest) =>
    match skip_whitespace rest with
    | c :: rest' =>
      if c =? 44 then parse_elements fuel (before ++ [v]) rest'
      else if c =? 93 then Some (VArray (before ++ [v]), rest')
      else None
    | [] => None
    end
  | None => None
  end.
Proof. reflexivity. Qed.

Lemma parse_members_succ (fuel : nat) (before : list (jsstring * value))
  (s : jsstring) :
  parse_members (S fuel) before s =
  match skip_whitespace s with
  | q :: s1 =>
    if q =? 34 then
      match parse_string s1 with
      | Some (key, s2) =>
        match skip_whitespace s2 with
        | colon :: s3 =>
          if colon =? 58 then
            match parse_value fuel s3 with
            | Some (v, rest) =>
              match skip_whitespace rest with
              | c :: rest' =>
                if c =? 44 then
                  parse_members fuel (define_member key v before) rest'
                else if c =? 125 then
                  Some (VObject (define_member key v before), rest')
                else None
              | [] => None
              end
            | None => None
            end
          else None
        | [] => None
        end
      | None => None
      end
    else None
  | [] => None
  end.
Proof. reflexivity. Qed.

(** What reading a written value back means, for one value. *)
Definition reads_back (v : value) : Prop :=
  forall fuel rest,
    (weight v <= fuel)%nat ->
    parse_value fuel (text_of v ++ rest) = Some (v, rest).

Lemma parse_elements_text (items : list value) :
  items <> [] -> Forall reads_back items ->
  forall fuel before rest,
    (list_sum (List.map (fun x => S (weight x)) items) <= fuel)%nat ->
    parse_elements fuel before
      (join (lit ",") (List.map text_of items) ++ 93 :: rest) =
    Some (VArray (before ++ items), rest).
Proof.
  induction items as [|x items IH]; [congruence|].
  intros _ Hall fuel before rest Hfuel.
  inversion Hall as [|? ? Hx Hitems]; subst.
  simpl in Hfuel. destruct fuel as [|fuel]; [lia|].
  rewrite parse_elements_succ.
  destruct items as [|y items].
  - simpl join. rewrite (Hx fuel (93 :: rest)) by lia. reflexivity.
  - cbn [List.map]. rewrite join_cons2. rewrite <- !app_assoc.
    rewrite (Hx fuel) by lia.
    change (lit "," ++ ?t) with (44 :: t).
    cbn [skip_whitespace is_json_whitespace N.eqb Pos.eqb orb app].
    change (text_of y :: List.map text_of items)
      with (List.map text_of (y :: items)).
    rewrite (IH ltac:(discriminate) Hitems fuel (before ++ [x]) rest)
      by lia.
    rewrite <- app_assoc. reflexivity.
Qed.

Lemma lookup_fresh (key : jsstring) (members : list (jsstring * value)) :
  ~ In key (List.map fst members) -> lookup key members = None.
Proof.
  induction members as [|[k x] members IH]; intros H; [reflexivity|].
  simpl in *. destruct (jsstring_eqb k key) eqn:E.
  - apply jsstring_eqb_eq in E. tauto.
  - apply IH. tauto.
Qed.

Lemma define_member_fresh (key : jsstring) (v : value)
  (members : list (jsstring * value)) :
  ~ In key (List.map fst members) -> array_index key = None ->
  define_member key v members = members ++ [(key, v)].
Proof.
  intros Hfresh Hindex. unfold define_member.
  rewrite (lookup_fresh _ _ Hfresh), Hindex. reflexivity.
Qed.

Lemma member_text_app (key : jsstring) (v : value) (t : jsstring) :
  member_text (key, v) ++ t =
  34 :: quote_units key ++ 34 :: 58 :: text_of v ++ t.
Proof.
  unfold member_text, QuoteJSONString. simpl.
  rewrite <- !app_assoc. reflexivity.
Qed.

Lemma parse_members_text (members : list (jsstring * value)) :
  members <> [] ->
  Forall (fun kv => reads_back (snd kv)) members ->
  Forall (fun kv => array_index (fst kv) = None) members ->
  forall fuel before rest,
    NoDup (List.map fst before ++ List.map fst members) ->
    (list_sum (List.map (fun kv => S (weight (snd kv))) members) <= fuel)%nat ->
    parse_members fuel before
      (join (lit ",") (List.map member_text members) ++ 125 :: rest) =
    Some (VObject (before ++ members), rest).
Proof.
  induction members as [|[k v] members IH]; [congruence|].
  intros _ Hall Hidx fuel before rest Hdup Hfuel.
  inversion Hall as [|? ? Hv Hmembers]; subst.
  inversion Hidx as [|? ? Hk Hidx']; subst.
  simpl in Hv, Hk, Hfuel. destruct fuel as [|fuel]; [lia|].
  assert (Hfresh : ~ In k (List.map fst before)).
  { simpl in Hdup. apply NoDup_remove_2 in Hdup. intros Hin. apply Hdup.
    apply in_or_app. left. exact Hin. }
  assert (Hdup' : NoDup (List.map fst (before ++ [(k, v)])
                         ++ List.map fst members)).
  { rewrite map_app. simpl. rewrite <- app_assoc. exact Hdup. }
  rewrite parse_members_succ.
  destruct members as [|kv' members].
  - simpl join. rewrite member_text_app.
    cbn [skip_whitespace is_json_whitespace N.eqb Pos.eqb orb].
    rewrite parse_string_QuoteJSONString.
    cbn [skip_whitespace is_json_whitespace N.eqb Pos.eqb orb].
    rewrite (Hv fuel (125 :: rest)) by lia.
    cbn [skip_whitespace is_json_whitespace N.eqb Pos.eqb orb].
    rewrite (@define_member_fresh k v before Hfresh Hk). reflexivity.
  - cbn [List.map]. rewrite join_cons2. rewrite <- !app_assoc.
    rewrite member_text_app.
    cbn [skip_whitespace is_json_whitespace N.eqb Pos.eqb orb].
    rewrite parse_string_QuoteJSONString.
    cbn [skip_whitespace is_json_whitespace N.eqb Pos.eqb orb].
    rewrite (Hv fuel) by lia.
    change (lit "," ++ ?t) with (44 :: t).
    cbn [skip_whitespace is_json_whitespace N.eqb Pos.eqb orb app].
    rewrite (@define_member_fresh k v before Hfresh Hk).
    change (member_text kv' :: List.map member_text members)
      with (List.map member_text (kv' :: members)).
    rewrite (IH ltac:(discriminate) Hmembers Hidx' fuel
                (before ++ [(k, v)]) rest Hdup') by lia.
    rewrite <- app_assoc. reflexivity.
Qed.

Lemma parse_value_string (fuel : nat) (t : jsstring) :
  parse_value (S fuel) (34 :: t) =
  match parse_string t with
  | Some (str, rest') => Some (VString str, rest')
  | None => None
  end.
Proof. reflexivity. Qed.

Lemma parse_value_array (fuel : nat) (t : jsstring) :
  parse_value (S fuel) (91 :: t) =
  match skip_whitespace t with
  | d :: rest' =>
    if d =? 93 then Some (VArray [], rest') else parse_elements fuel [] t
  | [] => None
  end.
Proof. reflexivity. Qed.

Lemma parse_value_object (fuel : nat) (t : jsstring) :
  parse_value (S fuel) (123 :: t) =
  match skip_whitespace t with
  | d :: rest' =>
    if d =? 125 then Some (VObject [], rest') else parse_members fuel [] t
  | [] => None
  end.
Proof. reflexivity. Qed.

(** The head of the text of a non-empty list of values or members. *)
Lemma join_head (x : jsstring) (l : list jsstring) (c : code_unit)
  (t rest : jsstring) :
  x = c :: t ->
  exists u, join (lit ",") (x :: l) ++ rest = c :: u.
Proof.
  intros ->. destruct l as [|y l].
  - eexists. reflexivity.
  - rewrite join_cons2. eexists. reflexivity.
Qed.

Lemma plain_reads_back (v : value) : plain v -> reads_back v.
Proof.
  induction v as [| |b|z|s|items IH|members IH] using value_induction;
    intros Hplain fuel rest Hfuel; inversion Hplain; subst;
    (destruct fuel as [|fuel]; [simpl in Hfuel; lia|]).
  - reflexivity.
  - destruct b; reflexivity.
  - change (text_of (VString s))
      with (34 :: quote_units s ++ [34]).
    cbn [app]. rewrite <- app_assoc. cbn [app].
    rewrite parse_value_string, parse_string_QuoteJSONString. reflexivity.
  - assert (Hall : Forall reads_back items).
    { rewrite Forall_forall in *. intros x Hx. apply IH; auto. }
    rewrite text_of_array. cbn [app]. rewrite <- app_assoc. cbn [app].
    rewrite parse_value_array.
    destruct items as [|x items]; [reflexivity|].
    destruct (@text_of_head x) as (c & t & Ex & Hws & H93 & _).
    { rewrite Forall_forall in H0. apply H0. left. reflexivity. }
    destruct (join_head (List.map text_of items) (93 :: rest) Ex) as [u Eu].
    cbn [List.map]. rewrite Eu at 1. rewrite (@skip_whitespace_head c u Hws).
    destruct (N.eqb_spec c 93); [contradiction|].
    change (text_of x :: List.map text_of items)
      with (List.map text_of (x :: items)).
    apply (@parse_elements_text (x :: items) ltac:(discriminate) Hall
             fuel [] rest).
    simpl in Hfuel. simpl. lia.
  - assert (Hall : Forall (fun kv => reads_back (snd kv)) members).
    { rewrite Forall_forall in *. intros x Hx. apply IH; auto. }
    rewrite text_of_object by assumption.
    cbn [app]. rewrite <- app_assoc. cbn [app].
    rewrite parse_value_object.
    destruct members as [|[k x] members]; [reflexivity|].
    cbn [List.map].
    destruct (join_head (List.map member_text members) (125 :: rest)
                (c:=34) (t:=quote_units k ++ 34 :: 58 :: text_of x)
                (x:=member_text (k, x))) as [u Eu].
    { rewrite <- (app_nil_r (member_text (k, x))).
      rewrite member_text_app, app_nil_r. reflexivity. }
    rewrite Eu at 1.
    cbn [skip_whitespace is_json_whitespace N.eqb Pos.eqb orb].
    change (member_text (k, x) :: List.map member_text members)
      with (List.map member_text ((k, x) :: members)).
    apply (@parse_members_text ((k, x) :: members) ltac:(discriminate)
             Hall H2 fuel [] rest).
    + exact H1.
    + simpl in Hfuel. simpl. lia.
Qed.

Lemma join_weight {A : Type} (w : A -> nat) (txt : A -> jsstring)
  (l : list A) :
  Forall (fun x => (w x <= List.length (txt x))%nat) l ->
  (list_sum (List.map (fun x => S (w x)) l) <=
   S (List.length (join (lit ",") (List.map txt l))))%nat.
Proof.
  induction 1 as [|x l Hx _ IH]; [simpl; lia|].
  destruct l as [|y l].
  - simpl. lia.
  - cbn [List.map] in *. rewrite join_cons2, !length_app.
    unfold list_sum in *. cbn [fold_right] in *.
    simpl (List.length (lit ",")). lia.
Qed.

Lemma weight_text_of (v : value) :
  plain v -> (weight v <= List.length (text_of v))%nat.
Proof.
  induction v as [| |b|z|s|items IH|members IH] using value_induction;
    intros Hplain; inversion Hplain; subst.
  - simpl. lia.
  - destruct b; simpl; lia.
  - simpl. lia.
  - rewrite text_of_array. cbn [weight List.length].
    rewrite length_app. simpl (List.length [93]).
    assert (Hall : Forall (fun x => (weight x <= List.length (text_of x))%nat)
                          items).
    { rewrite Forall_forall in *. intros x Hx. apply IH; auto. }
    pose proof (join_weight weight text_of Hall). lia.
  - rewrite text_of_object by assumption. cbn [weight List.length].
    rewrite length_app. simpl (List.length [125]).
    assert (Hall : Forall (fun kv => (weight (snd kv) <=
                                      List.length (member_text kv))%nat)
                          members).
    { rewrite Forall_forall in *. intros kv Hkv.
      unfold member_text. rewrite !length_app.
      specialize (IH kv Hkv (H0 kv Hkv)). lia. }
    pose proof (join_weight (fun kv => weight (snd kv)) member_text Hall).
    lia.
Qed.

(** [JSON.parse] reads back what [JSON.stringify] wrote for a plain
    value. *)
Lemma JSON_parse_stringify (v : value) :
  plain v ->
  exists text, JSON_stringify v = Some text /\ JSON_parse text = Some v.
Proof.
  intros H. exists (text_of v). split; [apply plain_serialized; exact H|].
  unfold JSON_parse.
  pose proof (plain_reads_back H) as E. unfold reads_back in E.
  specialize (E (S (List.length (text_of v))) []).
  rewrite app_nil_r in E. rewrite E; [reflexivity|].
  pose proof (weight_text_of H). lia.
Qed.


(** ** Which part of the state a piece of the script leaves alone *)

Create HintDb frame.

Section FrameLemmas.

Context {R : World -> World -> Prop} {allowed : Effect -> Prop}.
Context {F : Frame R allowed}.
Variable env : Env.

Lemma keeps_ret {A : Type} (a : A) : keeps R (ret a).
Proof. intros w. apply frame_refl. Qed.

Lemma keeps_throw {A : Type} (e : Exn) : keeps R (throw (A:=A) e).
Proof. intros w. apply frame_refl. Qed.

Lemma keeps_read {A : Type} (f : World -> A) : keeps R (read f).
Proof. intros w. apply frame_refl. Qed.

Lemma keeps_bind {A B : Type} (c : M A) (k : A -> M B) :
  keeps R c -> (forall a, keeps R (k a)) -> keeps R (bind c k).
Proof.
  intros Hc Hk w. unfold bind. specialize (Hc w).
  destruct (c w) as [[a|e] w']; simpl in *.
  - eapply frame_trans; [exact Hc|apply Hk].
  - exact Hc.
Qed.

Lemma keeps_try_catch {A : Type} (body : M A) (handler : Exn -> M A) :
  keeps R body -> (forall e, keeps R (handler e)) ->
  keeps R (try_catch body handler).
Proof.
  intros Hb Hh w. unfold try_catch. specialize (Hb w).
  destruct (body w) as [[a|e] w']; simpl in *.
  - exact Hb.
  - eapply frame_trans; [exact Hb|apply Hh].
Qed.

Lemma keeps_try_finally {A : Type} (body : M A) (cleanup : M unit) :
  keeps R body -> keeps R cleanup -> keeps R (try_finally body cleanup).
Proof.
  intros Hb Hc w. unfold try_finally. specialize (Hb w).
  destruct (body w) as [r w']. specialize (Hc w').
  destruct (cleanup w') as [[u|e] w'']; simpl in *;
    eapply frame_trans; eassumption.
Qed.

Lemma keeps_forEach {A : Type} (f : A -> nat -> M unit) (items : list A) :
  (forall x i, keeps R (f x i)) -> forall i, keeps R (forEach f i items).
Proof.
  intros Hf. induction items as [|x rest IH]; intros i; simpl.
  - apply keeps_ret.
  - apply keeps_bind; [apply Hf|intros _; apply IH].
Qed.

Lemma keeps_set_attr el a v : keeps R (set_attr el a v).
Proof. intros w. apply frame_attrs. Qed.

Lemma keeps_emit e : allowed e -> keeps R (emit e).
Proof. intros H w. apply frame_emit. exact H. Qed.

Lemma keeps_addEventListener target type h :
  keeps R (addEventListener target type h).
Proof. intros w. apply frame_listeners. Qed.

Lemma keeps_displayImagePreview file : keeps R (displayImagePreview file).
Proof. intros w. apply frame_readers. Qed.

Lemma keeps_preventDefault : keeps R preventDefault.
Proof. intros w. apply frame_prevented. Qed.

Lemma keeps_member object name : keeps R (member env object name).
Proof. intros w. destruct object; apply frame_refl. Qed.

Lemma keeps_array_receiver object method :
  keeps R (array_receiver env object method).
Proof. intros w. destruct object; apply frame_refl. Qed.

Lemma keeps_json response : keeps R (json response).
Proof. intros w. unfold json. destruct (resp_json response); apply frame_refl. Qed.

End FrameLemmas.

#[export] Hint Resolve keeps_ret keeps_throw keeps_read keeps_set_attr
  keeps_addEventListener keeps_displayImagePreview keeps_preventDefault
  keeps_member keeps_array_receiver keeps_json : frame.

(** One step through the syntax of a piece of the script. *)
Ltac keeps_step :=
  lazymatch goal with
  | |- keeps _ (bind _ _) => apply keeps_bind; [|intro]
  | |- keeps _ (try_catch _ _) => apply keeps_try_catch; [|intro]
  | |- keeps _ (try_finally _ _) => apply keeps_try_finally
  | |- keeps _ (forEach _ _ _) => apply keeps_forEach; intro; intro
  | |- keeps _ (emit _) => apply keeps_emit; simpl; auto
  | |- keeps _ (if ?b then _ else _) => destruct b
  | |- keeps _ (match ?x with _ => _ end) => destruct x
  | |- keeps _ _ => solve [eauto with frame]
  end.

Ltac keeps_auto := repeat keeps_step.

Section FrameScript.

Context {R : World -> World -> Prop} {allowed : Effect -> Prop}.
Context {F : Frame R allowed}.
Variable env : Env.

Lemma keeps_modify_timers f :
  keeps R (modify (fun w => set_timers (f w) w)).
Proof. intros w. apply frame_timers. Qed.

Lemma keeps_showToast message type :
  allowed (Toast message type) -> keeps R (showToast message type).
Proof.
  intros H. unfold showToast. keeps_auto; try assumption.
  apply keeps_modify_timers.
Qed.

Lemma keeps_setLoadingState loading type :
  keeps R (setLoadingState loading type).
Proof. unfold setLoadingState. keeps_auto. Qed.

Lemma keeps_switchTab tab : keeps R (switchTab env tab).
Proof. unfold switchTab. keeps_auto. Qed.

Lemma keeps_setupEventListeners : keeps R (setupEventListeners env).
Proof. unfold setupEventListeners. keeps_auto. Qed.

Lemma keeps_updateCharCount : keeps R updateCharCount.
Proof. unfold updateCharCount. keeps_auto. Qed.

Lemma keeps_reader_onload result : keeps R (reader_onload result).
Proof. unfold reader_onload. keeps_auto. Qed.

Lemma keeps_run_timer t : keeps R (run_timer t).
Proof. unfold run_timer. keeps_auto. Qed.

Lemma keeps_createCaptionCard caption index :
  keeps R (createCaptionCard env caption index).
Proof. unfold createCaptionCard. keeps_auto. Qed.

Lemma keeps_createHashtagCard set index :
  keeps R (createHashtagCard env set index).
Proof. unfold createHashtagCard. keeps_auto. Qed.

Lemma keeps_createPostingTimeContent postingTime :
  keeps R (createPostingTimeContent env postingTime).
Proof. unfold createPostingTimeContent. keeps_auto. Qed.

End FrameScript.

#[export] Hint Resolve keeps_setLoadingState keeps_switchTab
  keeps_setupEventListeners keeps_updateCharCount keeps_reader_onload
  keeps_run_timer keeps_createCaptionCard keeps_createHashtagCard
  keeps_createPostingTimeContent : frame.


Section FrameDisplay.

Context {R : World -> World -> Prop} {allowed : Effect -> Prop}.
Context {F : Frame R allowed}.
Variable env : Env.

Lemma keeps_modify_captions f :
  keeps R (modify (fun w => set_captionsGrid_children (f w) w)).
Proof. intros w. apply frame_captions. Qed.

Lemma keeps_modify_hashtags f :
  keeps R (modify (fun w => set_hashtagsGrid_children (f w) w)).
Proof. intros w. apply frame_hashtags. Qed.

Lemma keeps_modify_posting c :
  keeps R (modify (set_postingTimeCard_innerHTML c)).
Proof. intros w. apply frame_posting. Qed.

Lemma keeps_displayResults data :
  allowed (Display data) -> allowed (ScrollIntoView resultsSection) ->
  keeps R (displayResults env data).
Proof.
  intros Hd Hs. unfold displayResults.
  apply keeps_bind; [apply keeps_emit; exact Hd|intros _].
  do 2 (apply keeps_bind; [eauto with frame|intro]).
  apply keeps_bind; [apply (keeps_modify_captions (fun _ => []))|intros _].
  do 2 (apply keeps_bind; [eauto with frame|intro]).
  apply keeps_bind.
  { apply keeps_forEach. intros x i.
    apply keeps_bind; [eauto with frame|intro].
    apply keeps_modify_captions. }
  intros _.
  apply keeps_bind; [apply (keeps_modify_hashtags (fun _ => []))|intros _].
  do 2 (apply keeps_bind; [eauto with frame|intro]).
  apply keeps_bind.
  { apply keeps_forEach. intros x i.
    apply keeps_bind; [eauto with frame|intro].
    apply keeps_modify_hashtags. }
  intros _.
  do 2 (apply keeps_bind; [eauto with frame|intro]).
  apply keeps_bind; [apply keeps_modify_posting|intros _].
  apply keeps_bind; [eauto with frame|intros _].
  apply keeps_emit. exact Hs.
Qed.

Lemma keeps_show_response response :
  (forall e, (forall r, e <> Fetch r) -> allowed e) ->
  keeps R (show_response env response).
Proof.
  intros H. unfold show_response.
  apply keeps_bind; [eauto with frame|intro data].
  destruct (resp_ok response).
  - apply keeps_displayResults; apply H; discriminate.
  - apply keeps_bind; [eauto with frame|intro message].
    apply keeps_showToast. apply H. discriminate.
Qed.

Lemma keeps_show_exception error :
  (forall e, (forall r, e <> Fetch r) -> allowed e) ->
  keeps R (show_exception error).
Proof.
  intros H. unfold show_exception. apply keeps_showToast. apply H. discriminate.
Qed.

End FrameDisplay.

Lemma fetches_app (s t : list Effect) : fetches (s ++ t) = fetches s ++ fetches t.
Proof. apply flat_map_app. Qed.

Lemma toasts_app (s t : list Effect) : toasts (s ++ t) = toasts s ++ toasts t.
Proof. apply flat_map_app. Qed.

Lemma displays_app (s t : list Effect) :
  displays (s ++ t) = displays s ++ displays t.
Proof. apply flat_map_app. Qed.

Lemma clipboard_writes_app (s t : list Effect) :
  clipboard_writes (s ++ t) = clipboard_writes s ++ clipboard_writes t.
Proof. apply flat_map_app. Qed.

#[export] Instance Frame_same_fetches : Frame same_fetches not_a_fetch.
Proof.
  split; unfold same_fetches; intros; simpl; try reflexivity.
  - congruence.
  - rewrite fetches_app. destruct e; simpl in *;
      [contradiction|apply app_nil_r..].
Qed.

#[export] Instance Frame_same_trace : Frame same_trace (fun _ => False).
Proof.
  split; unfold same_trace; intros; simpl; try reflexivity.
  - congruence.
  - contradiction.
Qed.

#[export] Instance Frame_same_selectedImage :
  Frame same_selectedImage (fun _ => True).
Proof.
  split; unfold same_selectedImage; intros; simpl; try reflexivity.
  congruence.
Qed.

Lemma allowed_not_a_fetch (e : Effect) :
  (forall r, e <> Fetch r) -> not_a_fetch e.
Proof. destruct e; simpl; intros H; [eapply H; reflexivity|exact I..]. Qed.

(** A guarded [fetch] sends its request, and nothing after it sends
    another one. *)
Lemma fetch_guarded {A : Type} (env : Env) (r : Request)
  (k : Response -> M A) (h : Exn -> M A) (w : World) :
  (forall response, keeps same_fetches (k response)) ->
  (forall e, keeps same_fetches (h e)) ->
  fetches (trace (snd (try_catch (bind (fetch env r) k) h w))) =
  fetches (trace w) ++ [r].
Proof.
  intros Hk Hh. cbv [try_catch bind fetch read emit modify throw ret].
  set (w1 := set_trace (trace w ++ [Fetch r]) w).
  assert (E : fetches (trace w1) = fetches (trace w) ++ [r])
    by (unfold w1; simpl; rewrite fetches_app; reflexivity).
  destruct (server env (fetches (trace w)) r) as [message|response].
  - rewrite (Hh _ w1). exact E.
  - specialize (Hk response w1). unfold same_fetches in Hk.
    destruct (k response w1) as [[a|e] w2]; simpl in *.
    + congruence.
    + rewrite (Hh e w2). congruence.
Qed.


(** ** The requests the page sends *)

Lemma trimStart_length (s : jsstring) : (strlen (trimStart s) <= strlen s)%nat.
Proof.
  induction s as [|c s IH]; simpl; [lia|].
  destruct (is_white_space c); simpl; unfold strlen in *; lia.
Qed.

Lemma trim_length (s : jsstring) : (strlen (trim s) <= strlen s)%nat.
Proof.
  unfold trim, trimEnd, strlen.
  rewrite length_rev.
  pose proof (trimStart_length (rev (trimStart s))) as H1.
  pose proof (trimStart_length s) as H2.
  unfold strlen in *. rewrite length_rev in H1. lia.
Qed.

(** [!text || text.length < 10] is the length test alone: the empty string
    is shorter than 10. *)
Lemma too_short_spec (text : jsstring) :
  too_short text = (strlen text <? 10)%nat.
Proof. destruct text; reflexivity. Qed.

Lemma JSON_stringify_text_brief (text : jsstring) :
  JSON_stringify (VObject [(lit "text_brief", VString text)]) =
  Some (lit "{" ++ QuoteJSONString (lit "text_brief") ++ lit ":"
        ++ QuoteJSONString text ++ lit "}").
Proof.
  reflexivity.
Qed.

Section Requests.

Variable env : Env.

Lemma generateCaptionsFromText_rejects (w : World) :
  (strlen (trim (textBrief_value w)) < 10)%nat ->
  generateCaptionsFromText env w =
  showToast (VString (lit "Please enter at least 10 characters."))
            (lit "error") w.
Proof.
  intros H. unfold generateCaptionsFromText, bind, read.
  rewrite too_short_spec.
  destruct (Nat.ltb_spec (strlen (trim (textBrief_value w))) 10); [|lia].
  reflexivity.
Qed.

Lemma showToast_trace (message : value) (type : jsstring) (w : World) :
  trace (snd (showToast message type w)) = trace w ++ [Toast message type].
Proof. reflexivity. Qed.

Lemma showToast_normal (message : value) (type : jsstring) (w : World) :
  fst (showToast message type w) = Normal tt.
Proof. reflexivity. Qed.

Lemma setLoadingState_trace (loading : bool) (type : jsstring) (w : World) :
  trace (snd (setLoadingState loading type w)) = trace w.
Proof. apply (keeps_setLoadingState (R:=same_trace)). Qed.

Lemma setLoadingState_normal (loading : bool) (type : jsstring) (w : World) :
  fst (setLoadingState loading type w) = Normal tt.
Proof.
  unfold setLoadingState.
  destruct (jsstring_eqb type (lit "image")); [reflexivity|].
  destruct (jsstring_eqb type (lit "text")); reflexivity.
Qed.

Lemma generateCaptionsFromText_accepts (w : World) :
  (10 <= strlen (trim (textBrief_value w)))%nat ->
  fetches (trace (snd (generateCaptionsFromText env w))) =
  fetches (trace w) ++ [text_request (trim (textBrief_value w))].
Proof.
  intros H. unfold generateCaptionsFromText.
  cbv [bind read]. rewrite too_short_spec.
  destruct (Nat.ltb_spec (strlen (trim (textBrief_value w))) 10); [lia|].
  pose proof (setLoadingState_trace true (lit "text") w) as Ht.
  pose proof (setLoadingState_normal true (lit "text") w) as Hn.
  destruct (setLoadingState true (lit "text") w) as [o w1]; simpl in Ht, Hn.
  subst o. rewrite JSON_stringify_text_brief. simpl body_of.
  unfold try_finally.
  match goal with
  | |- context [try_catch ?b ?h w1] =>
    pose proof (@fetch_guarded unit env
                  (text_request (trim (textBrief_value w)))
                  (show_response env) show_exception w1) as Hf;
    change (try_catch b h w1) with
      (try_catch (bind (fetch env (text_request (trim (textBrief_value w))))
                       (show_response env)) show_exception w1)
  end.
  rewrite Ht in Hf.
  destruct (try_catch _ _ w1) as [r w2]. simpl in Hf.
  pose proof (keeps_setLoadingState (R:=same_fetches) false (lit "text") w2)
    as Hc.
  unfold same_fetches in Hc.
  destruct (setLoadingState false (lit "text") w2) as [[u|e] w3];
    simpl in *; rewrite Hc; apply Hf; intros;
    first [apply keeps_show_response | apply keeps_show_exception];
    apply allowed_not_a_fetch.
Qed.

End Requests.

(** ** Sample runs *)

Example trim_sample : trim sample_brief = lit "New eco bottle!".
Proof. reflexivity. Qed.

Example text_request_body_sample :
  req_body (text_request (lit "say hi")) =
  StringBody (lit "{" ++ [34] ++ lit "text_brief" ++ [34] ++ lit ":"
              ++ [34] ++ lit "say hi" ++ [34] ++ lit "}").
Proof. reflexivity. Qed.

(** ** C4: the request of an accepted brief *)

Lemma plain_text_brief (text : jsstring) :
  plain (VObject [(lit "text_brief", VString text)]).
Proof.
  apply plain_object.
  - apply Forall_cons; [apply plain_string|apply Forall_nil].
  - apply NoDup_cons; [simpl; tauto|apply NoDup_nil].
  - apply Forall_cons; [reflexivity|apply Forall_nil].
Qed.

(** C4.  For every accepted text brief (its trimmed value [t] has at least
    10 code units), [generateCaptionsFromText] sends exactly one request:
    a POST to [API_BASE_URL/generate/text] with the header
    [Content-Type: application/json] and, as body, the JSON text of the
    object with the single member [text_brief] bound to [t]; parsing that
    text gives this object back. *)
Theorem generateCaptionsFromText_sends_one_post :
  forall (env : Env) (w : World),
    (10 <= strlen (trim (textBrief_value w)))%nat ->
    exists request body,
      fetches (trace (snd (generateCaptionsFromText env w))) =
        fetches (trace w) ++ [request] /\
      req_method request = lit "POST" /\
      req_url request = API_BASE_URL ++ lit "/generate/text" /\
      req_headers request = [(lit "Content-Type", lit "application/json")] /\
      req_body request = StringBody body /\
      JSON_stringify
        (VObject [(lit "text_brief", VString (trim (textBrief_value w)))]) =
        Some body /\
      JSON_parse body =
        Some (VObject [(lit "text_brief",
                        VString (trim (textBrief_value w)))]).
Proof.
  intros env w H.
  exists (text_request (trim (textBrief_value w))).
  destruct (JSON_parse_stringify
              (plain_text_brief (trim (textBrief_value w))))
    as (body & Hs & Hp).
  exists body. split; [apply generateCaptionsFromText_accepts; exact H|].
  repeat split; try reflexivity; try assumption.
  simpl req_body. f_equal.
  rewrite JSON_stringify_text_brief in Hs. injection Hs as <-. reflexivity.
Qed.

Lemma generateCaptionsFromText_sends_one_post_witness :
  exists request body,
    fetches (trace (snd (generateCaptionsFromText unreachable_env
                           (set_textBrief_value sample_brief initial)))) =
      [request] /\
    req_method request = lit "POST" /\
    req_url request = lit "http://localhost:5000/generate/text" /\
    req_headers request = [(lit "Content-Type", lit "application/json")] /\
    req_body request = StringBody body /\
    JSON_stringify (VObject [(lit "text_brief", VString (lit "New eco bottle!"))])
      = Some body /\
    JSON_parse body =
      Some (VObject [(lit "text_brief", VString (lit "New eco bottle!"))]).
Proof.
  apply (generateCaptionsFromText_sends_one_post unreachable_env
           (set_textBrief_value sample_brief initial)).
  vm_compute. lia.
Defined.

(** ** C5: the request of a selected image *)

(** C5.  When an image is selected, [generateCaptionsFromImage] sends
    exactly one request: a POST to [API_BASE_URL/generate/image] whose form
    data binds the selected file, bytes included, to the field [file].
    When none is selected it sends nothing and shows the error toast
    "Please select an image first.". *)
Theorem generateCaptionsFromImage_request :
  forall (env : Env) (w : World),
    match selectedImage w with
    | Some image =>
      fetches (trace (snd (generateCaptionsFromImage env w))) =
      fetches (trace w) ++
      [{| req_url := API_BASE_URL ++ lit "/generate/image";
          req_method := lit "POST";
          req_headers := [];
          req_body := FormDataBody [(lit "file", image)] |}]
    | None =>
      trace (snd (generateCaptionsFromImage env w)) =
      trace w ++ [Toast (VString (lit "Please select an image first."))
                        (lit "error")]
    end.
Proof.
  intros env w. unfold generateCaptionsFromImage. cbv [bind read].
  destruct (selectedImage w) as [image|]; [|reflexivity].
  pose proof (setLoadingState_trace true (lit "image") w) as Ht.
  pose proof (setLoadingState_normal true (lit "image") w) as Hn.
  destruct (setLoadingState true (lit "image") w) as [o w1]; simpl in Ht, Hn.
  subst o. unfold try_finally.
  pose proof (@fetch_guarded unit env (image_request image)
                (show_response env) show_exception w1) as Hf.
  match goal with
  | |- context [try_catch ?b ?h w1] =>
    change (try_catch b h w1) with
      (try_catch (bind (fetch env (image_request image)) (show_response env))
                 show_exception w1)
  end.
  rewrite Ht in Hf.
  destruct (try_catch _ _ w1) as [r w2]. simpl in Hf.
  pose proof (keeps_setLoadingState (R:=same_fetches) false (lit "image") w2)
    as Hc.
  unfold same_fetches in Hc.
  destruct (setLoadingState false (lit "image") w2) as [[u|e] w3];
    simpl in *; rewrite Hc; apply Hf; intros;
    first [apply keeps_show_response | apply keeps_show_exception];
    apply allowed_not_a_fetch.
Qed.


(** ** C6: a response that is not ok *)

Lemma setLoadingState_world (loading : bool) (type : jsstring) (w : World) :
  exists f, setLoadingState loading type w = (Normal tt, set_attrs f w).
Proof.
  unfold setLoadingState.
  destruct (jsstring_eqb type (lit "image")).
  - eexists. cbv [bind set_attr modify]. simpl. reflexivity.
  - destruct (jsstring_eqb type (lit "text")).
    + eexists. cbv [bind set_attr modify]. simpl. reflexivity.
    + exists (attrs w). destruct w; reflexivity.
Qed.

Section NotOk.

Variable env : Env.

(** The guarded part of both generate functions, on a response that is not
    ok: the request, then one error toast whose message is the [error]
    member when the body decodes to an object that has a non-empty one, the
    fallback when it has none, and the exception's message behind "Error: "
    when the body does not decode. *)
Lemma guarded_not_ok (request : Request) (r : Response) (type : jsstring)
  (w : World) :
  server env (fetches (trace w)) request = Responded r ->
  resp_ok r = false ->
  exists message w',
    snd (try_finally
           (try_catch (bind (fetch env request) (show_response env))
                      show_exception)
           (setLoadingState false type) w) = w' /\
    trace w' = trace w ++ [Fetch request; Toast message (lit "error")] /\
    timers w' = timers w ++ [(hide_toast, 3000)] /\
    (forall members e,
        resp_json r = inl (VObject members) ->
        lookup (lit "error") members = Some (VString e) -> e <> [] ->
        message = VString e) /\
    (forall members,
        resp_json r = inl (VObject members) ->
        lookup (lit "error") members = None ->
        message = VString (lit "Failed to generate captions.")) /\
    (forall m,
        resp_json r = inr m -> message = VString (lit "Error: " ++ m)).
Proof.
  intros Hs Hok.
  cbv [try_finally try_catch bind fetch read emit modify].
  rewrite Hs. cbv [ret show_response bind json]. rewrite Hok.
  destruct (resp_json r) as [data|m] eqn:Ej.
  - destruct data as [| |b|z|s|items|members];
      cbv [member throw ret show_exception showToast bind emit set_attr
           modify];
      match goal with
      | |- context [setLoadingState false type ?w1] =>
        destruct (setLoadingState_world false type w1) as [f ->]
      end;
      eexists; eexists; (split; [reflexivity|]); simpl;
      rewrite <- app_assoc; simpl;
      (split; [reflexivity|]); (split; [reflexivity|]);
      (split; [|split]); intros; try discriminate.
    + match goal with
      | H : inl _ = inl _ |- _ => injection H as <-
      end.
      match goal with
      | H : lookup _ _ = _ |- _ => rewrite H
      end.
      unfold js_or. simpl. destruct e; [contradiction|reflexivity].
    + match goal with
      | H : inl _ = inl _ |- _ => injection H as <-
      end.
      match goal with
      | H : lookup _ _ = _ |- _ => rewrite H
      end.
      reflexivity.
  - cbv [throw show_exception showToast bind emit set_attr modify].
    match goal with
    | |- context [setLoadingState false type ?w1] =>
      destruct (setLoadingState_world false type w1) as [f ->]
    end.
    eexists; eexists; (split; [reflexivity|]); simpl.
    rewrite <- app_assoc; simpl.
    (split; [reflexivity|]); (split; [reflexivity|]).
    (split; [|split]); intros; try discriminate.
    match goal with
    | H : inr _ = inr _ |- _ => injection H as <-
    end.
    reflexivity.
Qed.

End NotOk.

Lemma guarded_shows_only_an_error (env : Env) (request : Request)
  (r : Response) (type : jsstring) (w0 w : World) :
  trace w = trace w0 -> timers w = timers w0 ->
  server env (fetches (trace w0)) request = Responded r ->
  resp_ok r = false ->
  exists message,
    shows_only_an_error w0
      (snd (try_finally
              (try_catch (bind (fetch env request) (show_response env))
                         show_exception)
              (setLoadingState false type) w))
      request r message.
Proof.
  intros Ht Hm Hs Hok. rewrite <- Ht in Hs.
  destruct (@guarded_not_ok env request r type w Hs Hok)
    as (message & w' & -> & Htr & Htm & H1 & H2 & H3).
  exists message. unfold shows_only_an_error.
  rewrite Htr, Htm, Ht, Hm. repeat split; try assumption.
  rewrite displays_app. simpl. apply app_nil_r.
Qed.





(** ** C7: the health check of the page load *)

Section Everything.

Context {R : World -> World -> Prop} {allowed : Effect -> Prop}.
Context {F : Frame R allowed}.
Variable env : Env.
Hypothesis allowed_all : forall e, allowed e.

Lemma keeps_fetch r : keeps R (fetch env r).
Proof.
  unfold fetch. apply keeps_bind; [apply keeps_read|intro earlier].
  apply keeps_bind; [apply keeps_emit; apply allowed_all|intros _].
  destruct (server env earlier r); [apply keeps_throw|apply keeps_ret].
Qed.

Lemma keeps_checkServerHealth : keeps R (checkServerHealth env).
Proof.
  unfold checkServerHealth. apply keeps_try_catch.
  - apply keeps_bind; [apply keeps_fetch|intro response].
    destruct (negb (resp_ok response));
      [apply keeps_showToast; apply allowed_all|apply keeps_ret].
  - intro e. apply keeps_showToast. apply allowed_all.
Qed.

Lemma keeps_guarded request type :
  keeps R (try_finally
             (try_catch (bind (fetch env request) (show_response env))
                        show_exception)
             (setLoadingState false type)).
Proof.
  apply keeps_try_finally; [|apply keeps_setLoadingState].
  apply keeps_try_catch.
  - apply keeps_bind; [apply keeps_fetch|intro response].
    apply keeps_show_response. intros e _. apply allowed_all.
  - intro e. apply keeps_show_exception. intros e' _. apply allowed_all.
Qed.

Lemma keeps_generateCaptionsFromImage :
  keeps R (generateCaptionsFromImage env).
Proof.
  unfold generateCaptionsFromImage.
  apply keeps_bind; [apply keeps_read|intros [image|]].
  - apply keeps_bind; [apply keeps_setLoadingState|intros _].
    apply keeps_guarded.
  - apply keeps_showToast. apply allowed_all.
Qed.

Lemma keeps_generateCaptionsFromText :
  keeps R (generateCaptionsFromText env).
Proof.
  unfold generateCaptionsFromText.
  apply keeps_bind; [apply keeps_read|intro text].
  destruct (too_short text).
  - apply keeps_showToast. apply allowed_all.
  - apply keeps_bind; [apply keeps_setLoadingState|intros _].
    apply keeps_guarded.
Qed.

Lemma keeps_copyToClipboard text type :
  keeps R (copyToClipboard env text type).
Proof.
  unfold copyToClipboard.
  destruct (clipboard_accepts env (unescapedText (named_references env) text)).
  - apply keeps_bind; [apply keeps_emit; apply allowed_all|intros _].
    apply keeps_showToast. apply allowed_all.
  - apply keeps_showToast. apply allowed_all.
Qed.

End Everything.

(** A piece of the script that completes normally whatever the state. *)
Lemma bind_never_throws {A B : Type} (c : M A) (k : A -> M B) (w : World) :
  (exists a, fst (c w) = Normal a) ->
  (forall a w', exists b, fst (k a w') = Normal b) ->
  exists b, fst (bind c k w) = Normal b.
Proof.
  intros [a Ha] Hk. unfold bind. destruct (c w) as [o w']. simpl in Ha.
  subst o. apply Hk.
Qed.

Lemma addEventListener_normal target type h (w : World) :
  exists u, fst (addEventListener target type h w) = Normal u.
Proof. exists tt. reflexivity. Qed.

Lemma forEach_normal {A : Type} (f : A -> nat -> M unit) (items : list A) :
  (forall x i w, exists u, fst (f x i w) = Normal u) ->
  forall i w, exists u, fst (forEach f i items w) = Normal u.
Proof.
  intros Hf. induction items as [|x rest IH]; intros i w; simpl.
  - exists tt. reflexivity.
  - apply bind_never_throws; [apply Hf|intros _ w'; apply IH].
Qed.

Lemma setupEventListeners_normal (env : Env) (w : World) :
  exists u, fst (setupEventListeners env w) = Normal u.
Proof.
  unfold setupEventListeners.
  repeat (apply bind_never_throws;
          [first [apply addEventListener_normal
                 |apply forEach_normal; intros; apply addEventListener_normal]
          |intros _ ?w]).
  apply addEventListener_normal.
Qed.

Lemma checkServerHealth_trace (env : Env) (w : World) :
  trace (snd (checkServerHealth env w)) =
  trace w ++ Fetch health_request ::
    match server env (fetches (trace w)) health_request with
    | NetworkFailure _ =>
      [Toast (VString (lit "Cannot connect to server. Please start the backend on port 5000."))
             (lit "error")]
    | Responded r =>
      if resp_ok r then []
      else [Toast (VString (lit "Cannot connect to server. Please ensure the backend is running."))
                  (lit "error")]
    end.
Proof.
  unfold checkServerHealth. fold health_request.
  cbv [try_catch bind fetch read emit modify].
  destruct (server env (fetches (trace w)) health_request) as [m|r].
  - cbv [throw showToast bind emit modify set_attr]. simpl trace.
    rewrite <- app_assoc. reflexivity.
  - cbv [ret]. destruct (resp_ok r); cbv [negb].
    + reflexivity.
    + cbv [showToast bind emit modify set_attr]. simpl trace.
      rewrite <- app_assoc. reflexivity.
Qed.

Lemma DOMContentLoaded_trace (env : Env) (w : World) :
  trace (snd (DOMContentLoaded env w)) =
  trace w ++ Fetch health_request ::
    match server env (fetches (trace w)) health_request with
    | NetworkFailure _ =>
      [Toast (VString (lit "Cannot connect to server. Please start the backend on port 5000."))
             (lit "error")]
    | Responded r =>
      if resp_ok r then []
      else [Toast (VString (lit "Cannot connect to server. Please ensure the backend is running."))
                  (lit "error")]
    end.
Proof.
  unfold DOMContentLoaded, bind.
  destruct (setupEventListeners_normal env w) as [u Hn].
  pose proof (keeps_setupEventListeners (R:=same_trace) env w) as Ht.
  unfold same_trace in Ht.
  destruct (setupEventListeners env w) as [o w1]. simpl in Hn, Ht. subst o.
  rewrite checkServerHealth_trace, Ht. reflexivity.
Qed.

(** C7.  The listener of the page load sends exactly one request, a GET to
    [API_BASE_URL/health], and shows a cannot-connect toast of type error
    exactly when that request fails or its answer is not ok; on a 200
    answer no toast is shown. *)
Theorem page_load_checks_health :
  forall (env : Env) (w : World),
    fetches (trace (snd (DOMContentLoaded env w))) =
      fetches (trace w) ++ [health_request] /\
    req_method health_request = lit "GET" /\
    req_url health_request = API_BASE_URL ++ lit "/health" /\
    (if health_check_failed env w
     then exists message,
         toasts (trace (snd (DOMContentLoaded env w))) =
           toasts (trace w) ++ [(message, lit "error")] /\
         cannot_connect message = true
     else toasts (trace (snd (DOMContentLoaded env w))) = toasts (trace w)) /\
    (forall r,
        server env (fetches (trace w)) health_request = Responded r ->
        resp_status r = 200 ->
        toasts (trace (snd (DOMContentLoaded env w))) = toasts (trace w)).
Proof.
  intros env w. rewrite DOMContentLoaded_trace.
  rewrite fetches_app, toasts_app. unfold health_check_failed.
  split; [|split; [reflexivity|split; [reflexivity|split]]].
  - f_equal. destruct (server env _ _) as [m|r];
      [reflexivity|destruct (resp_ok r); reflexivity].
  - destruct (server env _ _) as [m|r].
    + eexists. split; reflexivity.
    + destruct (resp_ok r).
      * apply app_nil_r.
      * eexists. split; reflexivity.
  - intros r Hs H200. rewrite Hs. unfold resp_ok. rewrite H200.
    apply app_nil_r.
Qed.

Lemma page_load_checks_health_witness :
  toasts (trace (snd (DOMContentLoaded
                        (answering_env {| resp_status := 200;
                                          resp_json := inl VNull |})
                        initial))) = [].
Proof.
  apply (proj2 (proj2 (proj2 (proj2
           (page_load_checks_health
              (answering_env {| resp_status := 200; resp_json := inl VNull |})
              initial))))
           {| resp_status := 200; resp_json := inl VNull |});
    reflexivity.
Defined.

(** ** C10: what [selectedImage] holds *)

Lemma same_selectedImage_ok (w w' : World) :
  same_selectedImage w w' -> selectedImage_ok w -> selectedImage_ok w'.
Proof. unfold same_selectedImage, selectedImage_ok. intros ->. trivial. Qed.

Lemma handleImageSelect_ok (e : EventObject) (w : World) :
  selectedImage_ok w -> selectedImage_ok (snd (handleImageSelect e w)).
Proof.
  intros H. unfold handleImageSelect.
  destruct (hd_error (ev_files e)) as [file|].
  - destruct (is_image file) eqn:E.
    + unfold selectedImage_ok. simpl. exact E.
    + exact H.
  - exact H.
Qed.

Lemma handleDrop_ok (e : EventObject) (w : World) :
  selectedImage_ok w -> selectedImage_ok (snd (handleDrop e w)).
Proof.
  intros H. unfold handleDrop. cbv [bind preventDefault modify set_attr].
  destruct (hd_error (ev_files e)) as [file|].
  - destruct (is_image file) eqn:E.
    + unfold selectedImage_ok. simpl. exact E.
    + exact H.
  - exact H.
Qed.

Lemma removeImage_ok (w : World) : selectedImage_ok (snd (removeImage w)).
Proof. exact I. Qed.

Lemma resetForm_ok (w : World) : selectedImage_ok (snd (resetForm w)).
Proof. exact I. Qed.

Lemma handleImageSelect_no_image (e : EventObject) (w : World) :
  no_image e ->
  selectedImage (snd (handleImageSelect e w)) = selectedImage w /\
  toasts (trace (snd (handleImageSelect e w))) =
  toasts (trace w) ++ [invalid_image_toast].
Proof.
  unfold no_image, handleImageSelect. intros H.
  destruct (hd_error (ev_files e)) as [file|]; [rewrite H|];
    (split; [reflexivity|rewrite showToast_trace, toasts_app; reflexivity]).
Qed.

Lemma handleDrop_no_image (e : EventObject) (w : World) :
  no_image e ->
  selectedImage (snd (handleDrop e w)) = selectedImage w /\
  toasts (trace (snd (handleDrop e w))) =
  toasts (trace w) ++ [invalid_image_toast].
Proof.
  unfold no_image, handleDrop. intros H.
  cbv [bind preventDefault modify set_attr].
  destruct (hd_error (ev_files e)) as [file|]; [rewrite H|];
    (split; [reflexivity|rewrite showToast_trace, toasts_app; reflexivity]).
Qed.

Lemma handle_ok (env : Env) (h : Handler) (e : EventObject) (w : World) :
  selectedImage_ok w -> selectedImage_ok (snd (handle env h e w)).
Proof.
  intros H.
  assert (all : forall x : Effect, (fun _ => True) x) by (intros; exact I).
  destruct h; simpl handle.
  - eapply same_selectedImage_ok; [|exact H].
    apply keeps_bind; [apply keeps_setupEventListeners|intros _].
    apply keeps_checkServerHealth. exact all.
  - eapply same_selectedImage_ok; [apply keeps_switchTab|exact H].
  - eapply same_selectedImage_ok; [apply keeps_emit; exact I|exact H].
  - apply handleImageSelect_ok. exact H.
  - apply removeImage_ok.
  - eapply same_selectedImage_ok; [|exact H].
    apply keeps_bind; [apply keeps_preventDefault|intros _].
    apply keeps_set_attr.
  - eapply same_selectedImage_ok; [|exact H].
    apply keeps_bind; [apply keeps_preventDefault|intros _].
    apply keeps_set_attr.
  - apply handleDrop_ok. exact H.
  - eapply same_selectedImage_ok;
      [apply keeps_generateCaptionsFromImage; exact all|exact H].
  - eapply same_selectedImage_ok;
      [apply keeps_generateCaptionsFromText; exact all|exact H].
  - eapply same_selectedImage_ok; [apply keeps_updateCharCount|exact H].
  - apply resetForm_ok.
Qed.

Lemma step_ok (env : Env) (w w' : World) :
  step env w w' -> selectedImage_ok w -> selectedImage_ok w'.
Proof.
  intros Hstep H. destruct Hstep.
  - apply handle_ok. exact H.
  - exact H.
  - eapply same_selectedImage_ok; [apply keeps_reader_onload|exact H].
  - eapply same_selectedImage_ok; [apply keeps_run_timer|exact H].
  - eapply same_selectedImage_ok;
      [apply keeps_copyToClipboard; intros; exact I|exact H].
Qed.


Lemma page_with_image_reachable :
  reachable unreachable_env (page_with_image unreachable_env).
Proof.
  unfold page_with_image.
  apply reachable_step with (w := loaded_page unreachable_env).
  - unfold loaded_page.
    apply reachable_step with (w := initial); [apply reachable_initial|].
    apply step_event with (target := document)
                          (type := lit "DOMContentLoaded").
    left. reflexivity.
  - apply step_event with (target := imageInput) (type := lit "change").
    vm_compute. tauto.
Qed.


Example page_with_image_selected :
  selectedImage (page_with_image unreachable_env) = Some sample_image.
Proof. reflexivity. Qed.


(** ** C9: what a copy button puts on the clipboard *)

Lemma copyToClipboard_writes (env : Env) (text type : jsstring) (w : World) :
  clipboard_writes (trace (snd (copyToClipboard env text type w))) =
  clipboard_writes (trace w) ++
  (if clipboard_accepts env (unescapedText (named_references env) text) then [unescapedText (named_references env) text]
   else []).
Proof.
  unfold copyToClipboard.
  destruct (clipboard_accepts env (unescapedText (named_references env) text)).
  - cbv [bind emit modify]. rewrite showToast_trace. simpl trace.
    rewrite !clipboard_writes_app. simpl. rewrite app_nil_r. reflexivity.
  - rewrite showToast_trace, clipboard_writes_app. reflexivity.
Qed.





(** ** The backend contract: C1, C3, C8 and the handler's half of C2 *)

Section ContractFacts.

Import Backend.

Variable generate : GenerationRequest -> jsstring -> jsstring + jsstring.
Variable prompt_for : GenerationRequest -> jsstring.
Variable structured_decode : jsstring -> option Decoded.
Variable delimiter_split : jsstring -> option Decoded.
Variable placeholder_caption : Caption.
Variable placeholder_hashtag_set : HashtagSet.
Variable default_reason : jsstring.
Variable size_ceiling : nat.

#[local] Abbreviation fill' := (fill placeholder_caption placeholder_hashtag_set
                        default_reason).
#[local] Abbreviation recover' := (recover structured_decode delimiter_split).
#[local] Abbreviation parse' := (parse structured_decode delimiter_split
                          placeholder_caption placeholder_hashtag_set
                          default_reason).
#[local] Abbreviation respond' := (respond generate prompt_for structured_decode
                              delimiter_split placeholder_caption
                              placeholder_hashtag_set default_reason).
#[local] Abbreviation handleTextRequest' :=
  (handleTextRequest generate prompt_for structured_decode delimiter_split
                     placeholder_caption placeholder_hashtag_set
                     default_reason).
#[local] Abbreviation handleImageRequest' :=
  (handleImageRequest generate prompt_for structured_decode delimiter_split
                      placeholder_caption placeholder_hashtag_set
                      default_reason size_ceiling).

Lemma pad3_length {A : Type} (p : A) (l : list A) :
  List.length (pad3 p l) = 3%nat.
Proof.
  unfold pad3. rewrite length_firstn, length_app, repeat_length. lia.
Qed.

Lemma pad3_short {A : Type} (p : A) (l : list A) :
  (List.length l < 3)%nat ->
  pad3 p l = l ++ repeat p (3 - List.length l).
Proof.
  destruct l as [|a [|b [|c l]]]; simpl; intros H;
    [reflexivity..|lia].
Qed.

Lemma pad3_Forall {A : Type} (P : A -> Prop) (p : A) (l : list A) :
  P p -> Forall P l -> Forall P (pad3 p l).
Proof.
  intros Hp Hl. unfold pad3. apply Forall_forall. intros x Hx.
  assert (Hin : In x (l ++ repeat p 3)).
  { rewrite <- (firstn_skipn 3 (l ++ repeat p 3)).
    apply in_or_app. left. exact Hx. }
  apply in_app_or in Hin. destruct Hin as [Hin|Hin].
  - rewrite Forall_forall in Hl. apply Hl. exact Hin.
  - apply repeat_spec in Hin. subst x. exact Hp.
Qed.

Lemma filter_has_hashtags (l : list HashtagSet) :
  Forall (fun s => hashtags s <> []) (filter has_hashtags l).
Proof.
  apply Forall_forall. intros s Hs. apply filter_In in Hs.
  destruct Hs as [_ Hs]. unfold has_hashtags in Hs.
  destruct (hashtags s); [discriminate Hs|discriminate].
Qed.

Hypothesis placeholder_has_hashtags : hashtags placeholder_hashtag_set <> [].

Lemma fill_well_formed (d : Decoded) : well_formed (fst (fill' d)).
Proof.
  unfold well_formed, fill. simpl. repeat split.
  - apply pad3_length.
  - apply pad3_length.
  - apply pad3_Forall; [exact placeholder_has_hashtags|].
    apply filter_has_hashtags.
Qed.

Lemma parse_well_formed (rawText : jsstring) (r : GenerationResult)
  (ws : list Warning) :
  parse' rawText = Parsed r ws -> well_formed r.
Proof.
  unfold parse. destruct (recover' rawText) as [d|]; [|discriminate].
  pose proof (fill_well_formed d) as H.
  destruct (fill' d) as [r' ws']. intros E. injection E as <- _. exact H.
Qed.

Lemma respond_well_formed (request : GenerationRequest)
  (r : GenerationResult) (calls : list Call) :
  respond' request = (inl r, calls) -> well_formed r.
Proof.
  unfold respond.
  destruct (generate request (prompt_for request)) as [rawText|m];
    [|discriminate].
  destruct (parse' rawText) as [r' ws|] eqn:E; [|discriminate].
  intros H. injection H as <- _. eapply parse_well_formed. exact E.
Qed.

Lemma respond_returns (request : GenerationRequest) (rawText : jsstring)
  (d : Decoded) :
  generate request (prompt_for request) = inl rawText ->
  recover' rawText = Some d ->
  respond' request = (inl (fst (fill' d)), [(request, prompt_for request)]).
Proof.
  intros Hg Hr. unfold respond, parse. rewrite Hg, Hr.
  destruct (fill' d) as [r ws]. reflexivity.
Qed.



End ContractFacts.



(** ** C8: a result through JSON and back *)

Lemma decode_all_map {A B : Type} (f : B -> option A) (g : A -> B)
  (l : list A) :
  (forall x, f (g x) = Some x) ->
  Backend.decode_all f (List.map g l) = Some l.
Proof.
  intros H. induction l as [|x l IH]; simpl; [reflexivity|].
  rewrite H, IH. reflexivity.
Qed.

Lemma decode_encode_Caption (c : Backend.Caption) :
  Backend.decode_Caption (Backend.encode_Caption c) = Some c.
Proof. destruct c. reflexivity. Qed.

Lemma decode_encode_HashtagSet (s : Backend.HashtagSet) :
  Backend.decode_HashtagSet (Backend.encode_HashtagSet s) = Some s.
Proof.
  destruct s as [c hs]. unfold Backend.decode_HashtagSet. simpl.
  rewrite decode_all_map by reflexivity. reflexivity.
Qed.

Lemma decode_encode_tree (r : Backend.GenerationResult) :
  Backend.decode (Backend.encode r) = Some r.
Proof.
  destruct r as [ct cs hs [t d rs]]. unfold Backend.decode. simpl.
  rewrite (decode_all_map _ _ cs decode_encode_Caption).
  rewrite (decode_all_map _ _ hs decode_encode_HashtagSet).
  reflexivity.
Qed.

(** Distinct keys, none of them an array index, for a list of keys written
    out in the source. *)
Ltac distinct_keys :=
  repeat (constructor; [vm_compute; intuition discriminate|]); constructor.

Ltac no_array_index :=
  repeat (apply Forall_cons; [reflexivity|]); apply Forall_nil.

Lemma plain_strings (l : list jsstring) : Forall plain (List.map VString l).
Proof.
  apply Forall_forall. intros x Hx. apply in_map_iff in Hx.
  destruct Hx as (h & <- & _). apply plain_string.
Qed.

Lemma plain_encode_Caption (c : Backend.Caption) :
  plain (Backend.encode_Caption c).
Proof.
  apply plain_object; [|distinct_keys|no_array_index].
  repeat (apply Forall_cons; [apply plain_string|]). apply Forall_nil.
Qed.

Lemma plain_encode_HashtagSet (s : Backend.HashtagSet) :
  plain (Backend.encode_HashtagSet s).
Proof.
  apply plain_object; [|distinct_keys|no_array_index].
  apply Forall_cons; [apply plain_string|].
  apply Forall_cons; [apply plain_array; apply plain_strings|].
  apply Forall_nil.
Qed.

Lemma plain_encode_PostingTime (p : Backend.PostingTime) :
  plain (Backend.encode_PostingTime p).
Proof.
  apply plain_object; [|distinct_keys|no_array_index].
  repeat (apply Forall_cons; [apply plain_string|]). apply Forall_nil.
Qed.

Lemma plain_encode (r : Backend.GenerationResult) : plain (Backend.encode r).
Proof.
  apply plain_object; [|distinct_keys|no_array_index].
  apply Forall_cons; [apply plain_string|].
  apply Forall_cons.
  { apply plain_array. apply Forall_forall. intros x Hx.
    apply in_map_iff in Hx. destruct Hx as (c & <- & _).
    apply plain_encode_Caption. }
  apply Forall_cons.
  { apply plain_array. apply Forall_forall. intros x Hx.
    apply in_map_iff in Hx. destruct Hx as (c & <- & _).
    apply plain_encode_HashtagSet. }
  apply Forall_cons; [apply plain_encode_PostingTime|].
  apply Forall_nil.
Qed.

(** C8.  Encoding a [GenerationResult] to JSON and decoding that JSON
    yields the original value, field for field: as a JSON value, and as the
    JSON text written by the encoder and read back by the parser. *)
Theorem decode_encode :
  forall r : Backend.GenerationResult,
    Backend.decode (Backend.encode r) = Some r /\
    exists text,
      Backend.encode_text r = Some text /\
      Backend.decode_text text = Some r.
Proof.
  intros r. split; [apply decode_encode_tree|].
  destruct (JSON_parse_stringify (plain_encode r)) as (text & Hs & Hp).
  exists text. split; [exact Hs|].
  unfold Backend.decode_text. rewrite Hp. apply decode_encode_tree.
Qed.


(** ** C2: a brief that is too short *)

(** C2.  A text brief shorter than 10 code units is rejected on both
    sides.  The handler answers [ValidationError] (status 400) without any
    call of the adapter.  In the page, when the brief, or only what [trim]
    leaves of it, is shorter than 10 code units (the empty string
    included), [generateCaptionsFromText] shows the error toast "Please
    enter at least 10 characters." and returns; nothing else happens, in
    particular no request is sent. *)
Theorem short_brief_is_rejected :
  (forall generate prompt_for structured_decode delimiter_split
          placeholder_caption placeholder_hashtag_set default_reason
          textBrief,
      (strlen textBrief < 10)%nat ->
      Backend.handleTextRequest generate prompt_for structured_decode
        delimiter_split placeholder_caption placeholder_hashtag_set
        default_reason textBrief = (inr Backend.ValidationError, []) /\
      Backend.status_of Backend.ValidationError = 400) /\
  (forall (env : Env) (w : World),
      (strlen (textBrief_value w) < 10)%nat \/
      (strlen (trim (textBrief_value w)) < 10)%nat ->
      fst (generateCaptionsFromText env w) = Normal tt /\
      trace (snd (generateCaptionsFromText env w)) =
        trace w ++ [Toast (VString (lit "Please enter at least 10 characters."))
                          (lit "error")] /\
      fetches (trace (snd (generateCaptionsFromText env w))) =
        fetches (trace w)).
Proof.
  split.
  - intros generate prompt_for structured_decode delimiter_split
           placeholder_caption placeholder_hashtag_set default_reason
           textBrief H.
    split; [|reflexivity]. unfold Backend.handleTextRequest.
    destruct (Nat.leb_spec 10 (strlen textBrief)); [lia|reflexivity].
  - intros env w H.
    assert (Ht : (strlen (trim (textBrief_value w)) < 10)%nat).
    { destruct H as [H|H]; [|exact H].
      pose proof (trim_length (textBrief_value w)). lia. }
    rewrite (generateCaptionsFromText_rejects env w Ht).
    split; [reflexivity|]. rewrite showToast_trace.
    split; [reflexivity|]. rewrite fetches_app. apply app_nil_r.
Qed.

Lemma short_brief_is_rejected_witness :
  sample_handleTextRequest (lit "Too short") =
    (inr Backend.ValidationError, []) /\
  trace (snd (generateCaptionsFromText unreachable_env
                (set_textBrief_value (lit "   Too short      ") initial))) =
    [Toast (VString (lit "Please enter at least 10 characters."))
           (lit "error")].
Proof.
  split.
  - apply (proj1 short_brief_is_rejected sample_generate sample_prompt_for
             sample_structured_decode sample_delimiter_split
             sample_placeholder_caption sample_placeholder_hashtag_set
             sample_default_reason (lit "Too short")).
    vm_compute. lia.
  - apply (proj2 short_brief_is_rejected unreachable_env
             (set_textBrief_value (lit "   Too short      ") initial)).
    right. vm_compute. lia.
Defined.

(** ** A whole exchange *)

(** The page shows what the contract's encoding carries: one card per
    caption and per hashtag set, and the copy argument of a card is the
    escaped text. *)
Example displayed_sample :
  let w := snd (generateCaptionsFromText (answering_env sample_success)
                  (set_textBrief_value sample_brief initial)) in
  trace w = [Fetch (text_request (lit "New eco bottle!"));
             Display (Backend.encode sample_result);
             ScrollIntoView resultsSection] /\
  List.map caption_text (captionsGrid_children w) =
    List.map Backend.caption (Backend.captions sample_result) /\
  List.map caption_copy_argument (captionsGrid_children w) =
    [lit "Sip green &amp; stay cool"; lit "It&#39;s &lt;your&gt; bottle";
     lit "Refill. Reuse."] /\
  List.map hashtag_tags (hashtagsGrid_children w) =
    List.map Backend.hashtags (Backend.hashtagSets sample_result) /\
  List.map hashtag_copy_argument (hashtagsGrid_children w) =
    [lit "#eco #green"; lit "#bottle"; lit "#summer #sun"] /\
  postingTimeCard_innerHTML w =
    Some {| posting_time := lit "6 PM"; posting_day := lit "Saturday";
            posting_reason := lit "Weekend evenings" |} /\
  attrs w generateFromText disabled = VBool false.
Proof. vm_compute. repeat split. Qed.


(** * Further properties of the script *)

(** ** [trim] and [escapeHtml] *)

Lemma trimStart_split (s : jsstring) :
  exists lead,
    s = lead ++ trimStart s /\
    Forall (fun c => is_white_space c = true) lead.
Proof.
  induction s as [|c s (lead & E & H)].
  - exists []. split; [reflexivity|constructor].
  - simpl. destruct (is_white_space c) eqn:Ec.
    + exists (c :: lead). split; [simpl; rewrite <- E; reflexivity|].
      constructor; assumption.
    + exists []. split; [reflexivity|constructor].
Qed.

Lemma trimStart_head (s : jsstring) :
  match trimStart s with
  | c :: _ => is_white_space c = false
  | [] => True
  end.
Proof.
  induction s as [|c s IH]; simpl; [exact I|].
  destruct (is_white_space c) eqn:Ec; [exact IH|exact Ec].
Qed.

Lemma trimStart_whitespace (s : jsstring) :
  Forall (fun c => is_white_space c = true) s -> trimStart s = [].
Proof.
  induction 1 as [|c s Hc _ IH]; simpl; [reflexivity|].
  rewrite Hc. exact IH.
Qed.

Lemma Forall_rev_whitespace (l : jsstring) :
  Forall (fun c => is_white_space c = true) l ->
  Forall (fun c => is_white_space c = true) (rev l).
Proof.
  intros H. apply Forall_forall. intros x Hx. apply in_rev in Hx.
  rewrite Forall_forall in H. apply H. exact Hx.
Qed.

(** X1.  [trim], as line 189 uses it, removes the whitespace at both ends
    and nothing else: the value is some whitespace, then the trimmed text,
    then some whitespace, and the trimmed text neither starts nor ends with
    whitespace. *)
Theorem trim_removes_surrounding_whitespace :
  forall s : jsstring,
    (exists lead trail,
        s = lead ++ trim s ++ trail /\
        Forall (fun c => is_white_space c = true) lead /\
        Forall (fun c => is_white_space c = true) trail) /\
    match trim s with
    | c :: _ => is_white_space c = false
    | [] => True
    end /\
    match rev (trim s) with
    | c :: _ => is_white_space c = false
    | [] => True
    end.
Proof.
  intros s. unfold trim, trimEnd.
  destruct (trimStart_split s) as (lead & Es & Hlead).
  destruct (trimStart_split (rev (trimStart s))) as (trail & Et & Htrail).
  assert (E1 : trimStart s =
               rev (trimStart (rev (trimStart s))) ++ rev trail).
  { rewrite <- rev_app_distr, <- Et, rev_involutive. reflexivity. }
  split; [|split].
  - exists lead, (rev trail). split; [|split].
    + rewrite <- E1. exact Es.
    + exact Hlead.
    + apply Forall_rev_whitespace. exact Htrail.
  - pose proof (trimStart_head s) as Hh. rewrite E1 in Hh.
    destruct (rev (trimStart (rev (trimStart s)))) as [|c r]; [exact I|].
    exact Hh.
  - rewrite rev_involutive. apply trimStart_head.
Qed.

Lemma trim_whitespace (s : jsstring) :
  Forall (fun c => is_white_space c = true) s -> trim s = [].
Proof.
  intros H. unfold trim, trimEnd. rewrite (trimStart_whitespace H).
  reflexivity.
Qed.

(** What [escapeHtml] writes for one code unit, by cases. *)
Lemma escapeHtml_unit (c : code_unit) :
  replace_apostrophes (Html.escape_unit c) =
  if c =? Html.AMP then lit "&amp;"
  else if c =? Html.NBSP then lit "&nbsp;"
  else if c =? Html.LT then lit "&lt;"
  else if c =? Html.GT then lit "&gt;"
  else if c =? Html.APOS then lit "&#39;"
  else [c].
Proof.
  unfold Html.escape_unit.
  destruct (N.eqb_spec c Html.AMP) as [->|]; [reflexivity|].
  destruct (N.eqb_spec c Html.NBSP) as [->|]; [reflexivity|].
  destruct (N.eqb_spec c Html.LT) as [->|]; [reflexivity|].
  destruct (N.eqb_spec c Html.GT) as [->|]; [reflexivity|].
  simpl. destruct (N.eqb_spec c Html.APOS) as [->|]; reflexivity.
Qed.

Lemma escapeHtml_app (a b : jsstring) :
  escapeHtml (a ++ b) = escapeHtml a ++ escapeHtml b.
Proof.
  induction a as [|c a IH]; [reflexivity|].
  simpl app. rewrite !escapeHtml_cons, IH. apply app_assoc.
Qed.

(** X2.  The text [escapeHtml] returns holds no less-than sign, no
    greater-than sign, no apostrophe and no no-break space, whatever it was
    given. *)
Theorem escapeHtml_leaves_no_markup :
  forall s : jsstring,
    Forall (fun c => c <> Html.LT /\ c <> Html.GT /\ c <> Html.APOS /\
                     c <> Html.NBSP)
           (escapeHtml s).
Proof.
  induction s as [|c s IH]; [constructor|].
  rewrite escapeHtml_cons, escapeHtml_unit. apply Forall_app. split; [|exact IH].
  destruct (N.eqb_spec c Html.AMP);
    [repeat constructor; discriminate|].
  destruct (N.eqb_spec c Html.NBSP);
    [repeat constructor; discriminate|].
  destruct (N.eqb_spec c Html.LT);
    [repeat constructor; discriminate|].
  destruct (N.eqb_spec c Html.GT);
    [repeat constructor; discriminate|].
  destruct (N.eqb_spec c Html.APOS);
    [repeat constructor; discriminate|].
  repeat constructor; assumption.
Qed.

Lemma escapeHtml_length (s : jsstring) :
  (List.length s <= List.length (escapeHtml s))%nat /\
  (existsb escaped_unit s = true ->
   List.length s < List.length (escapeHtml s))%nat.
Proof.
  induction s as [|c s [IH1 IH2]]; [split; [simpl; lia|discriminate]|].
  rewrite escapeHtml_cons, escapeHtml_unit, length_app.
  simpl existsb. unfold escaped_unit at 1.
  destruct (N.eqb_spec c Html.AMP); [simpl; split; intros; lia|].
  destruct (N.eqb_spec c Html.NBSP); [simpl; split; intros; lia|].
  destruct (N.eqb_spec c Html.LT); [simpl; split; intros; lia|].
  destruct (N.eqb_spec c Html.GT); [simpl; split; intros; lia|].
  destruct (N.eqb_spec c Html.APOS); [simpl; split; intros; lia|].
  simpl. split; [lia|]. intros H. specialize (IH2 H). lia.
Qed.

(** X3.  [escapeHtml] returns its argument unchanged exactly when the
    argument holds none of the five code units it rewrites (ampersand,
    no-break space, less-than, greater-than, apostrophe); a quotation mark
    or a backslash, in particular, passes through as it is. *)
Theorem escapeHtml_changes_five_units_only :
  forall s : jsstring,
    escapeHtml s = s <-> existsb escaped_unit s = false.
Proof.
  intros s. split.
  - intros E. destruct (existsb escaped_unit s) eqn:Ex; [|reflexivity].
    pose proof (proj2 (escapeHtml_length s) Ex) as H.
    rewrite E in H. lia.
  - induction s as [|c s IH]; [reflexivity|].
    simpl. intros H. apply orb_false_iff in H. destruct H as [Hc Hs].
    rewrite escapeHtml_cons, escapeHtml_unit, (IH Hs).
    unfold escaped_unit in Hc.
    repeat (apply orb_false_iff in Hc; destruct Hc as [Hc ?]).
    rewrite Hc.
    repeat match goal with
           | H : (_ =? _) = false |- _ => rewrite H; clear H
           end.
    reflexivity.
Qed.

Lemma escapeHtml_changes_five_units_only_witness :
  escapeHtml (json_lit "say 'hi' \o/") = json_lit "say 'hi' \o/".
Proof.
  apply (proj2 (escapeHtml_changes_five_units_only
                  (json_lit "say 'hi' \o/"))).
  reflexivity.
Defined.


(** ** Tabs and listeners *)

Lemma set_attr_same (el : Element) (a : Attr) (v : value) (w : World) :
  attrs (snd (set_attr el a v w)) el a = v.
Proof.
  simpl. rewrite (@internal_Element_dec_lb el el eq_refl).
  rewrite (@internal_Attr_dec_lb a a eq_refl). reflexivity.
Qed.

Lemma set_attr_other (el el' : Element) (a a' : Attr) (v : value)
  (w : World) :
  el <> el' \/ a <> a' ->
  attrs (snd (set_attr el a v w)) el' a' = attrs w el' a'.
Proof.
  intros H. simpl.
  destruct (Element_beq el el') eqn:Ee; [|reflexivity].
  destruct (Attr_beq a a') eqn:Ea; [|reflexivity].
  apply internal_Element_dec_bl in Ee. apply internal_Attr_dec_bl in Ea.
  tauto.
Qed.

(** A loop that sets the class [active] on the elements [mk i], [mk (i+1)],
    ... from the items of a list. *)
Lemma forEach_class_active (mk : nat -> Element) (f : jsstring -> bool)
  (items : list jsstring) :
  (forall n m, mk n = mk m -> n = m) ->
  forall i w,
    (forall k x,
        nth_error items k = Some x ->
        attrs (snd (forEach (fun x n => set_attr (mk n) class_active
                                                 (VBool (f x)))
                            i items w))
              (mk (i + k)%nat) class_active = VBool (f x)) /\
    (forall el a,
        (forall n, (i <= n)%nat -> el <> mk n) \/ a <> class_active ->
        attrs (snd (forEach (fun x n => set_attr (mk n) class_active
                                                 (VBool (f x)))
                            i items w))
              el a = attrs w el a).
Proof.
  intros Hinj. induction items as [|x items IH]; intros i w.
  - split; [intros [|k] y H; discriminate H|reflexivity].
  - set (F := fun x n => set_attr (mk n) class_active (VBool (f x))).
    set (w1 := snd (set_attr (mk i) class_active (VBool (f x)) w)).
    assert (E : forEach F i (x :: items) w = forEach F (S i) items w1)
      by reflexivity.
    rewrite E. destruct (IH (S i) w1) as [IHhit IHmiss]. fold F in IHhit, IHmiss.
    split.
    + intros [|k] y Hy.
      * injection Hy as <-. rewrite Nat.add_0_r.
        rewrite IHmiss; [apply set_attr_same|].
        left. intros n Hn E'. apply Hinj in E'. lia.
      * replace (i + S k)%nat with (S i + k)%nat by lia.
        apply IHhit. exact Hy.
    + intros el a H. rewrite IHmiss.
      * apply set_attr_other. destruct H as [H|H].
        -- left. intros E'. apply (H i); [lia|]. symmetry. exact E'.
        -- right. intros E'. apply H. symmetry. exact E'.
      * destruct H as [H|H]; [left|right; exact H].
        intros n Hn. apply H. lia.
Qed.

(** X4.  After [switchTab(tabName)] a tab button is active exactly when its
    [data-tab] is [tabName], and a tab content exactly when its [id] is
    [tabName] followed by "-tab"; nothing is sent or shown, and
    [selectedImage] stays what it was. *)
Theorem switchTab_activates_the_named_tab :
  forall (env : Env) (tabName : jsstring) (w : World),
    (forall i tab,
        nth_error (tabBtns env) i = Some tab ->
        attrs (snd (switchTab env tabName w)) (tabBtn i) class_active =
        VBool (jsstring_eqb tab tabName)) /\
    (forall i id,
        nth_error (tabContents env) i = Some id ->
        attrs (snd (switchTab env tabName w)) (tabContent i) class_active =
        VBool (jsstring_eqb id (tabName ++ lit "-tab"))) /\
    trace (snd (switchTab env tabName w)) = trace w /\
    selectedImage (snd (switchTab env tabName w)) = selectedImage w.
Proof.
  intros env tabName w.
  pose proof (keeps_switchTab (R:=same_trace) env tabName w) as Ht.
  pose proof (keeps_switchTab (R:=same_selectedImage) env tabName w) as Hs.
  split; [|split; [|split; assumption]].
  - intros i tab Hi. unfold switchTab, bind.
    destruct (forEach _ O (tabBtns env) w) as [o w1] eqn:E1.
    assert (Hw1 : attrs w1 (tabBtn i) class_active =
                  VBool (jsstring_eqb tab tabName)).
    { pose proof (proj1 (@forEach_class_active tabBtn
                           (fun tab => jsstring_eqb tab tabName)
                           (tabBtns env)
                           ltac:(intros n m H; injection H; trivial) O w)
                        i tab Hi) as H.
      cbv beta in H. rewrite E1 in H. exact H. }
    destruct o as [[]|e]; [|exact Hw1].
    pose proof (proj2 (@forEach_class_active tabContent
                         (fun id => jsstring_eqb id (tabName ++ lit "-tab"))
                         (tabContents env)
                         ltac:(intros n m H; injection H; trivial) O w1)
                      (tabBtn i) class_active) as H.
    cbv beta in H. rewrite H; [exact Hw1|].
    left. intros n _. discriminate.
  - intros i id Hi. unfold switchTab, bind.
    destruct (forEach _ O (tabBtns env) w) as [o w1] eqn:E1.
    assert (Ho : o = Normal tt).
    { pose proof (@forEach_normal jsstring
                    (fun tab i => set_attr (tabBtn i) class_active
                                    (VBool (jsstring_eqb tab tabName)))
                    (tabBtns env)
                    ltac:(intros; exists tt; reflexivity) O w) as [[] H].
      rewrite E1 in H. exact H. }
    subst o.
    apply (proj1 (@forEach_class_active tabContent
                    (fun id => jsstring_eqb id (tabName ++ lit "-tab"))
                    (tabContents env)
                    ltac:(intros n m H; injection H; trivial) O w1)
                 i id Hi).
Qed.

Lemma switchTab_activates_the_named_tab_witness :
  attrs (snd (switchTab unreachable_env (lit "text") initial))
        (tabBtn 1) class_active = VBool true /\
  attrs (snd (switchTab unreachable_env (lit "text") initial))
        (tabContent 0) class_active = VBool false.
Proof.
  split.
  - apply (proj1 (switchTab_activates_the_named_tab unreachable_env
                    (lit "text") initial) 1%nat (lit "text")).
    reflexivity.
  - apply (proj1 (proj2 (switchTab_activates_the_named_tab unreachable_env
                           (lit "text") initial)) 0%nat (lit "image-tab")).
    reflexivity.
Defined.

Lemma forEach_tab_listeners (tabs : list jsstring) :
  forall i w,
    forEach (fun tab i =>
               addEventListener (tabBtn i) (lit "click") (on_tab_click tab))
            i tabs w =
    (Normal tt, set_listeners (listeners w ++ tab_listeners i tabs) w).
Proof.
  induction tabs as [|tab tabs IH]; intros i w.
  - simpl. rewrite app_nil_r. destruct w; reflexivity.
  - cbn [forEach tab_listeners]. unfold bind, addEventListener at 1, modify.
    rewrite IH. unfold set_listeners. cbn [listeners].
    rewrite <- app_assoc. reflexivity.
Qed.



(** ** The generate functions beyond their requests *)

Lemma try_catch_show_exception_normal (body : M unit) (w : World) :
  fst (try_catch body show_exception w) = Normal tt.
Proof.
  unfold try_catch. destruct (body w) as [[[]|e] w']; reflexivity.
Qed.

(** The guarded part of both generate functions completes normally and
    ends with the loading state switched off. *)
Lemma guarded_completes (body : M unit) (type : jsstring) (w : World) :
  fst (try_finally (try_catch body show_exception)
                   (setLoadingState false type) w) = Normal tt.
Proof.
  unfold try_finally.
  pose proof (try_catch_show_exception_normal body w) as H.
  destruct (try_catch body show_exception w) as [r w1]. simpl in H. subst r.
  destruct (setLoadingState_world false type w1) as [f ->]. reflexivity.
Qed.

Lemma guarded_text_not_loading (body : M unit) (w : World) :
  not_loading (snd (try_finally (try_catch body show_exception)
                                (setLoadingState false (lit "text")) w))
              generateFromText generateTextText textSpinner.
Proof.
  unfold try_finally. destruct (try_catch body show_exception w) as [r w1].
  repeat split.
Qed.

Lemma guarded_image_not_loading (body : M unit) (w : World) :
  not_loading (snd (try_finally (try_catch body show_exception)
                                (setLoadingState false (lit "image")) w))
              generateFromImage generateImageText imageSpinner.
Proof.
  unfold try_finally. destruct (try_catch body show_exception w) as [r w1].
  repeat split.
Qed.

(** X6.  Both generate functions complete normally whatever the server
    does: every exception of the request, of the decoding and of the
    display is caught.  When they got past their guard they end with the
    loading state of their button switched off: button enabled, label
    shown, spinner hidden. *)
Theorem generate_functions_end_not_loading :
  forall (env : Env) (w : World),
    fst (generateCaptionsFromText env w) = Normal tt /\
    fst (generateCaptionsFromImage env w) = Normal tt /\
    ((10 <= strlen (trim (textBrief_value w)))%nat ->
     not_loading (snd (generateCaptionsFromText env w))
                 generateFromText generateTextText textSpinner) /\
    (selectedImage w <> None ->
     not_loading (snd (generateCaptionsFromImage env w))
                 generateFromImage generateImageText imageSpinner).
Proof.
  intros env w. split; [|split; [|split]].
  - unfold generateCaptionsFromText. cbv [bind read].
    destruct (too_short (trim (textBrief_value w))); [reflexivity|].
    destruct (setLoadingState_world true (lit "text") w) as [f ->].
    apply guarded_completes.
  - unfold generateCaptionsFromImage. cbv [bind read].
    destruct (selectedImage w) as [image|]; [|reflexivity].
    destruct (setLoadingState_world true (lit "image") w) as [f ->].
    apply guarded_completes.
  - intros H. unfold generateCaptionsFromText. cbv [bind read].
    rewrite too_short_spec.
    destruct (Nat.ltb_spec (strlen (trim (textBrief_value w))) 10); [lia|].
    destruct (setLoadingState_world true (lit "text") w) as [f ->].
    apply guarded_text_not_loading.
  - intros H. unfold generateCaptionsFromImage. cbv [bind read].
    destruct (selectedImage w) as [image|]; [|congruence].
    destruct (setLoadingState_world true (lit "image") w) as [f ->].
    apply guarded_image_not_loading.
Qed.

Lemma generate_functions_end_not_loading_witness :
  not_loading (snd (generateCaptionsFromText (answering_env bad_gateway)
                      (set_textBrief_value sample_brief initial)))
              generateFromText generateTextText textSpinner /\
  not_loading (snd (generateCaptionsFromImage unreachable_env
                      (set_selectedImage (Some sample_image) initial)))
              generateFromImage generateImageText imageSpinner.
Proof.
  split.
  - apply (proj1 (proj2 (proj2 (generate_functions_end_not_loading
                                  (answering_env bad_gateway)
                                  (set_textBrief_value sample_brief
                                                       initial))))).
    vm_compute. lia.
  - apply (proj2 (proj2 (proj2 (generate_functions_end_not_loading
                                  unreachable_env
                                  (set_selectedImage (Some sample_image)
                                                     initial))))).
    discriminate.
Defined.

Lemma guarded_network_failure (env : Env) (request : Request)
  (message type : jsstring) (w0 w : World) :
  trace w = trace w0 ->
  server env (fetches (trace w0)) request = NetworkFailure message ->
  trace (snd (try_finally
                (try_catch (bind (fetch env request) (show_response env))
                           show_exception)
                (setLoadingState false type) w)) =
  trace w0 ++ [Fetch request;
               Toast (VString (lit "Error: " ++ message)) (lit "error")].
Proof.
  intros Ht Hs. rewrite <- Ht in Hs.
  cbv [try_finally try_catch bind fetch read emit modify].
  rewrite Hs.
  cbv [throw show_exception showToast bind emit set_attr modify].
  match goal with
  | |- context [setLoadingState false type ?w1] =>
    destruct (setLoadingState_world false type w1) as [f ->]
  end.
  simpl. rewrite <- app_assoc, Ht. reflexivity.
Qed.

(** X7.  When the request of a generate function fails on the network, the
    page shows one error toast, "Error: " followed by the message of the
    failure, after the request and nothing else: no result is displayed. *)
Theorem network_failure_shows_its_message :
  forall (env : Env) (w : World) (message : jsstring),
    ((10 <= strlen (trim (textBrief_value w)))%nat ->
     server env (fetches (trace w)) (text_request (trim (textBrief_value w)))
       = NetworkFailure message ->
     trace (snd (generateCaptionsFromText env w)) =
       trace w ++ [Fetch (text_request (trim (textBrief_value w)));
                   Toast (VString (lit "Error: " ++ message)) (lit "error")])
    /\
    (forall image,
        selectedImage w = Some image ->
        server env (fetches (trace w)) (image_request image)
          = NetworkFailure message ->
        trace (snd (generateCaptionsFromImage env w)) =
          trace w ++ [Fetch (image_request image);
                      Toast (VString (lit "Error: " ++ message))
                            (lit "error")]).
Proof.
  intros env w message. split.
  - intros Hlen Hs. unfold generateCaptionsFromText. cbv [bind read].
    rewrite too_short_spec.
    destruct (Nat.ltb_spec (strlen (trim (textBrief_value w))) 10); [lia|].
    destruct (setLoadingState_world true (lit "text") w) as [f ->].
    rewrite JSON_stringify_text_brief.
    apply (@guarded_network_failure env
             (text_request (trim (textBrief_value w))) message (lit "text")
             w (set_attrs f w)); auto.
  - intros image Hsel Hs. unfold generateCaptionsFromImage. cbv [bind read].
    rewrite Hsel.
    destruct (setLoadingState_world true (lit "image") w) as [f ->].
    apply (@guarded_network_failure env (image_request image) message
             (lit "image") w (set_attrs f w)); auto.
Qed.

Lemma network_failure_shows_its_message_witness :
  trace (snd (generateCaptionsFromText unreachable_env
                (set_textBrief_value sample_brief initial))) =
  [Fetch (text_request (lit "New eco bottle!"));
   Toast (VString (lit "Error: Failed to fetch")) (lit "error")].
Proof.
  apply (proj1 (network_failure_shows_its_message unreachable_env
                  (set_textBrief_value sample_brief initial)
                  (lit "Failed to fetch"))).
  - vm_compute. lia.
  - reflexivity.
Defined.

(** X8.  A brief that is whitespace only is rejected whatever its length:
    [generateCaptionsFromText] shows "Please enter at least 10 characters."
    and sends nothing. *)
Theorem whitespace_brief_is_rejected :
  forall (env : Env) (w : World),
    Forall (fun c => is_white_space c = true) (textBrief_value w) ->
    trace (snd (generateCaptionsFromText env w)) =
    trace w ++ [Toast (VString (lit "Please enter at least 10 characters."))
                      (lit "error")].
Proof.
  intros env w H. rewrite generateCaptionsFromText_rejects.
  - apply showToast_trace.
  - rewrite (trim_whitespace H). simpl. lia.
Qed.

Lemma whitespace_brief_is_rejected_witness :
  trace (snd (generateCaptionsFromText unreachable_env
                (set_textBrief_value
                   (lit "            " ++ [160; 10; 9; 8195]) initial))) =
  [Toast (VString (lit "Please enter at least 10 characters."))
         (lit "error")].
Proof.
  apply (whitespace_brief_is_rejected unreachable_env
           (set_textBrief_value (lit "            " ++ [160; 10; 9; 8195])
                                initial)).
  repeat constructor.
Defined.


(** ** What [displayResults] leaves on the page *)

Lemma bind_normal {A B : Type} (c : M A) (k : A -> M B) (w w' : World)
  (a : A) :
  c w = (Normal a, w') -> bind c k w = k a w'.
Proof. intros H. unfold bind. rewrite H. reflexivity. Qed.

Lemma bind_thrown {A B : Type} (c : M A) (k : A -> M B) (w w' : World)
  (e : Exn) :
  c w = (Thrown e, w') -> bind c k w = (Thrown e, w').
Proof. intros H. unfold bind. rewrite H. reflexivity. Qed.

Lemma set_captionsGrid_children_nil (w : World) :
  set_captionsGrid_children (captionsGrid_children w ++ []) w = w.
Proof.
  destruct w. unfold set_captionsGrid_children. simpl.
  rewrite app_nil_r. reflexivity.
Qed.

Lemma set_hashtagsGrid_children_nil (w : World) :
  set_hashtagsGrid_children (hashtagsGrid_children w ++ []) w = w.
Proof.
  destruct w. unfold set_hashtagsGrid_children. simpl.
  rewrite app_nil_r. reflexivity.
Qed.

Lemma forallb_readable_caption (items : list value) :
  forallb readable_caption items = true <-> find is_nullish items = None.
Proof.
  induction items as [|x rest IH]; simpl; [tauto|].
  unfold readable_caption at 1. destruct (is_nullish x); simpl.
  - split; discriminate.
  - exact IH.
Qed.

Lemma take_while_all {A : Type} (p : A -> bool) (items : list A) :
  forallb p items = true -> take_while p items = items.
Proof.
  induction items as [|x rest IH]; simpl; [reflexivity|].
  destruct (p x); simpl; [|discriminate].
  intros H. rewrite (IH H). reflexivity.
Qed.

Lemma take_while_stops {A : Type} (p : A -> bool) (before after : list A)
  (bad : A) :
  forallb p before = true -> p bad = false ->
  take_while p (before ++ bad :: after) = before.
Proof.
  intros Hb Hbad. induction before as [|x rest IH]; simpl in *.
  - rewrite Hbad. reflexivity.
  - destruct (p x); simpl in *; [|discriminate].
    rewrite (IH Hb). reflexivity.
Qed.

Lemma find_nullish_stops (before after : list value) (bad : value) :
  forallb readable_caption before = true -> is_nullish bad = true ->
  find is_nullish (before ++ bad :: after) = Some bad.
Proof.
  intros Hb Hbad. induction before as [|x rest IH]; simpl in *.
  - rewrite Hbad. reflexivity.
  - unfold readable_caption at 1 in Hb.
    destruct (is_nullish x); simpl in *; [discriminate|].
    exact (IH Hb).
Qed.

Section Display.

Variable env : Env.

Lemma member_property (object : value) (name : jsstring) (w : World) :
  is_nullish object = false ->
  member env object name w = (Normal (property object name), w).
Proof. destruct object; try discriminate; reflexivity. Qed.

Lemma member_nullish (object : value) (name : jsstring) (w : World) :
  is_nullish object = true ->
  member env object name w =
  (Thrown (TypeError (engine_message env (CannotReadProperty object name))),
   w).
Proof. destruct object; try discriminate; reflexivity. Qed.

Lemma createCaptionCard_readable (caption : value) (index : nat) (w : World) :
  is_nullish caption = false ->
  createCaptionCard env caption index w = (Normal (caption_card_of caption), w).
Proof.
  intros H. unfold createCaptionCard.
  do 3 (erewrite bind_normal by (apply member_property; exact H)).
  reflexivity.
Qed.

Lemma createCaptionCard_nullish (caption : value) (index : nat) (w : World) :
  is_nullish caption = true ->
  createCaptionCard env caption index w =
  (Thrown (TypeError (engine_message env
                        (CannotReadProperty caption (lit "tone")))), w).
Proof.
  intros H. unfold createCaptionCard.
  erewrite bind_thrown by (apply member_nullish; exact H).
  reflexivity.
Qed.

(** The loop of lines 228-231 appends the cards of the captions before the
    first [null] or [undefined] one, and throws at that one. *)
Lemma forEach_captions (items : list value) :
  forall (i : nat) (w : World),
    forEach (fun caption index =>
               captionCard <- createCaptionCard env caption index ;;
               modify (fun w =>
                 set_captionsGrid_children
                   (captionsGrid_children w ++ [captionCard]) w))
            i items w =
    (match find is_nullish items with
     | None => Normal tt
     | Some bad =>
       Thrown (TypeError (engine_message env
                            (CannotReadProperty bad (lit "tone"))))
     end,
     set_captionsGrid_children
       (captionsGrid_children w ++
        List.map caption_card_of (take_while readable_caption items)) w).
Proof.
  induction items as [|x rest IH]; intros i w.
  - simpl. rewrite set_captionsGrid_children_nil. reflexivity.
  - cbn [forEach find take_while]. unfold readable_caption at 1.
    destruct (is_nullish x) eqn:E; cbn [negb].
    + erewrite bind_thrown
        by (erewrite bind_thrown
              by (apply createCaptionCard_nullish; exact E);
            reflexivity).
      simpl. rewrite set_captionsGrid_children_nil. reflexivity.
    + erewrite bind_normal
        by (erewrite bind_normal
              by (apply createCaptionCard_readable; exact E);
            reflexivity).
      rewrite IH. f_equal. unfold set_captionsGrid_children. simpl.
      rewrite <- app_assoc. reflexivity.
Qed.

Lemma createHashtagCard_readable (set : value) (index : nat) (w : World) :
  readable_set set = true ->
  createHashtagCard env set index w = (Normal (hashtag_card_of set), w).
Proof.
  unfold readable_set, hashtag_card_of. intros H.
  apply andb_true_iff in H as [H1 H2]. apply negb_true_iff in H1.
  destruct (property set (lit "hashtags")) as [| | | | |items|] eqn:E;
    try discriminate.
  unfold createHashtagCard.
  erewrite bind_normal by (apply member_property; exact H1).
  rewrite E.
  erewrite bind_normal by reflexivity.
  erewrite bind_normal by (apply member_property; exact H1).
  erewrite bind_normal by (apply member_property; exact H1).
  rewrite E.
  erewrite bind_normal by reflexivity.
  reflexivity.
Qed.

Lemma createHashtagCard_unreadable (set : value) (index : nat) (w : World) :
  readable_set set = false ->
  exists e, createHashtagCard env set index w = (Thrown e, w).
Proof.
  unfold readable_set. intros H. unfold createHashtagCard.
  destruct (is_nullish set) eqn:E1.
  - eexists. erewrite bind_thrown by (apply member_nullish; exact E1).
    reflexivity.
  - erewrite bind_normal by (apply member_property; exact E1).
    simpl in H.
    destruct (property set (lit "hashtags")) eqn:E; try discriminate;
      eexists; erewrite bind_thrown by reflexivity; reflexivity.
Qed.

(** The loop of lines 235-238 appends the cards of the sets before the
    first one it cannot read, and throws at that one. *)
Lemma forEach_hashtags (sets : list value) :
  forall (i : nat) (w : World),
  exists r,
    forEach (fun set index =>
               hashtagCard <- createHashtagCard env set index ;;
               modify (fun w =>
                 set_hashtagsGrid_children
                   (hashtagsGrid_children w ++ [hashtagCard]) w))
            i sets w =
    (r, set_hashtagsGrid_children
          (hashtagsGrid_children w ++
           List.map hashtag_card_of (take_while readable_set sets)) w) /\
    (forallb readable_set sets = true -> r = Normal tt) /\
    (forallb readable_set sets = false -> exists e, r = Thrown e).
Proof.
  induction sets as [|x rest IH]; intros i w.
  - exists (Normal tt). simpl. rewrite set_hashtagsGrid_children_nil.
    repeat split. discriminate.
  - cbn [forEach forallb take_while].
    destruct (readable_set x) eqn:E; cbn [andb].
    + erewrite bind_normal
        by (erewrite bind_normal
              by (apply createHashtagCard_readable; exact E);
            reflexivity).
      destruct (IH (S i)
                   (set_hashtagsGrid_children
                      (hashtagsGrid_children w ++ [hashtag_card_of x]) w))
        as (r & Hr & Hn & Ht).
      exists r. rewrite Hr. split; [|split; assumption].
      f_equal. unfold set_hashtagsGrid_children. simpl.
      rewrite <- app_assoc. reflexivity.
    + destruct (createHashtagCard_unreadable x i w E) as [e He].
      exists (Thrown e).
      erewrite bind_thrown
        by (erewrite bind_thrown by exact He; reflexivity).
      simpl. rewrite set_hashtagsGrid_children_nil.
      split; [reflexivity|]. split; [discriminate|]. intros _. eauto.
Qed.

Lemma createPostingTimeContent_readable (postingTime : value) (w : World) :
  is_nullish postingTime = false ->
  createPostingTimeContent env postingTime w =
  (Normal (posting_time_content_of postingTime), w).
Proof.
  intros H. unfold createPostingTimeContent.
  do 3 (erewrite bind_normal by (apply member_property; exact H)).
  reflexivity.
Qed.

Lemma createPostingTimeContent_nullish (postingTime : value) (w : World) :
  is_nullish postingTime = true ->
  exists e, createPostingTimeContent env postingTime w = (Thrown e, w).
Proof.
  intros H. unfold createPostingTimeContent. eexists.
  erewrite bind_thrown by (apply member_nullish; exact H).
  reflexivity.
Qed.

Ltac run_normal tac := erewrite bind_normal by tac.
Ltac run_thrown tac := erewrite bind_thrown by tac.

Ltac not_displayable :=
  unfold displayable;
  repeat match goal with
         | H : is_nullish _ = _ |- _ => rewrite H
         | H : property _ _ = _ |- _ => rewrite H
         | H : forallb _ _ = _ |- _ => rewrite H
         end;
  cbn [negb andb]; rewrite ?andb_false_r; reflexivity.

Ltac has_stopped :=
  right; split; [not_displayable|];
  split; [eexists; reflexivity|];
  unfold stopped; cbn; rewrite <- ?app_assoc; repeat split.

(** [displayResults] either displays its argument to the end or stops at an
    exception before the posting-time card and the results section are
    touched. *)
Lemma displayResults_outcome (data : value) (w : World) :
  (displayable data = true /\
   fst (displayResults env data w) = Normal tt /\
   shows_result w (snd (displayResults env data w)) data) \/
  (displayable data = false /\
   (exists e, fst (displayResults env data w) = Thrown e) /\
   stopped w (snd (displayResults env data w)) data).
Proof.
  unfold displayResults.
  run_normal reflexivity.
  destruct (is_nullish data) eqn:Ed.
  { run_thrown ltac:(apply member_nullish; exact Ed). has_stopped. }
  run_normal ltac:(apply member_property; exact Ed).
  run_normal reflexivity. run_normal reflexivity.
  run_normal ltac:(apply member_property; exact Ed).
  destruct (property data (lit "captions")) as [| | | | |captions|] eqn:Ec;
    try (run_thrown reflexivity; has_stopped).
  run_normal reflexivity.
  destruct (find is_nullish captions) as [bad|] eqn:Efind.
  { assert (Ef : forallb readable_caption captions = false).
    { destruct (forallb readable_caption captions) eqn:Ef; [|reflexivity].
      apply forallb_readable_caption in Ef. congruence. }
    run_thrown ltac:(rewrite forEach_captions, Efind; reflexivity).
    has_stopped. }
  assert (Ef : forallb readable_caption captions = true)
    by (apply forallb_readable_caption; exact Efind).
  run_normal ltac:(rewrite forEach_captions, Efind; reflexivity).
  run_normal reflexivity.
  run_normal ltac:(apply member_property; exact Ed).
  destruct (property data (lit "hashtag_sets")) as [| | | | |sets|] eqn:Eh;
    try (run_thrown reflexivity; has_stopped).
  run_normal reflexivity.
  match goal with
  | |- context [bind (forEach _ O sets) _ ?W] =>
    destruct (forEach_hashtags sets O W) as (r & Hr & Hn & Ht)
  end.
  destruct (forallb readable_set sets) eqn:Es.
  2: { destruct (Ht eq_refl) as [e He].
       run_thrown ltac:(rewrite Hr, He; reflexivity). has_stopped. }
  run_normal ltac:(rewrite Hr, (Hn eq_refl); reflexivity).
  run_normal ltac:(apply member_property; exact Ed).
  destruct (is_nullish (property data (lit "posting_time"))) eqn:Ep.
  { match goal with
    | |- context [bind (createPostingTimeContent env ?p) _ ?W] =>
      destruct (@createPostingTimeContent_nullish p W Ep) as [e He]
    end.
    run_thrown ltac:(exact He). has_stopped. }
  run_normal ltac:(apply createPostingTimeContent_readable; exact Ep).
  run_normal reflexivity. run_normal reflexivity.
  left. split.
  { unfold displayable. rewrite Ed, Ec, Eh, Ef, Es, Ep. reflexivity. }
  split; [reflexivity|].
  unfold shows_result. rewrite Ec, Eh. cbn.
  rewrite (take_while_all _ _ Ef), (take_while_all _ _ Es).
  rewrite <- ?app_assoc. repeat split.
Qed.

End Display.

(** X9.  [displayResults] completes exactly on displayable data: an
    argument that is not [null] or [undefined], whose [captions] is an array
    without [null] or [undefined] items, whose [hashtag_sets] is an array of
    such items each with an array as [hashtags], and whose [posting_time] is
    not [null] or [undefined].  On anything else it throws. *)
Theorem displayResults_completes_iff_displayable :
  forall (env : Env) (data : value) (w : World),
    fst (displayResults env data w) = Normal tt <-> displayable data = true.
Proof.
  intros env data w.
  destruct (displayResults_outcome env data w)
    as [(Hd & Hn & _)|(Hd & (e & He) & _)].
  - tauto.
  - rewrite He, Hd. split; discriminate.
Qed.

Lemma displayResults_completes_iff_displayable_witness :
  fst (displayResults unreachable_env sample_data initial) = Normal tt /\
  displayable sample_half_data = false.
Proof.
  split.
  - apply (proj2 (displayResults_completes_iff_displayable
                    unreachable_env sample_data initial)).
    reflexivity.
  - destruct (displayable sample_half_data) eqn:E; [|reflexivity].
    apply (proj2 (displayResults_completes_iff_displayable
                    unreachable_env sample_half_data initial)) in E.
    discriminate E.
Defined.



(** X11.  On data it cannot display to the end [displayResults] stops
    before the posting-time card and the results section: the card keeps its
    content, the section keeps its visibility, nothing is scrolled. *)
Theorem displayResults_stops_before_the_results_section :
  forall (env : Env) (data : value) (w : World),
    displayable data = false ->
    stopped w (snd (displayResults env data w)) data.
Proof.
  intros env data w H.
  destruct (displayResults_outcome env data w)
    as [(Hd & _)|(_ & _ & Hs)].
  - congruence.
  - exact Hs.
Qed.

Lemma displayResults_stops_before_the_results_section_witness :
  stopped initial (snd (displayResults unreachable_env sample_half_data
                                       initial))
          sample_half_data.
Proof.
  apply (displayResults_stops_before_the_results_section
           unreachable_env sample_half_data initial).
  reflexivity.
Defined.




(** ** A response that is ok *)

(** What the page shows of [data] when a generate function has displayed
    it: the three parts of the result, after the request and without a
    toast. *)
Lemma guarded_ok (env : Env) (request : Request) (r : Response)
  (data : value) (type : jsstring) (w0 w : World) :
  trace w = trace w0 ->
  server env (fetches (trace w0)) request = Responded r ->
  resp_ok r = true -> resp_json r = inl data ->
  exists tail w',
    snd (try_finally
           (try_catch (bind (fetch env request) (show_response env))
                      show_exception)
           (setLoadingState false type) w) = w' /\
    trace w' = trace w0 ++ Fetch request :: Display data :: tail /\
    (displayable data = true ->
     tail = [ScrollIntoView resultsSection] /\
     captionsGrid_children w' =
       List.map caption_card_of
                (array_items (property data (lit "captions"))) /\
     hashtagsGrid_children w' =
       List.map hashtag_card_of
                (array_items (property data (lit "hashtag_sets"))) /\
     postingTimeCard_innerHTML w' =
       Some (posting_time_content_of (property data (lit "posting_time"))))
    /\
    (displayable data = false ->
     exists message,
       tail = [Toast (VString (lit "Error: " ++ message)) (lit "error")]).
Proof.
  intros Ht Hs Hok Hj. rewrite <- Ht in Hs.
  cbv [try_finally try_catch bind fetch read emit modify].
  rewrite Hs. cbv [ret show_response bind json]. rewrite Hj, Hok.
  match goal with
  | |- context [displayResults env data ?W] =>
    pose proof (displayResults_outcome env data W) as H;
    destruct (displayResults env data W) as [[[]|e] w2]
  end.
  - destruct H as [(Hd & _ & Hsr)|(_ & (e & He) & _)]; [|discriminate He].
    destruct (setLoadingState_world false type w2) as [f ->].
    destruct Hsr as (_ & Hc & Hh & Hp & _ & Htr). simpl in *.
    eexists; eexists; (split; [reflexivity|]). simpl.
    rewrite Htr, <- app_assoc, Ht. simpl.
    split; [reflexivity|]. split; [|congruence].
    intros _. repeat split; assumption.
  - destruct H as [(_ & Hn & _)|(Hd & _ & (Htr & _))]; [discriminate Hn|].
    simpl in Htr.
    cbv [show_exception showToast bind emit set_attr modify].
    match goal with
    | |- context [setLoadingState false type ?w1] =>
      destruct (setLoadingState_world false type w1) as [f ->]
    end.
    eexists; eexists; (split; [reflexivity|]). simpl.
    rewrite Htr, <- !app_assoc, Ht. simpl.
    split; [reflexivity|]. split; [congruence|].
    intros _. eexists. reflexivity.
Qed.

(** The answer an environment's server gives to the request of each
    generate function in state [w]. *)
Lemma generateCaptionsFromText_guarded (env : Env) (w : World) :
  (10 <= strlen (trim (textBrief_value w)))%nat ->
  exists f,
    generateCaptionsFromText env w =
    try_finally
      (try_catch (bind (fetch env (text_request (trim (textBrief_value w))))
                       (show_response env))
                 show_exception)
      (setLoadingState false (lit "text")) (set_attrs f w).
Proof.
  intros Hlen. unfold generateCaptionsFromText. cbv [bind read].
  rewrite too_short_spec.
  destruct (Nat.ltb_spec (strlen (trim (textBrief_value w))) 10); [lia|].
  destruct (setLoadingState_world true (lit "text") w) as [f ->].
  rewrite JSON_stringify_text_brief. exists f. reflexivity.
Qed.

Lemma generateCaptionsFromImage_guarded (env : Env) (w : World)
  (image : File) :
  selectedImage w = Some image ->
  exists f,
    generateCaptionsFromImage env w =
    try_finally
      (try_catch (bind (fetch env (image_request image)) (show_response env))
                 show_exception)
      (setLoadingState false (lit "image")) (set_attrs f w).
Proof.
  intros Hsel. unfold generateCaptionsFromImage. cbv [bind read].
  rewrite Hsel.
  destruct (setLoadingState_world true (lit "image") w) as [f ->].
  exists f. reflexivity.
Qed.






(** ** What [copyToClipboard] copies *)

Lemma rcdata_plain (table : Html.reference_table) (s : jsstring) :
  ~ In Html.AMP s -> ~ In Html.NUL s -> Html.rcdata table O s = s.
Proof.
  induction s as [|c rest IH]; intros Hamp Hnul; [reflexivity|].
  simpl in Hamp, Hnul. cbn [Html.rcdata].
  destruct (N.eqb_spec c Html.AMP) as [->|_]; [tauto|].
  destruct (N.eqb_spec c Html.NUL) as [->|_]; [tauto|].
  rewrite IH by tauto. reflexivity.
Qed.

Lemma normalize_newlines_bounded (n : nat) :
  forall s : jsstring,
    (List.length s <= n)%nat -> ~ In Html.CR (Html.normalize_newlines s).
Proof.
  induction n as [|n IH]; intros s Hlen.
  - destruct s; [intros []|simpl in Hlen; lia].
  - destruct s as [|c rest]; [intros []|].
    simpl in Hlen. cbn [Html.normalize_newlines].
    destruct (N.eqb_spec c Html.CR) as [->|Hc].
    + destruct rest as [|d rest'].
      * simpl. intros [H|[]]. discriminate H.
      * simpl in Hlen.
        intros [H|H]; [discriminate H|].
        destruct (d =? Html.LF); revert H; apply IH; simpl; lia.
    + intros [H|H]; [congruence|].
      revert H. apply IH. lia.
Qed.

Lemma unescapedText_no_CR (table : Html.reference_table) (text : jsstring) :
  ~ In Html.CR (unescapedText table text).
Proof.
  unfold unescapedText, Html.textarea_value_of_markup.
  eapply normalize_newlines_bounded. apply le_n.
Qed.



(** X16.  [copyToClipboard] never puts a carriage return on the clipboard:
    whatever its argument, the text it writes holds no U+000D (a carriage
    return of the argument, written out or as [&#13;], arrives as a line
    feed).  It shows exactly one toast, and writes at most one text. *)
Theorem copyToClipboard_writes_no_carriage_return :
  forall (env : Env) (text type : jsstring) (w : World),
  exists (written : list jsstring) (message : value) (kind : jsstring),
    trace (snd (copyToClipboard env text type w)) =
      trace w ++ List.map ClipboardWrite written ++ [Toast message kind] /\
    (List.length written <= 1)%nat /\
    Forall (fun s => ~ In Html.CR s) written /\
    (written = [] <-> kind = lit "error").
Proof.
  intros env text type w. unfold copyToClipboard.
  destruct (clipboard_accepts env (unescapedText (named_references env) text)).
  - exists [unescapedText (named_references env) text].
    eexists. exists (lit "success").
    cbv [bind emit modify]. rewrite showToast_trace. simpl trace.
    rewrite <- app_assoc. split; [reflexivity|].
    split; [simpl; lia|]. split.
    + constructor; [apply unescapedText_no_CR|constructor].
    + split; discriminate.
  - exists []. eexists. exists (lit "error").
    rewrite showToast_trace. split; [reflexivity|].
    split; [simpl; lia|]. split; [constructor|]. split; reflexivity.
Qed.


(** ** How the handlers compose *)

Lemma guarded_fetches (env : Env) (request : Request) (type : jsstring)
  (w0 w : World) :
  trace w = trace w0 ->
  fetches (trace (snd (try_finally
                         (try_catch (bind (fetch env request)
                                          (show_response env))
                                    show_exception)
                         (setLoadingState false type) w))) =
  fetches (trace w0) ++ [request].
Proof.
  intros Ht. unfold try_finally.
  pose proof (@fetch_guarded unit env request (show_response env)
                show_exception w) as Hf.
  destruct (try_catch _ _ w) as [r w2]. simpl in Hf.
  pose proof (keeps_setLoadingState (R:=same_fetches) false type w2) as Hc.
  unfold same_fetches in Hc.
  destruct (setLoadingState false type w2) as [[u|e] w3];
    simpl in *; rewrite Hc, <- Ht; apply Hf; intros;
    first [apply keeps_show_response | apply keeps_show_exception];
    apply allowed_not_a_fetch.
Qed.

Lemma generateCaptionsFromImage_fetches (env : Env) (w : World)
  (image : File) :
  selectedImage w = Some image ->
  fetches (trace (snd (generateCaptionsFromImage env w))) =
  fetches (trace w) ++ [image_request image].
Proof.
  intros Hsel.
  destruct (generateCaptionsFromImage_guarded env w Hsel) as [f ->].
  apply guarded_fetches. reflexivity.
Qed.

Lemma generateCaptionsFromImage_without_image (env : Env) (w : World) :
  selectedImage w = None ->
  trace (snd (generateCaptionsFromImage env w)) =
  trace w ++ [select_an_image_first].
Proof.
  intros Hsel. unfold generateCaptionsFromImage. cbv [bind read].
  rewrite Hsel. reflexivity.
Qed.

(** X17.  A picked or dropped image is the one that is uploaded.  When the
    first file of a change or drop event is an image, the handler shows no
    toast and starts reading the file for the preview, a drop also hands
    the dropped files to the file input, cancels the browser's default and
    clears the drag highlight; the next [generateCaptionsFromImage] sends
    exactly one request, the upload of that file. *)
Theorem selected_image_is_uploaded :
  forall (env : Env) (e : EventObject) (file : File) (w : World),
    hd_error (ev_files e) = Some file -> is_image file = true ->
    (trace (snd (handleImageSelect e w)) = trace w /\
     readers (snd (handleImageSelect e w)) = readers w ++ [file] /\
     fetches (trace (snd (generateCaptionsFromImage env
                            (snd (handleImageSelect e w))))) =
       fetches (trace w) ++ [image_request file]) /\
    (trace (snd (handleDrop e w)) = trace w /\
     readers (snd (handleDrop e w)) = readers w ++ [file] /\
     imageInput_files (snd (handleDrop e w)) = ev_files e /\
     defaultPrevented (snd (handleDrop e w)) = true /\
     attrs (snd (handleDrop e w)) uploadArea class_drag_over = VBool false /\
     fetches (trace (snd (generateCaptionsFromImage env
                            (snd (handleDrop e w))))) =
       fetches (trace w) ++ [image_request file]).
Proof.
  intros env e file w Hfile Himage. split.
  - assert (E : handleImageSelect e w =
                (Normal tt,
                 set_readers (readers w ++ [file])
                             (set_selectedImage (Some file) w))).
    { unfold handleImageSelect. rewrite Hfile, Himage. reflexivity. }
    rewrite E. simpl snd.
    split; [reflexivity|]. split; [reflexivity|].
    exact (@generateCaptionsFromImage_fetches env
             (set_readers (readers w ++ [file])
                          (set_selectedImage (Some file) w))
             file eq_refl).
  - assert (E : exists w1, handleDrop e w = (Normal tt, w1) /\
                           selectedImage w1 = Some file /\
                           trace w1 = trace w /\
                           readers w1 = readers w ++ [file] /\
                           imageInput_files w1 = ev_files e /\
                           defaultPrevented w1 = true /\
                           attrs w1 uploadArea class_drag_over = VBool false).
    { unfold handleDrop. cbv [bind preventDefault modify set_attr].
      rewrite Hfile, Himage. eexists. split; [reflexivity|].
      repeat split. }
    destruct E as (w1 & -> & Hsel & Ht & Hr & Hi & Hp & Ha). simpl snd.
    repeat (split; [assumption|]).
    rewrite (@generateCaptionsFromImage_fetches env w1 file Hsel), Ht.
    reflexivity.
Qed.

Lemma selected_image_is_uploaded_witness :
  fetches (trace (snd (generateCaptionsFromImage unreachable_env
                         (snd (handleDrop
                                 {| ev_files := [sample_image;
                                                 sample_document] |}
                                 initial))))) =
  [image_request sample_image].
Proof.
  apply (proj2 (@selected_image_is_uploaded unreachable_env
                  {| ev_files := [sample_image; sample_document] |}
                  sample_image initial eq_refl eq_refl)).
Defined.

(** X18.  After [removeImage] or [resetForm] the generate buttons send
    nothing: [generateCaptionsFromImage] asks for an image, and after
    [resetForm] [generateCaptionsFromText] asks for 10 characters.
    [resetForm] hides the results section and scrolls to the top, sets the
    counter to 0, and leaves the cards of the last result in the grids. *)
Theorem nothing_is_sent_after_a_reset :
  forall (env : Env) (w : World),
    trace (snd (generateCaptionsFromImage env (snd (removeImage w)))) =
      trace w ++ [select_an_image_first] /\
    trace (snd (generateCaptionsFromImage env (snd (resetForm w)))) =
      trace w ++ [ScrollToTop; select_an_image_first] /\
    trace (snd (generateCaptionsFromText env (snd (resetForm w)))) =
      trace w ++ [ScrollToTop; enter_ten_characters] /\
    attrs (snd (resetForm w)) resultsSection style_display =
      VString (lit "none") /\
    attrs (snd (resetForm w)) charCount textContent = VNumber 0 /\
    captionsGrid_children (snd (resetForm w)) = captionsGrid_children w /\
    hashtagsGrid_children (snd (resetForm w)) = hashtagsGrid_children w.
Proof.
  intros env w. split; [|split; [|split]].
  - rewrite generateCaptionsFromImage_without_image by reflexivity.
    reflexivity.
  - rewrite generateCaptionsFromImage_without_image by reflexivity.
    simpl. rewrite <- app_assoc. reflexivity.
  - rewrite generateCaptionsFromText_rejects by (simpl; lia).
    rewrite showToast_trace. simpl. rewrite <- app_assoc. reflexivity.
  - repeat split.
Qed.

(** X19.  A toast is hidden by the timer of the toast before it.  Two
    calls of [showToast] leave two timers pending; when the first one runs,
    the toast that shows the second message loses its [show] class, and the
    second timer is still to come. *)
Theorem earlier_timer_hides_a_later_toast :
  forall (env : Env) (first second : value) (type type' : jsstring)
         (w : World),
    let shown := snd (showToast second type' (snd (showToast first type w))) in
    let hidden :=
      snd (run_timer hide_toast
             (set_timers (timers w ++ [(hide_toast, 3000)]) shown)) in
    timers shown = timers w ++ [(hide_toast, 3000); (hide_toast, 3000)] /\
    attrs shown toast class_show = VBool true /\
    step env shown hidden /\
    attrs hidden toastMessage textContent = second /\
    attrs hidden toast class_show = VBool false /\
    timers hidden = timers w ++ [(hide_toast, 3000)].
Proof.
  intros env first second type type' w shown hidden.
  assert (E : timers shown =
              timers w ++ [(hide_toast, 3000); (hide_toast, 3000)]).
  { unfold shown. simpl. rewrite <- app_assoc. reflexivity. }
  split; [exact E|]. split; [reflexivity|]. split.
  - unfold hidden.
    apply step_timer with (before := timers w) (t := hide_toast)
                          (delay := 3000) (after := [(hide_toast, 3000)]).
    exact E.
  - repeat split.
Qed.

(** ** What the page ever sends *)

Lemma handleImageSelect_fetches (e : EventObject) (w : World) :
  fetches (trace (snd (handleImageSelect e w))) = fetches (trace w).
Proof.
  unfold handleImageSelect.
  destruct (hd_error (ev_files e)) as [file|]; [destruct (is_image file)|];
    try reflexivity;
    rewrite showToast_trace, fetches_app; apply app_nil_r.
Qed.

Lemma handleDrop_fetches (e : EventObject) (w : World) :
  fetches (trace (snd (handleDrop e w))) = fetches (trace w).
Proof.
  unfold handleDrop. cbv [bind preventDefault modify set_attr].
  destruct (hd_error (ev_files e)) as [file|]; [destruct (is_image file)|];
    try reflexivity;
    rewrite showToast_trace, fetches_app; apply app_nil_r.
Qed.

Lemma copyToClipboard_fetches (env : Env) (text type : jsstring) (w : World) :
  fetches (trace (snd (copyToClipboard env text type w))) = fetches (trace w).
Proof.
  unfold copyToClipboard.
  destruct (clipboard_accepts env (unescapedText (named_references env) text)).
  - cbv [bind emit modify]. rewrite showToast_trace. simpl trace.
    rewrite !fetches_app. simpl. rewrite !app_nil_r. reflexivity.
  - rewrite showToast_trace, fetches_app. apply app_nil_r.
Qed.

Lemma DOMContentLoaded_fetches (env : Env) (w : World) :
  fetches (trace (snd (DOMContentLoaded env w))) =
  fetches (trace w) ++ [health_request].
Proof.
  rewrite DOMContentLoaded_trace, fetches_app. f_equal.
  destruct (server env (fetches (trace w)) health_request) as [m|r];
    [reflexivity|]. destruct (resp_ok r); reflexivity.
Qed.

(** Every handler sends at most the request it is written for. *)
Lemma handle_fetches (env : Env) (h : Handler) (e : EventObject) (w : World) :
  selectedImage_ok w ->
  exists sent,
    fetches (trace (snd (handle env h e w))) = fetches (trace w) ++ sent /\
    Forall expected_request sent.
Proof.
  intros Hok.
  assert (nothing : forall w', fetches (trace w') = fetches (trace w) ->
            exists sent, fetches (trace w') = fetches (trace w) ++ sent /\
                         Forall expected_request sent).
  { intros w' E. exists []. rewrite app_nil_r. split; [exact E|constructor]. }
  destruct h; simpl handle.
  - exists [health_request]. split; [apply DOMContentLoaded_fetches|].
    constructor; [left; reflexivity|constructor].
  - apply nothing. apply (keeps_switchTab (R:=same_fetches)).
  - apply nothing. simpl. rewrite fetches_app. apply app_nil_r.
  - apply nothing. apply handleImageSelect_fetches.
  - apply nothing. reflexivity.
  - apply nothing. reflexivity.
  - apply nothing. reflexivity.
  - apply nothing. apply handleDrop_fetches.
  - unfold selectedImage_ok in Hok.
    destruct (selectedImage w) as [image|] eqn:Hsel.
    + exists [image_request image].
      split; [apply generateCaptionsFromImage_fetches; exact Hsel|].
      constructor; [|constructor]. right. left. exists image. tauto.
    + apply nothing.
      rewrite generateCaptionsFromImage_without_image by exact Hsel.
      rewrite fetches_app. apply app_nil_r.
  - destruct (Nat.ltb_spec (strlen (trim (textBrief_value w))) 10) as [H|H].
    + apply nothing. rewrite generateCaptionsFromText_rejects by exact H.
      rewrite showToast_trace, fetches_app. apply app_nil_r.
    + exists [text_request (trim (textBrief_value w))].
      split; [apply generateCaptionsFromText_accepts; exact H|].
      constructor; [|constructor]. right. right.
      exists (trim (textBrief_value w)). tauto.
  - apply nothing. reflexivity.
  - apply nothing. simpl. rewrite fetches_app. apply app_nil_r.
Qed.

Lemma step_fetches (env : Env) (w w' : World) :
  step env w w' -> selectedImage_ok w ->
  Forall expected_request (fetches (trace w)) ->
  Forall expected_request (fetches (trace w')).
Proof.
  intros Hstep Hok Hw. destruct Hstep.
  - destruct (@handle_fetches env h e (set_defaultPrevented false w) Hok)
      as (sent & -> & Hsent).
    apply Forall_app. split; assumption.
  - exact Hw.
  - rewrite (keeps_reader_onload (R:=same_fetches) result
                                 (set_readers (before ++ after) w)).
    exact Hw.
  - rewrite (keeps_run_timer (R:=same_fetches) t
                             (set_timers (before ++ after) w)).
    exact Hw.
  - rewrite copyToClipboard_fetches. exact Hw.
Qed.


Lemma page_after_upload_reachable :
  reachable unreachable_env (page_after_upload unreachable_env).
Proof.
  unfold page_after_upload.
  apply reachable_step with (w := page_with_image unreachable_env);
    [apply page_with_image_reachable|].
  apply step_event with (target := generateFromImage) (type := lit "click").
  vm_compute. tauto.
Qed.


